(** * neuraforge: a shallow embedding of the animation core

    The development follows the Python sources:
    - [src/core/utils.py]   : [clamp], [rolling_hash];
    - [src/core/effects.py] : [Particle], [ParticleField], [Pulse], [GlowPulse];
    - [src/ui/credits.py]   : [CreditsOverlay];
    - [src/app.py]          : [AppState], [NeuraForgeApp].

    Conventions of the embedding.
    - Python [int] is [Z]; Python [float] is idealised as a rational [Q]
      (every property below is about comparisons, sums and products of
      finite values, never about rounding).
    - A Python exception is a value [Raise e] of the result type [Res].
    - [random.Random] is an abstract generator state threaded through the
      calls in the order the source makes them.
    - A [tk.Canvas] is a store of items keyed by the integer ids Tk hands
      out (1, 2, 3, ...); the store is passed explicitly because the
      particle field and the glow pulse of the application share one canvas.
      Coordinates and colours are not stored: pixel output is no part of
      any property. *)

From Stdlib Require Import ZArith QArith String Ascii List Lia Lqa.
From Stdlib Require DecimalString HexadecimalString.
From stdpp Require Import base option list gmap strings.

Open Scope Z_scope.

(** ** Exceptions *)

Inductive Exception : Type :=
| ValueError
| ZeroDivisionError
| IndexError
| OverflowError
| TclError
| RuntimeError.

Inductive Res (A : Type) : Type :=
| Ok (a : A)
| Raise (e : Exception).
Arguments Ok {A} a.
Arguments Raise {A} e.

#[global] Instance Res_ret : MRet Res := fun _ a => Ok a.
#[global] Instance Res_bind : MBind Res := fun _ _ f m =>
  match m with
  | Ok a => f a
  | Raise e => Raise e
  end.

(** ** Python built-ins used by the sources *)

(** [l[i]] for a list: negative indices count from the end. *)
Definition py_getitem {A : Type} (l : list A) (i : Z) : Res A :=
  let n := Z.of_nat (length l) in
  let j := if i <? 0 then i + n else i in
  if (j <? 0) || (n <=? j) then Raise IndexError
  else match l !! Z.to_nat j with
       | Some a => Ok a
       | None => Raise IndexError
       end.

(** [a % b] on integers. *)
Definition py_mod (a b : Z) : Res Z :=
  if b =? 0 then Raise ZeroDivisionError else Ok (a mod b).

(** [l.pop(0)]. *)
Definition pop0 {A : Type} (l : list A) : Res (A * list A) :=
  match l with
  | [] => Raise IndexError
  | a :: l' => Ok (a, l')
  end.

(** [str(n)] for an integer. *)
Definition py_str (n : Z) : string := DecimalString.NilZero.string_of_int (Z.to_int n).

(** [int(v)] for a float: truncation towards zero. *)
Definition py_int (v : Q) : Z := Z.quot (Qnum v) (Z.pos (Qden v)).

(** Padding with zeros on the left, up to [width] characters. *)
Definition zfill (width : nat) (s : string) : string :=
  string_of_list_ascii (repeat "0"%char (width - String.length s)) +:+ s.

(** [f"{n:0{width}x}"]: the sign counts in the width. *)
Definition format_0x (width : nat) (n : Z) : string :=
  let digits (m : Z) := HexadecimalString.NilZero.string_of_uint (N.to_hex_uint (Z.to_N m)) in
  if n <? 0 then "-" +:+ zfill (width - 1) (digits (- n)) else zfill width (digits n).

(** [f"{v:.2f}"]: the nearest hundredth, a tie going to the even one. *)
Definition round_half_even (v : Q) : Z :=
  let a := Qnum v in
  let b := Z.pos (Qden v) in
  let fl := a / b in
  let rem := a mod b in
  if 2 * rem <? b then fl
  else if b <? 2 * rem then fl + 1
  else if Z.even fl then fl else fl + 1.

Definition format_2f (v : Q) : string :=
  let neg := negb (Qle_bool 0 v) in
  let cents := round_half_even ((if neg then - v else v) * 100)%Q in
  (if neg then "-" else EmptyString) +:+ py_str (cents / 100) +:+ "."
    +:+ zfill 2 (py_str (cents mod 100)).

(** [x.to_bytes(n, "little")] *)
Fixpoint little_endian (n : nat) (x : Z) : list Z :=
  match n with
  | O => []
  | S n' => x mod 256 :: little_endian n' (x / 256)
  end.

Definition to_bytes (n : nat) (x : Z) : Res (list Z) :=
  if (x <? 0) || (2 ^ (8 * Z.of_nat n) <=? x) then Raise OverflowError
  else Ok (little_endian n x).

Definition Qltb (a b : Q) : bool := negb (Qle_bool b a).

(** ** [random.Random] *)

Class PyRandom (G : Type) : Type := {
  (** [random.Random(seed)] *)
  Random : Z -> G;
  (** [g.random()], a float of [[0, 1)] *)
  random : G -> Q * G;
  (** the draw behind [g.randrange(0, n)] for [n > 0] *)
  randbelow : Z -> G -> Z * G;
  (** [g.getrandbits(k)] *)
  getrandbits : Z -> G -> Z * G
}.

(** What the Python library documents of the generator. *)
Class PyRandomSpec (G : Type) `{PyRandom G} : Prop := {
  random_range : forall g : G, (0 <= (random g).1 /\ (random g).1 < 1)%Q;
  randbelow_range : forall (n : Z) (g : G), 0 < n -> 0 <= (randbelow n g).1 < n;
  getrandbits_range : forall (k : Z) (g : G), 0 <= k -> 0 <= (getrandbits k g).1 < 2 ^ k
}.

(** [g.randrange(start, stop)]: [ValueError] on an empty range. *)
Definition randrange {G : Type} `{PyRandom G} (start stop : Z) (g : G) : Res (Z * G) :=
  if stop - start <=? 0 then Raise ValueError
  else let '(k, g') := randbelow (stop - start) g in Ok (start + k, g').

(** A small linear congruential generator, used to run the model. *)
Definition lcg_next (s : Z) : Z := (s * 1103515245 + 12345) mod 2147483648.

#[global] Instance lcg_PyRandom : PyRandom Z := {
  Random := fun seed => seed mod 2147483648;
  random := fun s => (Qmake (lcg_next s) 2147483648, lcg_next s);
  randbelow := fun n s => (lcg_next s mod n, lcg_next s);
  getrandbits := fun k s => (lcg_next s mod 2 ^ k, lcg_next s)
}.

(** ** [src/core/utils.py] *)

Module Utils.

Definition clamp (x lo hi : Q) : Q :=
  if Qltb x lo then lo else if Qltb hi x then hi else x.

Definition rolling_hash (x : Z) : Z :=
  let x := Z.land x 4294967295 in
  let x := Z.lxor x (Z.land (Z.shiftl x 13) 4294967295) in
  let x := Z.lxor x (Z.land (Z.shiftr x 17) 4294967295) in
  let x := Z.lxor x (Z.land (Z.shiftl x 5) 4294967295) in
  Z.land x 4294967295.

(** The [while] loop of [fmt_bytes]; [i < len(units) - 1] bounds it by 3
    turns. *)
Fixpoint scale (turns : nat) (v : Q) (i : nat) : Q * nat :=
  match turns with
  | O => (v, i)
  | S turns' =>
      if Qle_bool 1024 v && (i <? 3)%nat then scale turns' (v / 1024)%Q (S i)
      else (v, i)
  end.

Definition fmt_bytes (n : Z) : string :=
  if n <? 1024 then py_str n +:+ " B"
  else
    let '(v, i) := scale 3 (inject_Z n) 0 in
    format_2f v +:+ " " +:+ nth i ["KB"; "MB"; "GB"; "TB"] EmptyString.

Definition fmt_uptime (seconds : Q) : string :=
  let s := py_int seconds in
  if s <? 60 then py_str s +:+ "s"
  else
    let m := s / 60 in
    let s := s mod 60 in
    if m <? 60 then py_str m +:+ "m " +:+ py_str s +:+ "s"
    else
      let h := m / 60 in
      let m := m mod 60 in
      py_str h +:+ "h " +:+ py_str m +:+ "m".

End Utils.

(** ** [tk.Canvas] *)

Module Canvas.

Inductive Kind : Type := KOval | KText | KRectangle.

Record Item : Type := mkItem {
  kind : Kind;
  text : string;
  tags : list string
}.

(** The calls that change the canvas, in the order they were made. *)
Inductive Call : Type :=
| Create (id : Z) (k : Kind)
| Delete (id : Z)
| DeleteTag (tag : string)
| Coords (id : Z)
| TagLower (tag : string)
| Itemconfigure (id : Z) (option : string).

Record t : Type := mk {
  width : Z;
  height : Z;
  next_id : positive;
  items : gmap Z Item;
  calls : list Call
}.

Definition winfo_width (c : t) : Z := width c.
Definition winfo_height (c : t) : Z := height c.

(** Every [create_*] returns a fresh id; Tk numbers items from 1 and never
    reuses an id. *)
Definition create (it : Item) (c : t) : Z * t :=
  let id := Z.pos (next_id c) in
  (id, mk (width c) (height c) (Pos.succ (next_id c)) (<[id := it]> (items c))
          (calls c ++ [Create id (kind it)])).

Definition create_oval (colour : string) (c : t) : Z * t :=
  create (mkItem KOval EmptyString []) c.

Definition create_text (text colour : string) (c : t) : Z * t :=
  create (mkItem KText text []) c.

Definition create_rectangle (tag : string) (c : t) : Z * t :=
  create (mkItem KRectangle EmptyString [tag]) c.

Definition update (call : Call) (f : gmap Z Item -> gmap Z Item) (c : t) : t :=
  mk (width c) (height c) (next_id c) (f (items c)) (calls c ++ [call]).

(** The canvas takes the size its window gives it. *)
Definition resize (w h : Z) (c : t) : t := mk w h (next_id c) (items c) (calls c).

(** [canvas.delete(id)]: an id that names no item is ignored. *)
Definition delete (id : Z) (c : t) : t := update (Delete id) (base.delete id) c.

(** [canvas.delete(tag)] *)
Definition delete_tag (tag : string) (c : t) : t :=
  update (DeleteTag tag) (filter (fun kv => tag ∉ tags kv.2)) c.

(** [canvas.delete("all")] *)
Definition delete_all (c : t) : t := update (DeleteTag "all") (fun _ => ∅) c.

(** The canvas once the window that holds it is destroyed: Tk destroys the
    children of a window with it, so that no item is left. *)
Definition destroyed (c : t) : t := mk (width c) (height c) (next_id c) ∅ (calls c).

(** [canvas.coords(id, x, ...)] moves an item. *)
Definition coords (id : Z) (c : t) : t := update (Coords id) (fun m => m) c.

(** [canvas.tag_lower(tag)] changes the stacking order, which is not stored. *)
Definition tag_lower (tag : string) (c : t) : t := update (TagLower tag) (fun m => m) c.

(** [canvas.coords(id)] as used by [x, y = canvas.coords(cid)]: unpacking
    the empty list that Tk returns for an id that names no item raises. *)
Definition get_coords (id : Z) (c : t) : Res unit :=
  match items c !! id with
  | Some _ => Ok tt
  | None => Raise ValueError
  end.

(** [canvas.itemconfigure(id, fill=...)] and [(id, outline=...)] *)
Definition itemconfigure_fill (id : Z) (colour : string) (c : t) : t :=
  update (Itemconfigure id "fill") (fun m => m) c.

Definition itemconfigure_outline (id : Z) (colour : string) (c : t) : t :=
  update (Itemconfigure id "outline") (fun m => m) c.

(** [canvas.itemconfigure(id, text=s)] *)
Definition itemconfigure_text (id : Z) (s : string) (c : t) : t :=
  update (Itemconfigure id "text")
         (alter (fun it => mkItem (kind it) s (tags it)) id) c.

(** [canvas.itemcget(id, "text")]; Tk raises for an id that names no item. *)
Definition itemcget_text (id : Z) (c : t) : Res string :=
  match items c !! id with
  | Some it => Ok (text it)
  | None => Raise TclError
  end.

(** How often the text of an item was set after its creation. *)
Definition is_text_update (call : Call) : bool :=
  match call with
  | Itemconfigure _ o => String.eqb o "text"
  | _ => false
  end.

Definition text_updates (c : t) : nat :=
  length (List.filter is_text_update (calls c)).

(** [c'] comes from [c] by calls that leave the untagged items created so
    far as they are and set no text. *)
Definition keeps (c c' : t) : Prop :=
  (forall id it, id < Z.pos (next_id c) -> items c !! id = Some it -> tags it = [] ->
                 items c' !! id = Some it) /\
  (next_id c <= next_id c')%positive /\
  text_updates c' = text_updates c.

End Canvas.

(** ** [src/core/effects.py] : the particle field *)

Module Particle.

Record t : Type := mk {
  x : Q;
  y : Q;
  vx : Q;
  vy : Q;
  r : Q;
  alpha : Q;
  hue_idx : Z;
  item : Z
}.

Definition set_item (i : Z) (p : t) : t :=
  mk (x p) (y p) (vx p) (vy p) (r p) (alpha p) (hue_idx p) i.

Definition set_hue_idx (i : Z) (p : t) : t :=
  mk (x p) (y p) (vx p) (vy p) (r p) (alpha p) i (item p).

End Particle.

Module ParticleField.
Section with_generator.
Context {G : Type} `{PyRandom G}.

Record t : Type := mk {
  palette : list string;
  _rng : G;
  particles : list Particle.t;
  _boost : Z;
  count : Z
}.

Definition set_rng (g : G) (s : t) : t :=
  mk (palette s) g (particles s) (_boost s) (count s).
Definition set_particles (ps : list Particle.t) (s : t) : t :=
  mk (palette s) (_rng s) ps (_boost s) (count s).
Definition set_boost (b : Z) (s : t) : t :=
  mk (palette s) (_rng s) (particles s) b (count s).
Definition set_count (n : Z) (s : t) : t :=
  mk (palette s) (_rng s) (particles s) (_boost s) n.

(** [boost(amt)] *)
Definition boost (amt : Z) (s : t) : t :=
  set_boost (_boost s + Z.max 0 amt) s.

(** One turn of the loop of [_spawn]. *)
Definition spawn_one (w h : Z) (s : t) : Res t :=
  let '(u, g) := random (_rng s) in
  let x := (u * inject_Z w)%Q in
  let '(u, g) := random g in
  let y := (u * inject_Z h)%Q in
  let '(u, g) := random g in
  let a := (0.25 + u * 0.75)%Q in
  let '(u, g) := random g in
  let r := (1.2 + u * 2.6)%Q in
  let '(u, g) := random g in
  let vx := ((u - 0.5) * 0.9)%Q in
  let '(u, g) := random g in
  let vy := ((u - 0.5) * 0.6)%Q in
  '(idx, g) ← randrange 0 (Z.of_nat (length (palette s))) g;
  let p := Particle.mk x y vx vy r a idx (-1) in
  mret (set_particles (particles s ++ [p]) (set_rng g s)).

Fixpoint spawn_loop (w h : Z) (n : nat) (s : t) : Res t :=
  match n with
  | O => mret s
  | S n' => s' ← spawn_one w h s; spawn_loop w h n' s'
  end.

(** [_spawn(n)]: [range(n)] is empty for [n <= 0]. *)
Definition _spawn (c : Canvas.t) (n : Z) (s : t) : Res t :=
  let w := Z.max 1 (Canvas.winfo_width c) in
  let h := Z.max 1 (Canvas.winfo_height c) in
  spawn_loop w h (Z.to_nat n) s.

(** [__init__(canvas, palette)] *)
Definition __init__ (c : Canvas.t) (palette : list string) : Res t :=
  _spawn c 42 (mk palette (Random 1337) [] 0 0).

(** The body of the [for p in self.particles] loop of [step]. *)
Definition move (w h : Z) (p : Particle.t) (g : G) : Particle.t * G :=
  let x := (Particle.x p + Particle.vx p)%Q in
  let y := (Particle.y p + Particle.vy p)%Q in
  let '(u, g) := random g in
  let vx := (Particle.vx p + (u - 0.5) * 0.02)%Q in
  let '(u, g) := random g in
  let vy := (Particle.vy p + (u - 0.5) * 0.02)%Q in
  let vx := Utils.clamp vx (-1.2) 1.2 in
  let vy := Utils.clamp vy (-0.9) 0.9 in
  let '(vx, x) :=
    if Qltb x 0 || Qltb (inject_Z w) x
    then ((vx * -0.9)%Q, Utils.clamp x 0 (inject_Z w))
    else (vx, x) in
  let '(vy, y) :=
    if Qltb y 0 || Qltb (inject_Z h) y
    then ((vy * -0.9)%Q, Utils.clamp y 0 (inject_Z h))
    else (vy, y) in
  let '(u, g) := random g in
  let a := (Particle.alpha p + (u - 0.45) * 0.03)%Q in
  let a := Utils.clamp a 0.18 1.0 in
  (Particle.mk x y vx vy (Particle.r p) a (Particle.hue_idx p) (Particle.item p), g).

Fixpoint move_all (w h : Z) (ps : list Particle.t) (g : G) : list Particle.t * G :=
  match ps with
  | [] => ([], g)
  | p :: ps' =>
      let '(p', g) := move w h p g in
      let '(ps'', g) := move_all w h ps' g in
      (p' :: ps'', g)
  end.

(** The body of the loop of [_render]. *)
Definition render_one (pal : list string) (p : Particle.t) (c : Canvas.t) (g : G)
  : Res (Particle.t * Canvas.t * G) :=
  i ← py_mod (Particle.hue_idx p) (Z.of_nat (length pal));
  col ← py_getitem pal i;
  if Particle.item p =? -1 then
    let '(id, c) := Canvas.create_oval col c in
    mret (Particle.set_item id p, c, g)
  else
    let c := Canvas.coords (Particle.item p) c in
    if Qltb 0.9 (Particle.alpha p) then
      let '(u, g) := random g in
      if Qltb u 0.05 then
        j ← py_mod (Particle.hue_idx p + 1) (Z.of_nat (length pal));
        col ← py_getitem pal j;
        mret (Particle.set_hue_idx j p,
              Canvas.itemconfigure_fill (Particle.item p) col c, g)
      else
        mret (p, Canvas.itemconfigure_fill (Particle.item p) col c, g)
    else
      mret (p, Canvas.itemconfigure_fill (Particle.item p) col c, g).

Fixpoint render_all (pal : list string) (ps : list Particle.t) (c : Canvas.t) (g : G)
  : Res (list Particle.t * Canvas.t * G) :=
  match ps with
  | [] => mret ([], c, g)
  | p :: ps' =>
      '(p', c, g) ← render_one pal p c g;
      '(ps'', c, g) ← render_all pal ps' c g;
      mret (p' :: ps'', c, g)
  end.

Definition _render (c : Canvas.t) (s : t) : Res (Canvas.t * t) :=
  '(ps, c, g) ← render_all (palette s) (particles s) c (_rng s);
  mret (c, set_particles ps (set_rng g s)).

(** The number of particles a [step] takes from the pending boost. *)
Definition drain (s : t) : Z :=
  if 0 <? _boost s then Z.min 8 (_boost s) else 0.

(** Lines 57-84 of [step]: drain the boost, move, render, set [count]. *)
Definition advance (c : Canvas.t) (s : t) : Res (Canvas.t * t) :=
  let w := Z.max 1 (Canvas.winfo_width c) in
  let h := Z.max 1 (Canvas.winfo_height c) in
  s ← (if 0 <? _boost s then
         let add := Z.min 8 (_boost s) in
         _spawn c add (set_boost (_boost s - add) s)
       else mret s);
  let '(ps, g) := move_all w h (particles s) (_rng s) in
  let s := set_particles ps (set_rng g s) in
  '(c, s) ← _render c s;
  mret (c, set_count (Z.of_nat (length (particles s))) s).

(** The [for _ in range(len(self.particles) - 160)] loop of [step]. *)
Fixpoint evict_loop (n : nat) (c : Canvas.t) (ps : list Particle.t)
  : Res (Canvas.t * list Particle.t) :=
  match n with
  | O => mret (c, ps)
  | S n' =>
      '(old, ps') ← pop0 ps;
      let c := if Particle.item old =? -1 then c
               else Canvas.delete (Particle.item old) c in
      evict_loop n' c ps'
  end.

(** Lines 86-93 of [step]. *)
Definition evict (c : Canvas.t) (s : t) : Res (Canvas.t * t) :=
  let n := Z.of_nat (length (particles s)) in
  if 160 <? n then
    '(c, ps) ← evict_loop (Z.to_nat (n - 160)) c (particles s);
    mret (c, set_particles ps s)
  else mret (c, s).

(** [step()] *)
Definition step (c : Canvas.t) (s : t) : Res (Canvas.t * t) :=
  '(c, s) ← advance c s;
  evict c s.

(** What happens to a particle field in the application: [boost] from
    Run Demo, [step] from the effects timer, and the canvas changing size. *)
Inductive Op : Type :=
| Boost (amt : Z)
| Step
| Resize (width height : Z).

Fixpoint run (ops : list Op) (c : Canvas.t) (s : t) : Res (Canvas.t * t) :=
  match ops with
  | [] => mret (c, s)
  | Boost amt :: ops' => run ops' c (boost amt s)
  | Step :: ops' => '(c, s) ← step c s; run ops' c s
  | Resize w h :: ops' => run ops' (Canvas.resize w h c) s
  end.

(** For [n] steps in a row, the number of particles each one adds to the
    list before it evicts: [count] after the step less the length before. *)
Fixpoint spawned_per_step (n : nat) (c : Canvas.t) (s : t) : Res (list Z) :=
  match n with
  | O => mret []
  | S n' =>
      '(c', s') ← step c s;
      rest ← spawned_per_step n' c' s';
      mret (count s' - Z.of_nat (length (particles s)) :: rest)
  end.

(** The bounds of the clamps of [step]. *)
Definition in_bounds (p : Particle.t) : Prop :=
  (0.18 <= Particle.alpha p /\ Particle.alpha p <= 1.0 /\
   -1.2 <= Particle.vx p /\ Particle.vx p <= 1.2 /\
   -0.9 <= Particle.vy p /\ Particle.vy p <= 0.9)%Q.

End with_generator.
Arguments t G : clear implicits.
End ParticleField.

(** ** [src/core/effects.py] : the glow pulse *)

Module Pulse.

Record t : Type := mk {
  cx : Q;
  cy : Q;
  r : Q;
  vr : Q;
  life : Q;
  item : Z
}.

Definition set_item (i : Z) (p : t) : t :=
  mk (cx p) (cy p) (r p) (vr p) (life p) i.

End Pulse.

Module GlowPulse.
Section with_generator.
Context {G : Type} `{PyRandom G}.

Record t : Type := mk {
  palette : list string;
  _rng : G;
  pulses : list Pulse.t;
  _kick : Q
}.

Definition set_rng (g : G) (s : t) : t := mk (palette s) g (pulses s) (_kick s).
Definition set_pulses (ps : list Pulse.t) (s : t) : t := mk (palette s) (_rng s) ps (_kick s).
Definition set_kick (k : Q) (s : t) : t := mk (palette s) (_rng s) (pulses s) k.

(** [max(a, b)] of two numbers: the first of the largest. *)
Definition py_max (a b : Q) : Q := if Qltb a b then b else a.

(** [kick(strength)] *)
Definition kick (strength : Q) (s : t) : t :=
  set_kick (py_max (_kick s) strength) s.

(** [__init__(canvas, palette)] *)
Definition __init__ (palette : list string) : t :=
  kick 0.35 (mk palette (Random 2024) [] 0.0%Q).

(** [_spawn(w, h, strength)] *)
Definition _spawn (w h : Z) (strength : Q) (s : t) : t :=
  let '(u, g) := random (_rng s) in
  let cx := (inject_Z w * (0.22 + u * 0.56))%Q in
  let '(u, g) := random g in
  let cy := (inject_Z h * (0.28 + u * 0.44))%Q in
  let '(u, g) := random g in
  let r0 := (6 + u * 22)%Q in
  let vr := (1.6 + strength * 3.2)%Q in
  let life := (0.65 + strength * 0.8)%Q in
  set_pulses (pulses s ++ [Pulse.mk cx cy r0 vr life (-1)]) (set_rng g s).

(** Lines 143-147 of [step]: [and] and [elif] draw from the generator only
    when they are evaluated. *)
Definition maybe_spawn (w h : Z) (s : t) : t :=
  if Qltb 0 (_kick s) then
    let '(u, g) := random (_rng s) in
    let s := set_rng g s in
    if Qltb u 0.20 then
      let s := _spawn w h (_kick s) s in
      set_kick (_kick s * 0.85)%Q s
    else
      let '(u, g) := random (_rng s) in
      let s := set_rng g s in
      if Qltb u 0.01 then _spawn w h 0.22%Q s else s
  else
    let '(u, g) := random (_rng s) in
    let s := set_rng g s in
    if Qltb u 0.01 then _spawn w h 0.22%Q s else s.

(** Lines 149-155 of [step]. *)
Fixpoint age (ps : list Pulse.t) : list Pulse.t :=
  match ps with
  | [] => []
  | p :: ps' =>
      let r := (Pulse.r p + Pulse.vr p)%Q in
      let life := (Pulse.life p - 0.02)%Q in
      let p' := Pulse.mk (Pulse.cx p) (Pulse.cy p) r (Pulse.vr p) life (Pulse.item p) in
      if Qltb 0 life then p' :: age ps' else age ps'
  end.

(** The body of the loop of [_render], at index [i] of the enumeration. *)
Definition render_one (pal : list string) (i : Z) (p : Pulse.t) (c : Canvas.t)
  : Res (Pulse.t * Canvas.t) :=
  k ← py_mod i (Z.of_nat (length pal));
  col ← py_getitem pal k;
  if Pulse.item p =? -1 then
    let '(id, c) := Canvas.create_oval col c in
    mret (Pulse.set_item id p, c)
  else
    let c := Canvas.coords (Pulse.item p) c in
    mret (p, Canvas.itemconfigure_outline (Pulse.item p) col c).

Fixpoint render_from (pal : list string) (i : Z) (ps : list Pulse.t) (c : Canvas.t)
  : Res (list Pulse.t * Canvas.t) :=
  match ps with
  | [] => mret ([], c)
  | p :: ps' =>
      '(p', c) ← render_one pal i p c;
      '(ps'', c) ← render_from pal (i + 1) ps' c;
      mret (p' :: ps'', c)
  end.

Definition _render (c : Canvas.t) (s : t) : Res (Canvas.t * t) :=
  '(ps, c) ← render_from (palette s) 0 (pulses s) c;
  mret (c, set_pulses ps s).

(** [l[:-k]] and [l[-k:]] for [k > 0]. *)
Definition slice_but_last {A : Type} (k : nat) (l : list A) : list A :=
  take (length l - k)%nat l.
Definition slice_last {A : Type} (k : nat) (l : list A) : list A :=
  drop (length l - k)%nat l.

(** The [for extra in self.pulses[:-8]] loop. *)
Fixpoint release (extras : list Pulse.t) (c : Canvas.t) : Canvas.t :=
  match extras with
  | [] => c
  | extra :: rest =>
      let c := if Pulse.item extra =? -1 then c
               else Canvas.delete (Pulse.item extra) c in
      release rest c
  end.

(** Lines 140-157 of [step]: spawn, age, render. *)
Definition advance (c : Canvas.t) (s : t) : Res (Canvas.t * t) :=
  let w := Z.max 1 (Canvas.winfo_width c) in
  let h := Z.max 1 (Canvas.winfo_height c) in
  let s := maybe_spawn w h s in
  let s := set_pulses (age (pulses s)) s in
  _render c s.

(** Lines 159-166 of [step]. *)
Definition cap (c : Canvas.t) (s : t) : Canvas.t * t :=
  if (8 <? length (pulses s))%nat then
    (release (slice_but_last 8 (pulses s)) c, set_pulses (slice_last 8 (pulses s)) s)
  else (c, s).

(** [step()] *)
Definition step (c : Canvas.t) (s : t) : Res (Canvas.t * t) :=
  '(c, s) ← advance c s;
  mret (cap c s).

(** What happens to a glow pulse in the application: [kick] from Run Demo,
    [step] from the effects timer, and the canvas changing size. *)
Inductive Op : Type :=
| Kick (strength : Q)
| Step
| Resize (width height : Z).

Fixpoint run (ops : list Op) (c : Canvas.t) (s : t) : Res (Canvas.t * t) :=
  match ops with
  | [] => mret (c, s)
  | Kick strength :: ops' => run ops' c (kick strength s)
  | Step :: ops' => '(c, s) ← step c s; run ops' c s
  | Resize w h :: ops' => run ops' (Canvas.resize w h c) s
  end.

(** The ring that [_spawn] has just appended. *)
Definition newest (s : t) : option Pulse.t := last (pulses s).

End with_generator.
Arguments t G : clear implicits.
End GlowPulse.

(** ** Python [str] *)

Module Str.

(** A [str] is modelled by its UTF-8 encoding.  [whitespace] lists the
    encodings of the characters for which [str.isspace] holds. *)
Definition of_bytes (l : list nat) : string :=
  fold_right (fun n s => String (ascii_of_nat n) s) EmptyString l.

Definition whitespace_bytes : list (list nat) :=
  [[9]; [10]; [11]; [12]; [13]; [28]; [29]; [30]; [31]; [32];
   [194; 133]; [194; 160]; [225; 154; 128];
   [226; 128; 128]; [226; 128; 129]; [226; 128; 130]; [226; 128; 131];
   [226; 128; 132]; [226; 128; 133]; [226; 128; 134]; [226; 128; 135];
   [226; 128; 136]; [226; 128; 137]; [226; 128; 138];
   [226; 128; 168]; [226; 128; 169]; [226; 128; 175];
   [226; 129; 159]; [227; 128; 128]]%nat.

Fixpoint drop_prefix (p s : string) : option string :=
  match p, s with
  | EmptyString, _ => Some s
  | String a p', String b s' => if Ascii.eqb a b then drop_prefix p' s' else None
  | String _ _, EmptyString => None
  end.

Fixpoint drop_any (ps : list string) (s : string) : option string :=
  match ps with
  | [] => None
  | p :: ps' =>
      match drop_prefix p s with
      | Some s' => Some s'
      | None => drop_any ps' s
      end
  end.

Fixpoint strip_front (ps : list string) (fuel : nat) (s : string) : string :=
  match fuel with
  | O => s
  | S fuel' =>
      match drop_any ps s with
      | Some s' => strip_front ps fuel' s'
      | None => s
      end
  end.

Definition reverse (s : string) : string :=
  string_of_list_ascii (rev (list_ascii_of_string s)).

Definition lstrip (s : string) : string :=
  strip_front (map of_bytes whitespace_bytes) (String.length s) s.

Definition rstrip (s : string) : string :=
  reverse (strip_front (map (fun l => of_bytes (rev l)) whitespace_bytes)
                       (String.length s) (reverse s)).

(** [s.strip()] *)
Definition strip (s : string) : string := rstrip (lstrip s).

End Str.

(** ** [src/ui/theme.py] *)

Module Colors.
Definition bg : string := "#0b0f17".
Definition bg2 : string := "#0e1420".
Definition text : string := "#e7edf7".
Definition muted : string := "#9fb0c6".
Definition particle_palette : list string := ["#6ee7ff"; "#a78bfa"; "#6cffb5"; "#ffd166"].
Definition pulse_palette : list string := ["#6ee7ff"; "#a78bfa"; "#ffd166"].
End Colors.

(** ** The window side of a [tk.Toplevel] *)

Module Window.

Inductive Call : Type :=
| Deiconify
| GrabSet
| After (ms : Z) (callback : string) (job : Z)
| AfterCancel (job : Z)
| GrabRelease
| Destroy
| OnClose.

Record t : Type := mk {
  visible : bool;
  grab : bool;
  alive : bool;
  timers : list (Z * (Z * string));
  next_job : positive;
  calls : list Call
}.

Definition initial : t := mk false false true [] 1%positive [].

Definition record (call : Call) (w : t) : t :=
  mk (visible w) (grab w) (alive w) (timers w) (next_job w) (calls w ++ [call]).

Definition deiconify (w : t) : t :=
  record Deiconify (mk true (grab w) (alive w) (timers w) (next_job w) (calls w)).

Definition grab_set (w : t) : t :=
  record GrabSet (mk (visible w) true (alive w) (timers w) (next_job w) (calls w)).

(** [after(ms, callback)] returns the id of the new timer; the callback
    is named by the function it runs. *)
Definition after (ms : Z) (callback : string) (w : t) : Z * t :=
  let job := Z.pos (next_job w) in
  (job, record (After ms callback job)
          (mk (visible w) (grab w) (alive w) (timers w ++ [(job, (ms, callback))])
              (Pos.succ (next_job w)) (calls w))).

(** A timer that fires leaves the pending ones. *)
Definition expire (job : Z) (w : t) : t :=
  mk (visible w) (grab w) (alive w)
     (List.filter (fun jm => negb (jm.1 =? job)) (timers w))
     (next_job w) (calls w).

(** The three calls of a teardown.  Each may raise; the window is then
    left as it was.  [destroy] takes the window down with its children:
    [child] is the canvas packed into it. *)
Definition after_cancel (raises : bool) (job : Z) (w : t) : Res unit * t :=
  let w := record (AfterCancel job) w in
  if raises then (Raise TclError, w)
  else (Ok tt, mk (visible w) (grab w) (alive w)
                  (List.filter (fun jm => negb (jm.1 =? job)) (timers w))
                  (next_job w) (calls w)).

Definition grab_release (raises : bool) (w : t) : Res unit * t :=
  let w := record GrabRelease w in
  if raises then (Raise TclError, w)
  else (Ok tt, mk (visible w) false (alive w) (timers w) (next_job w) (calls w)).

Definition destroy (raises : bool) (w : t) (child : Canvas.t)
  : Res unit * t * Canvas.t :=
  let w := record Destroy w in
  if raises then (Raise TclError, w, child)
  else (Ok tt, mk false false false [] (next_job w) (calls w), Canvas.destroyed child).

(** How often the close callback was invoked. *)
Definition is_OnClose (call : Call) : bool :=
  match call with
  | OnClose => true
  | _ => false
  end.

Definition callbacks (w : t) : nat := length (List.filter is_OnClose (calls w)).

End Window.

(** ** [src/ui/credits.py] *)

Module CreditsOverlay.

Record t : Type := mk {
  company_name : string;
  author_first : string;
  author_last : string;
  reveal_delay_ms : Z;
  canvas : Canvas.t;
  _running : bool;
  _t0 : Q;
  _job : option Z;
  _title_id : option Z;
  _sub_id : option Z;
  _scroll_ids : list Z;
  window : Window.t
}.

Definition set_canvas (c : Canvas.t) (s : t) : t :=
  mk (company_name s) (author_first s) (author_last s) (reveal_delay_ms s) c
     (_running s) (_t0 s) (_job s) (_title_id s) (_sub_id s) (_scroll_ids s) (window s).
Definition set_running (b : bool) (s : t) : t :=
  mk (company_name s) (author_first s) (author_last s) (reveal_delay_ms s) (canvas s)
     b (_t0 s) (_job s) (_title_id s) (_sub_id s) (_scroll_ids s) (window s).
Definition set_t0 (q : Q) (s : t) : t :=
  mk (company_name s) (author_first s) (author_last s) (reveal_delay_ms s) (canvas s)
     (_running s) q (_job s) (_title_id s) (_sub_id s) (_scroll_ids s) (window s).
Definition set_job (j : option Z) (s : t) : t :=
  mk (company_name s) (author_first s) (author_last s) (reveal_delay_ms s) (canvas s)
     (_running s) (_t0 s) j (_title_id s) (_sub_id s) (_scroll_ids s) (window s).
Definition set_scene (title sub : option Z) (ids : list Z) (s : t) : t :=
  mk (company_name s) (author_first s) (author_last s) (reveal_delay_ms s) (canvas s)
     (_running s) (_t0 s) (_job s) title sub ids (window s).
Definition set_window (w : Window.t) (s : t) : t :=
  mk (company_name s) (author_first s) (author_last s) (reveal_delay_ms s) (canvas s)
     (_running s) (_t0 s) (_job s) (_title_id s) (_sub_id s) (_scroll_ids s) w.

(** [__init__]: the window is withdrawn, the canvas is new and empty. *)
Definition __init__ (width height : Z) (company_name author_first author_last : string)
    (reveal_delay_ms : Z) : t :=
  mk company_name author_first author_last reveal_delay_ms
     (Canvas.mk width height 1%positive ∅ [])
     false 0%Q None None None [] Window.initial.

Definition redacted : string := "Author: [REDACTED]".

(** [f"Author: {self.author_first} {self.author_last}"] *)
Definition author_line (s : t) : string :=
  "Author: " +:+ author_first s +:+ " " +:+ author_last s.

Definition _credits_lines : list string :=
  [ "neuraforge — internal demo build";
    EmptyString;
    "Design: Modern Tk";
    "UI: ttk + canvas";
    "Effects: particles + glow pulses";
    "Challenge: OSINT pivot";
    EmptyString;
    "Special thanks:";
    "• public corporate website";
    "• naming conventions";
    "• curious investigators";
    EmptyString;
    "Author: [REDACTED]";
    EmptyString;
    "— end —" ].

(** The loop of [_setup_scene] that creates one text item per line. *)
Fixpoint create_lines (lines : list string) (c : Canvas.t) : list Z * Canvas.t :=
  match lines with
  | [] => ([], c)
  | line :: rest =>
      let '(cid, c) := Canvas.create_text line Colors.muted c in
      let '(ids, c) := create_lines rest c in
      (cid :: ids, c)
  end.

Definition _setup_scene (s : t) : t :=
  let c := Canvas.delete_all (canvas s) in
  let '(title, c) := Canvas.create_text (company_name s) Colors.text c in
  let '(sub, c) :=
    Canvas.create_text "credits sequence • click or press ESC to close" Colors.muted c in
  let '(ids, c) := create_lines _credits_lines c in
  set_scene (Some title) (Some sub) ids (set_canvas c s).

(** [_paint_background]: the bands are deleted and drawn again. *)
Fixpoint create_bands (n : nat) (c : Canvas.t) : Canvas.t :=
  match n with
  | O => c
  | S n' => create_bands n' (Canvas.create_rectangle "bg" c).2
  end.

Definition _paint_background (s : t) : t :=
  let c := Canvas.delete_tag "bg" (canvas s) in
  let c := create_bands 14 c in
  set_canvas (Canvas.tag_lower "bg" c) s.

Definition _animate_title (s : t) : t :=
  match _title_id s with
  | None => s
  | Some title =>
      let c := Canvas.coords title (canvas s) in
      let c := match _sub_id s with
               | Some sub => Canvas.coords sub c
               | None => c
               end in
      set_canvas c s
  end.

(** The two loops of [_scroll_credits]. *)
Fixpoint place_lines (ids : list Z) (c : Canvas.t) : Canvas.t :=
  match ids with
  | [] => c
  | cid :: rest => place_lines rest (Canvas.coords cid c)
  end.

Fixpoint fade_lines (ids : list Z) (c : Canvas.t) : Res Canvas.t :=
  match ids with
  | [] => mret c
  | cid :: rest =>
      _ ← Canvas.get_coords cid c;
      fade_lines rest (Canvas.itemconfigure_fill cid Colors.muted c)
  end.

Definition _scroll_credits (s : t) : Res t :=
  let c := place_lines (_scroll_ids s) (canvas s) in
  c ← fade_lines (_scroll_ids s) c;
  mret (set_canvas c s).

(** [text.strip() == "Author: [REDACTED]"] *)
Definition reads_redacted (text : string) : bool :=
  String.eqb (Str.strip text) redacted.

(** The loop of [_reveal_author_if_needed]: the first line that reads as
    the redacted one is replaced, and the loop stops. *)
Fixpoint swap_first (ids : list Z) (line : string) (c : Canvas.t) : Res Canvas.t :=
  match ids with
  | [] => mret c
  | cid :: rest =>
      text ← Canvas.itemcget_text cid c;
      if reads_redacted text
      then mret (Canvas.itemconfigure_text cid line c)
      else swap_first rest line c
  end.

Definition _reveal_author_if_needed (t : Q) (s : CreditsOverlay.t) : Res CreditsOverlay.t :=
  if Qltb (t * 1000) (inject_Z (reveal_delay_ms s)) then mret s
  else
    c ← swap_first (_scroll_ids s) (author_line s) (canvas s);
    mret (set_canvas c s).

(** [_loop], run when [time.time()] reads [now]. *)
Definition _loop (now : Q) (s : t) : Res t :=
  if negb (_running s) then mret s
  else
    let t := (now - _t0 s)%Q in
    let s := _paint_background s in
    let s := _animate_title s in
    s ← _scroll_credits s;
    s ← _reveal_author_if_needed t s;
    let '(job, w) := Window.after 16 "_loop" (window s) in
    mret (set_job (Some job) (set_window w s)).

(** [show()]; [time.time()] reads [now0] in [show] and [now1] in the first
    [_loop]. *)
Definition show (now0 now1 : Q) (s : t) : Res t :=
  let s := set_window (Window.grab_set (Window.deiconify (window s))) s in
  let s := set_running true s in
  let s := set_t0 now0 s in
  let s := _setup_scene s in
  _loop now1 s.

(** Which of the window calls of a teardown raise. *)
Record Faults : Type := mkFaults {
  after_cancel_raises : bool;
  grab_release_raises : bool;
  destroy_raises : bool
}.

(** [try: ... except Exception: pass] around one window call. *)
Definition try_pass (call : Window.t -> Res unit * Window.t) (s : t) : t :=
  set_window (call (window s)).2 s.

(** [try: self.destroy() except Exception: pass]; the canvas is the child
    of the overlay's window. *)
Definition try_destroy (raises : bool) (s : t) : t :=
  let '(_, w, c) := Window.destroy raises (window s) (canvas s) in
  set_canvas c (set_window w s).

(** [close()].  [on_close_cb] is the callback given to [__init__]; it acts
    on the state [a] of the caller and may raise.  The result says whether
    [close] returned or raised. *)
Definition close {A : Type} (on_close_cb : A -> Res unit * A) (f : Faults) (s : t) (a : A)
  : Res unit * t * A :=
  if negb (_running s) then (Ok tt, s, a)
  else
    let s := set_running false s in
    let s := match _job s with
             | Some job => try_pass (Window.after_cancel (after_cancel_raises f) job) s
             | None => s
             end in
    let s := try_pass (Window.grab_release (grab_release_raises f)) s in
    let s := try_destroy (destroy_raises f) s in
    let s := set_window (Window.record Window.OnClose (window s)) s in
    let '(res, a) := on_close_cb a in
    (res, s, a).

(** The frames of a session: [_loop] at each reading of the clock. *)
Fixpoint frames (nows : list Q) (s : t) : Res t :=
  match nows with
  | [] => mret s
  | now :: rest => s' ← _loop now s; frames rest s'
  end.

(** A session: [show], whose first frame reads the clock at [now1], then
    one frame for each later reading. *)
Definition session (now0 now1 : Q) (rest : list Q) (s : t) : Res t :=
  s' ← show now0 now1 s;
  frames rest s'.

(** The text of the line created from ["Author: [REDACTED]"], the 13th. *)
Definition sentinel_text (s : t) : Res string :=
  cid ← py_getitem (_scroll_ids s) 12;
  Canvas.itemcget_text cid (canvas s).

(** The canvas [c] shows the texts [texts] in the text items [ids],
    untagged, each item its own and created before. *)
Definition shows (c : Canvas.t) (ids : list Z) (texts : list string) : Prop :=
  Forall2 (fun id text => Canvas.items c !! id = Some (Canvas.mkItem Canvas.KText text []))
          ids texts /\
  Forall (fun id => id < Z.pos (Canvas.next_id c)) ids /\
  NoDup ids.

(** The index of the first element that [f] accepts. *)
Fixpoint find_index {A : Type} (f : A -> bool) (l : list A) : option nat :=
  match l with
  | [] => None
  | a :: l' => if f a then Some O else S <$> find_index f l'
  end.

(** The credit lines once the author is revealed. *)
Definition revealed_lines (line : string) : list string := <[12%nat := line]> _credits_lines.

(** Is the reveal due at the reading [now] of the clock, in a session
    started at [now0] with the delay [d]? *)
Definition due (now0 : Q) (d : Z) (now : Q) : bool :=
  negb (Qltb ((now - now0) * 1000) (inject_Z d)).

(** An overlay in a session that started at [now0], on a canvas whose
    texts had been set [n0] times by then, with the author line [line] and
    the delay [d]: running, and showing the credit lines, [revealed] or
    not. *)
Definition in_session (now0 : Q) (line : string) (n0 : nat) (d : Z) (revealed : bool) (s : t)
  : Prop :=
  _running s = true /\ _t0 s = now0 /\ reveal_delay_ms s = d /\ author_line s = line /\
  shows (canvas s) (_scroll_ids s) (if revealed then revealed_lines line else _credits_lines) /\
  (revealed = false -> Canvas.text_updates (canvas s) = n0) /\
  (reads_redacted line = false ->
   Canvas.text_updates (canvas s) = (n0 + (if revealed then 1 else 0))%nat).

End CreditsOverlay.

(** ** [src/app.py] *)

Module AppState.

Record t : Type := mk {
  start_time : Q;
  runs : Z;
  pulses : Z;
  particles : Z;
  bytes_processed : Z;
  last_action : string
}.

Definition set_runs (n : Z) (s : t) : t :=
  mk (start_time s) n (pulses s) (particles s) (bytes_processed s) (last_action s).
Definition set_bytes_processed (n : Z) (s : t) : t :=
  mk (start_time s) (runs s) (pulses s) (particles s) n (last_action s).
Definition set_last_action (a : string) (s : t) : t :=
  mk (start_time s) (runs s) (pulses s) (particles s) (bytes_processed s) a.

End AppState.

Module NeuraForgeApp.

Definition APP_NAME : string := "neuraforge".
Definition APP_VERSION : string := "1.0.0".
Definition AUTHOR_FIRST : string := "Alex".
Definition AUTHOR_LAST : string := "Dubois".
Definition CREDITS_REVEAL_DELAY_MS : Z := 50.

Section with_generator.
Context {G : Type} `{PyRandom G}.

Record t : Type := mk {
  state : AppState.t;
  window : Window.t;
  canvas : Canvas.t;
  particles : ParticleField.t G;
  pulse : GlowPulse.t G;
  console : list string;
  card_uptime : string;
  card_runs : string;
  card_particles : string;
  card_bytes : string;
  credits : option CreditsOverlay.t;
  _tick_job : option Z;
  _fx_job : option Z
}.

Definition set_state (st : AppState.t) (a : t) : t :=
  mk st (window a) (canvas a) (particles a) (pulse a) (console a) (card_uptime a)
     (card_runs a) (card_particles a) (card_bytes a) (credits a) (_tick_job a) (_fx_job a).
Definition set_window (w : Window.t) (a : t) : t :=
  mk (state a) w (canvas a) (particles a) (pulse a) (console a) (card_uptime a)
     (card_runs a) (card_particles a) (card_bytes a) (credits a) (_tick_job a) (_fx_job a).
Definition set_effects (c : Canvas.t) (pf : ParticleField.t G) (gp : GlowPulse.t G) (a : t) : t :=
  mk (state a) (window a) c pf gp (console a) (card_uptime a)
     (card_runs a) (card_particles a) (card_bytes a) (credits a) (_tick_job a) (_fx_job a).
Definition set_cards (v_uptime v_runs v_particles v_bytes : string) (a : t) : t :=
  mk (state a) (window a) (canvas a) (particles a) (pulse a) (console a)
     v_uptime v_runs v_particles v_bytes (credits a) (_tick_job a) (_fx_job a).
Definition set_credits (ov : option CreditsOverlay.t) (a : t) : t :=
  mk (state a) (window a) (canvas a) (particles a) (pulse a) (console a) (card_uptime a)
     (card_runs a) (card_particles a) (card_bytes a) ov (_tick_job a) (_fx_job a).
Definition set_tick_job (j : option Z) (a : t) : t :=
  mk (state a) (window a) (canvas a) (particles a) (pulse a) (console a) (card_uptime a)
     (card_runs a) (card_particles a) (card_bytes a) (credits a) j (_fx_job a).
Definition set_fx_job (j : option Z) (a : t) : t :=
  mk (state a) (window a) (canvas a) (particles a) (pulse a) (console a) (card_uptime a)
     (card_runs a) (card_particles a) (card_bytes a) (credits a) (_tick_job a) j.

(** [self.console.log(msg)] *)
Definition log (msg : string) (a : t) : t :=
  mk (state a) (window a) (canvas a) (particles a) (pulse a) (console a ++ [msg])
     (card_uptime a) (card_runs a) (card_particles a) (card_bytes a) (credits a)
     (_tick_job a) (_fx_job a).

(** [_sync_stats], run when [time.time()] reads [now]. *)
Definition _sync_stats (now : Q) (a : t) : t :=
  let up := (now - AppState.start_time (state a))%Q in
  set_cards (Utils.fmt_uptime up)
            (py_str (AppState.runs (state a)))
            (py_str (ParticleField.count (particles a)))
            (Utils.fmt_bytes (AppState.bytes_processed (state a))) a.

(** The [for _ in range(120)] loop of [_on_run_demo]. *)
Fixpoint workload (n : nat) (rng : G) (total : Z) (payload : list Z)
  : Res (Z * list Z) :=
  match n with
  | O => mret (total, payload)
  | S n' =>
      let '(x, rng) := getrandbits 32 rng in
      let total := Z.lxor total (Utils.rolling_hash x) in
      bytes ← to_bytes 4 x;
      workload n' rng total (payload ++ bytes)
  end.

(** [_on_run_demo], run when [time.time()] reads [now]. *)
Definition _on_run_demo (now : Q) (a : t) : Res t :=
  let a := set_state (AppState.set_runs (AppState.runs (state a) + 1) (state a)) a in
  let a := set_state (AppState.set_last_action "run_demo" (state a)) a in
  let a := log "Run Demo → starting synthetic workload…" a in
  let seed := Z.lxor (py_int now) (Z.shiftl (AppState.runs (state a)) 8) in
  let rng := Random seed in
  '(total, payload) ← workload 120 rng 0 [];
  let processed := Z.of_nat (length payload) in
  let a := set_state (AppState.set_bytes_processed
                        (AppState.bytes_processed (state a) + processed) (state a)) a in
  let runs := AppState.runs (state a) in
  let pf := ParticleField.boost (24 + (runs mod 8) * 4) (particles a) in
  let gp := GlowPulse.kick (0.6 + inject_Z (runs mod 3) * 0.12)%Q (pulse a) in
  let a := set_effects (canvas a) pf gp a in
  let a := log ("Workload done → checksum=0x" +:+ format_0x 8 total +:+ ", processed="
                  +:+ py_str processed +:+ " bytes") a in
  mret (_sync_stats now a).

(** [_on_credits_close], the callback given to the overlay. *)
Definition _on_credits_close (a : t) : Res unit * t :=
  let a := log "Credits closed." a in
  (Ok tt, set_state (AppState.set_last_action "idle" (state a)) a).

(** [_on_show_credits]: [master_w], [master_h] are the size of the main
    window, [destroy_raises] says whether destroying an earlier overlay
    raises. *)
Definition _on_show_credits (master_w master_h : Z) (destroy_raises : bool)
    (now0 now1 : Q) (a : t) : Res t :=
  let a := set_state (AppState.set_last_action "credits" (state a)) a in
  let a := log "Run Credits → launching overlay…" a in
  let a := match credits a with
           | Some ov =>
               let ov := CreditsOverlay.try_destroy destroy_raises ov in
               set_credits None a
           | None => a
           end in
  let ov := CreditsOverlay.__init__ master_w master_h APP_NAME AUTHOR_FIRST AUTHOR_LAST
              CREDITS_REVEAL_DELAY_MS in
  let a := set_credits (Some ov) a in
  ov ← CreditsOverlay.show now0 now1 ov;
  mret (set_credits (Some ov) a).

(** The cancellation that opens [_schedule_ticks] and [_schedule_fx]. *)
Definition cancel (job : option Z) (w : Window.t) : Window.t :=
  match job with
  | Some j => (Window.after_cancel false j w).2
  | None => w
  end.

(** The callback [tick] of [_schedule_ticks]. *)
Definition tick (now : Q) (a : t) : t :=
  let a := _sync_stats now a in
  let '(job, w) := Window.after 250 "tick" (window a) in
  set_tick_job (Some job) (set_window w a).

Definition _schedule_ticks (a : t) : t :=
  let a := set_window (cancel (_tick_job a) (window a)) a in
  let '(job, w) := Window.after 250 "tick" (window a) in
  set_tick_job (Some job) (set_window w a).

(** The callback [frame] of [_schedule_fx]. *)
Definition frame (a : t) : Res t :=
  '(c, pf) ← ParticleField.step (canvas a) (particles a);
  '(c, gp) ← GlowPulse.step c (pulse a);
  let a := set_effects c pf gp a in
  let '(job, w) := Window.after 16 "frame" (window a) in
  mret (set_fx_job (Some job) (set_window w a)).

Definition _schedule_fx (a : t) : t :=
  let a := set_window (cancel (_fx_job a) (window a)) a in
  let '(job, w) := Window.after 16 "frame" (window a) in
  set_fx_job (Some job) (set_window w a).

(** The event loop runs the callback of the timer [job] when it is due. *)
Definition fire (job : Z) (now : Q) (a : t) : Res t :=
  match List.find (fun jm => jm.1 =? job) (Window.timers (window a)) with
  | None => mret a
  | Some (_, (_, callback)) =>
      let a := set_window (Window.expire job (window a)) a in
      if String.eqb callback "tick" then mret (tick now a)
      else if String.eqb callback "frame" then frame a
      else mret a
  end.

(** [__init__], as far as the state above goes: [width] and [height] are
    the size of the effects canvas, [banner] the two lines of
    [_log_env_banner]. *)
Definition __init__ (now : Q) (width height : Z) (banner : list string) : Res t :=
  let c := Canvas.mk width height 1%positive ∅ [] in
  pf ← ParticleField.__init__ c Colors.particle_palette;
  let gp := GlowPulse.__init__ Colors.pulse_palette in
  let a := mk (AppState.mk now 0 0 0 0 "idle") Window.initial c pf gp []
              "0s" "0" "0" "0 B" None None None in
  let a := _schedule_ticks a in
  let a := _schedule_fx a in
  let a := mk (state a) (window a) (canvas a) (particles a) (pulse a)
              (console a ++ banner) (card_uptime a) (card_runs a) (card_particles a)
              (card_bytes a) (credits a) (_tick_job a) (_fx_job a) in
  mret (log "Ready. Use 'Run Demo' or 'Run Credits'." a).

(** The delay with which the pending stats timer was registered. *)
Definition tick_delay (a : t) : option Z :=
  job ← _tick_job a;
  jm ← List.find (fun jm => jm.1 =? job) (Window.timers (window a));
  mret jm.2.1.

End with_generator.
Arguments t G : clear implicits.
End NeuraForgeApp.

(** ** Vocabulary of the further properties *)

Module Spec.

(** [x] is a 32-bit word: masking leaves it as it is. *)
Definition word (x : Z) : Prop := Z.land x 4294967295 = x.

(** A particle lies on a surface of [w] by [h] pixels. *)
Definition inside (w h : Z) (p : Particle.t) : Prop :=
  (0 <= Particle.x p /\ Particle.x p <= inject_Z w /\
   0 <= Particle.y p /\ Particle.y p <= inject_Z h)%Q.

(** A particle as [_spawn] makes it on a surface of [w] by [h] pixels with
    a palette of [n] colours. *)
Definition fresh (w h n : Z) (p : Particle.t) : Prop :=
  (0 <= Particle.x p /\ Particle.x p < inject_Z w /\
   0 <= Particle.y p /\ Particle.y p < inject_Z h /\
   0.25 <= Particle.alpha p /\ Particle.alpha p < 1 /\
   1.2 <= Particle.r p /\ Particle.r p < 3.8 /\
   -0.45 <= Particle.vx p /\ Particle.vx p < 0.45 /\
   -0.3 <= Particle.vy p /\ Particle.vy p < 0.3)%Q /\
  0 <= Particle.hue_idx p < n /\
  Particle.item p = -1.

(** The palette index of a particle names a colour of [n]. *)
Definition hue_valid (n : Z) (p : Particle.t) : Prop := 0 <= Particle.hue_idx p < n.

(** What a run asks for in boosts: the non-negative amounts, added up. *)
Fixpoint boosted (ops : list ParticleField.Op) : Z :=
  match ops with
  | [] => 0
  | ParticleField.Boost amt :: ops' => Z.max 0 amt + boosted ops'
  | _ :: ops' => boosted ops'
  end.

Section with_generator.
Context {G : Type} `{PyRandom G}.

(** What the steps of a run add to the particle list before they evict:
    for each step, [count] after it less the length before it. *)
Fixpoint drained (ops : list ParticleField.Op) (c : Canvas.t) (s : ParticleField.t G)
  : Res Z :=
  match ops with
  | [] => mret 0
  | ParticleField.Boost amt :: ops' => drained ops' c (ParticleField.boost amt s)
  | ParticleField.Step :: ops' =>
      '(c', s') ← ParticleField.step c s;
      d ← drained ops' c' s';
      mret (ParticleField.count s' - Z.of_nat (length (ParticleField.particles s)) + d)
  | ParticleField.Resize w h :: ops' => drained ops' (Canvas.resize w h c) s
  end.

End with_generator.

End Spec.

Module CanvasSpec.

(** Every item of the canvas has an id that the canvas has handed out. *)
Definition wf (c : Canvas.t) : Prop :=
  forall id it, Canvas.items c !! id = Some it -> id < Z.pos (Canvas.next_id c).

(** The items of a canvas that do not carry the tag [tag]. *)
Definition without_tag (tag : string) (c : Canvas.t) : gmap Z Canvas.Item :=
  filter (fun kv => tag ∉ Canvas.tags kv.2) (Canvas.items c).

(** A well-formed canvas of [n] items, [k] of them without the tag ["bg"]. *)
Definition census (c : Canvas.t) (n k : nat) : Prop :=
  wf c /\ size (Canvas.items c) = n /\ size (without_tag "bg" c) = k.

(** The items of the canvas are exactly those of the list [l], each
    listed once. *)
Definition exactly (c : Canvas.t) (l : list Z) : Prop :=
  wf c /\ NoDup l /\ dom (Canvas.items c) = list_to_set l.

(** The items with an id of [l] are in [c'] what they are in [c]. *)
Definition same_on (l : list Z) (c c' : Canvas.t) : Prop :=
  forall k, k ∈ l -> Canvas.items c' !! k = Canvas.items c !! k.

(** The visuals among the [item] fields of particles or rings: [-1] stands
    for none. *)
Definition visuals (l : list Z) : list Z := filter (fun i => i <> -1) l.

(** The rings that the ageing loop of [GlowPulse.step] drops. *)
Definition expired (ps : list Pulse.t) : list Pulse.t :=
  filter (fun p => Qltb 0 (Pulse.life p - 0.02) = false) ps.

End CanvasSpec.

Module AppSpec.
Section with_generator.
Context {G : Type} `{PyRandom G}.

(** What the event loop brings to the application: a timer that is due, a
    click on Run Demo. *)
Inductive Event : Type :=
| Fire (job : Z) (now : Q)
| RunDemo (now : Q).

Definition handle (ev : Event) (a : NeuraForgeApp.t G) : Res (NeuraForgeApp.t G) :=
  match ev with
  | Fire job now => NeuraForgeApp.fire job now a
  | RunDemo now => NeuraForgeApp._on_run_demo now a
  end.

Fixpoint events (evs : list Event) (a : NeuraForgeApp.t G) : Res (NeuraForgeApp.t G) :=
  match evs with
  | [] => mret a
  | ev :: evs' => a' ← handle ev a; events evs' a'
  end.

(** The number of clicks on Run Demo among the events. *)
Fixpoint clicks (evs : list Event) : Z :=
  match evs with
  | [] => 0
  | RunDemo _ :: evs' => 1 + clicks evs'
  | Fire _ _ :: evs' => clicks evs'
  end.

(** The stats timer and the effects timer are pending, each once, under
    the ids the application remembers, and no other timer is. *)
Definition two_timers (a : NeuraForgeApp.t G) : Prop :=
  exists tj fj : Z,
    NeuraForgeApp._tick_job a = Some tj /\
    NeuraForgeApp._fx_job a = Some fj /\
    tj <> fj /\
    tj < Z.pos (Window.next_job (NeuraForgeApp.window a)) /\
    fj < Z.pos (Window.next_job (NeuraForgeApp.window a)) /\
    (Window.timers (NeuraForgeApp.window a) = [(tj, (250, "tick")); (fj, (16, "frame"))] \/
     Window.timers (NeuraForgeApp.window a) = [(fj, (16, "frame")); (tj, (250, "tick"))]).

(** The pools of the application have colours and are within their caps. *)
Definition pools_ok (a : NeuraForgeApp.t G) : Prop :=
  ParticleField.palette (NeuraForgeApp.particles a) <> [] /\
  GlowPulse.palette (NeuraForgeApp.pulse a) <> [] /\
  (length (ParticleField.particles (NeuraForgeApp.particles a)) <= 160)%nat /\
  (length (GlowPulse.pulses (NeuraForgeApp.pulse a)) <= 8)%nat.

End with_generator.
End AppSpec.

(** ** Concrete inputs *)

Module Demo.

(** The effects canvas of the application, 600 by 190 pixels and empty. *)
Definition canvas : Canvas.t := Canvas.mk 600 190 1%positive ∅ [].

(** A particle field with the palette of the theme and no particle yet. *)
Definition field : ParticleField.t Z :=
  ParticleField.mk Colors.particle_palette (Random 1337) [] 0 0.

(** The glow pulse of the application. *)
Definition glow : GlowPulse.t Z := GlowPulse.__init__ Colors.pulse_palette.

(** The overlay that Run Credits makes. *)
Definition overlay : CreditsOverlay.t :=
  CreditsOverlay.__init__ 1120 680 NeuraForgeApp.APP_NAME NeuraForgeApp.AUTHOR_FIRST
    NeuraForgeApp.AUTHOR_LAST NeuraForgeApp.CREDITS_REVEAL_DELAY_MS.

(** The application as [__init__] leaves it, and one with no particle. *)
Definition app : Res (NeuraForgeApp.t Z) := NeuraForgeApp.__init__ 0 600 190 [].

Definition idle_app : NeuraForgeApp.t Z :=
  NeuraForgeApp.mk (AppState.mk 0 0 0 0 0 "idle") Window.initial canvas field glow []
    "0s" "0" "0" "0 B" None None None.

(** A callback that counts its calls. *)
Definition counting (n : nat) : Res unit * nat := (Ok tt, S n).

End Demo.

Module Shared.

(** The effects canvas with one item that belongs to neither effect. *)
Definition canvas : Canvas.t := (Canvas.create_text "NeuraForge" "#e8eefc" Demo.canvas).2.

(** The same canvas with an oval, item 2, for the ring of [fading]. *)
Definition ring_canvas : Canvas.t := (Canvas.create_oval "#7aa2ff" canvas).2.

(** A glow pulse at rest whose one ring, drawn as item 2, is about to expire. *)
Definition fading : GlowPulse.t Z :=
  GlowPulse.mk Colors.pulse_palette (Random 2024) [Pulse.mk 300 95 60 2.72 0.01 2] 0.

End Shared.

(** * Properties *)

(** ** Results, comparisons, look-ups *)

Lemma Qltb_true (a b : Q) : Qltb a b = true <-> (a < b)%Q.
Proof.
  unfold Qltb. rewrite negb_true_iff, <- not_true_iff_false, Qle_bool_iff.
  split; [apply Qnot_le_lt | apply Qlt_not_le].
Qed.

Lemma Qltb_false (a b : Q) : Qltb a b = false <-> (b <= a)%Q.
Proof.
  unfold Qltb. rewrite negb_false_iff. apply Qle_bool_iff.
Qed.

Lemma clamp_bounds (x lo hi : Q) :
  (lo <= hi)%Q -> (lo <= Utils.clamp x lo hi /\ Utils.clamp x lo hi <= hi)%Q.
Proof.
  intros Hle. unfold Utils.clamp.
  destruct (Qltb x lo) eqn:E1.
  - split; [apply Qle_refl | exact Hle].
  - destruct (Qltb hi x) eqn:E2.
    + split; [exact Hle | apply Qle_refl].
    + apply Qltb_false in E1, E2. split; assumption.
Qed.

Lemma py_getitem_lookup {A : Type} (l : list A) (i : Z) (a : A) :
  0 <= i -> l !! Z.to_nat i = Some a -> py_getitem l i = Ok a.
Proof.
  intros Hi Ha. unfold py_getitem.
  pose proof (lookup_lt_Some _ _ _ Ha) as Hlt.
  destruct (i <? 0) eqn:E; [lia |].
  destruct ((i <? 0) || (Z.of_nat (length l) <=? i)) eqn:E'; [lia |].
  by rewrite Ha.
Qed.

Lemma py_getitem_ok {A : Type} (l : list A) (i : Z) :
  0 <= i < Z.of_nat (length l) -> exists a, py_getitem l i = Ok a.
Proof.
  intros Hi. unfold py_getitem.
  destruct (i <? 0) eqn:E; [lia |].
  destruct ((i <? 0) || (Z.of_nat (length l) <=? i)) eqn:E'; [lia |].
  destruct (l !! Z.to_nat i) as [a |] eqn:El; [by exists a |].
  apply lookup_ge_None in El. lia.
Qed.

(** A colour is found at every index taken modulo the length of a palette
    that has a colour at all. *)
Lemma palette_colour (pal : list string) (i : Z) :
  pal <> [] ->
  py_mod i (Z.of_nat (length pal)) = Ok (i mod Z.of_nat (length pal)) /\
  exists col, py_getitem pal (i mod Z.of_nat (length pal)) = Ok col.
Proof.
  intros Hpal.
  assert (0 < Z.of_nat (length pal)) by (destruct pal; [done | simpl; lia]).
  split.
  - unfold py_mod. destruct (Z.of_nat (length pal) =? 0) eqn:E; [lia | done].
  - apply py_getitem_ok. by apply Z.mod_pos_bound.
Qed.

(** ** The canvas: deleted items stay deleted *)

Lemma canvas_delete_gone (id : Z) (c : Canvas.t) :
  Canvas.items (Canvas.delete id c) !! id = None.
Proof. simpl. apply lookup_delete_eq. Qed.

Lemma canvas_delete_keeps_gone (id k : Z) (c : Canvas.t) :
  Canvas.items c !! k = None -> Canvas.items (Canvas.delete id c) !! k = None.
Proof.
  intros Hk. simpl. destruct (decide (id = k)) as [-> | Hne].
  - apply lookup_delete_eq.
  - by rewrite lookup_delete_ne.
Qed.

(** ** The particle field *)

Section particle_field.
Context {G : Type} `{PyRandom G}.

Implicit Types (s : ParticleField.t G) (c : Canvas.t) (p : Particle.t).

Ltac draw :=
  repeat match goal with
         | |- context [random ?g] => destruct (random g) as [? ?]
         end.

Lemma spawn_one_ok (w h : Z) s :
  ParticleField.palette s <> [] ->
  exists p g, ParticleField.spawn_one w h s
              = Ok (ParticleField.set_particles (ParticleField.particles s ++ [p])
                      (ParticleField.set_rng g s)).
Proof.
  intros Hpal. unfold ParticleField.spawn_one. draw.
  unfold randrange.
  destruct (Z.of_nat (length (ParticleField.palette s)) - 0 <=? 0) eqn:E.
  { apply Z.leb_le in E. destruct (ParticleField.palette s); [done |].
    rewrite length_cons in E. lia. }
  destruct (randbelow _ _) as [k g']. simpl. eauto.
Qed.

Lemma spawn_loop_ok (w h : Z) (n : nat) s :
  ParticleField.palette s <> [] ->
  exists s', ParticleField.spawn_loop w h n s = Ok s' /\
    ParticleField.palette s' = ParticleField.palette s /\
    ParticleField._boost s' = ParticleField._boost s /\
    ParticleField.count s' = ParticleField.count s /\
    length (ParticleField.particles s') = (length (ParticleField.particles s) + n)%nat.
Proof.
  revert s. induction n as [| n IH]; intros s Hpal; simpl.
  - exists s. repeat split; lia.
  - destruct (spawn_one_ok w h s Hpal) as (p & g & ->). simpl.
    destruct (IH (ParticleField.set_particles (ParticleField.particles s ++ [p])
                    (ParticleField.set_rng g s)) Hpal)
      as (s' & -> & Hp & Hb & Hc & Hl).
    exists s'. repeat split; try done.
    rewrite Hl. simpl. rewrite length_app. simpl. lia.
Qed.

Lemma move_in_bounds (w h : Z) p (g : G) :
  ParticleField.in_bounds (ParticleField.move w h p g).1 /\
  Particle.item (ParticleField.move w h p g).1 = Particle.item p.
Proof.
  unfold ParticleField.move. draw.
  set (vx0 := Utils.clamp _ (-1.2) 1.2).
  set (vy0 := Utils.clamp _ (-0.9) 0.9).
  assert (-1.2 <= vx0 /\ vx0 <= 1.2)%Q as [? ?] by (apply clamp_bounds; lra).
  assert (-0.9 <= vy0 /\ vy0 <= 0.9)%Q as [? ?] by (apply clamp_bounds; lra).
  set (a0 := Utils.clamp _ 0.18 1.0).
  assert (0.18 <= a0 /\ a0 <= 1.0)%Q as [? ?] by (apply clamp_bounds; lra).
  destruct (Qltb _ 0 || Qltb (inject_Z w) _);
    destruct (Qltb _ 0 || Qltb (inject_Z h) _);
    unfold ParticleField.in_bounds; simpl; repeat split; try done; lra.
Qed.

Lemma move_all_spec (w h : Z) (ps : list Particle.t) (g : G) :
  length (ParticleField.move_all w h ps g).1 = length ps /\
  Forall ParticleField.in_bounds (ParticleField.move_all w h ps g).1.
Proof.
  revert g. induction ps as [| p ps IH]; intros g; simpl; [by split |].
  pose proof (move_in_bounds w h p g) as [Hb _].
  destruct (ParticleField.move w h p g) as [p' g1]. simpl in Hb.
  destruct (IH g1) as [Hl Hf].
  destruct (ParticleField.move_all w h ps g1) as [ps' g2]. simpl in *.
  split; [by rewrite Hl | by constructor].
Qed.

(** Rendering gives every particle a visual and leaves its motion alone. *)
Lemma render_one_ok (pal : list string) p c (g : G) :
  pal <> [] ->
  exists p' c' g', ParticleField.render_one pal p c g = Ok (p', c', g') /\
    Particle.item p' <> -1 /\
    (ParticleField.in_bounds p -> ParticleField.in_bounds p').
Proof.
  intros Hpal. unfold ParticleField.render_one.
  destruct (palette_colour pal (Particle.hue_idx p) Hpal) as [Hm [col Hc]].
  rewrite Hm. simpl. rewrite Hc. simpl.
  destruct (Particle.item p =? -1) eqn:E.
  - unfold Canvas.create_oval, Canvas.create. simpl.
    do 3 eexists. split; [reflexivity |]. split; [simpl; lia | done].
  - assert (Particle.item p <> -1) by lia.
    destruct (Qltb 0.9 (Particle.alpha p)).
    + destruct (random g) as [u g1].
      destruct (Qltb u 0.05).
      * destruct (palette_colour pal (Particle.hue_idx p + 1) Hpal) as [Hm' [col' Hc']].
        rewrite Hm'. simpl. rewrite Hc'. simpl. do 3 eexists. split; [reflexivity |]. split; done.
      * simpl. do 3 eexists. split; [reflexivity |]. split; done.
    + simpl. do 3 eexists. split; [reflexivity |]. split; done.
Qed.

Lemma render_all_ok (pal : list string) (ps : list Particle.t) c (g : G) :
  pal <> [] ->
  exists ps' c' g', ParticleField.render_all pal ps c g = Ok (ps', c', g') /\
    length ps' = length ps /\
    Forall (fun p => Particle.item p <> -1) ps' /\
    (Forall ParticleField.in_bounds ps -> Forall ParticleField.in_bounds ps').
Proof.
  intros Hpal. revert c g. induction ps as [| p ps IH]; intros c g; simpl.
  - exists [], c, g. repeat split; done.
  - destruct (render_one_ok pal p c g Hpal) as (p' & c1 & g1 & -> & Hi & Hb). simpl.
    destruct (IH c1 g1) as (ps' & c2 & g2 & -> & Hl & Hf & Hbs). simpl.
    exists (p' :: ps'), c2, g2. repeat split.
    + simpl. by rewrite Hl.
    + by constructor.
    + intros Hall. inversion Hall; subst. constructor; auto.
Qed.

Lemma drain_range s : 0 <= ParticleField.drain s <= 8.
Proof.
  unfold ParticleField.drain. destruct (0 <? ParticleField._boost s) eqn:E; lia.
Qed.

Lemma drain_le_boost s :
  0 <= ParticleField._boost s -> ParticleField.drain s <= ParticleField._boost s.
Proof.
  unfold ParticleField.drain. destruct (0 <? ParticleField._boost s) eqn:E; lia.
Qed.

(** Lines 57-84: what [step] has done when it comes to the cap. *)
Lemma advance_spec c s :
  ParticleField.palette s <> [] ->
  exists c1 s1, ParticleField.advance c s = Ok (c1, s1) /\
    ParticleField.palette s1 = ParticleField.palette s /\
    ParticleField._boost s1 = ParticleField._boost s - ParticleField.drain s /\
    length (ParticleField.particles s1)
      = (length (ParticleField.particles s) + Z.to_nat (ParticleField.drain s))%nat /\
    ParticleField.count s1 = Z.of_nat (length (ParticleField.particles s1)) /\
    Forall ParticleField.in_bounds (ParticleField.particles s1) /\
    Forall (fun p => Particle.item p <> -1) (ParticleField.particles s1).
Proof.
  intros Hpal. unfold ParticleField.advance, ParticleField.drain.
  set (w := Z.max 1 (Canvas.winfo_width c)).
  set (h := Z.max 1 (Canvas.winfo_height c)).
  assert (exists s0,
    (if 0 <? ParticleField._boost s
     then ParticleField._spawn c (Z.min 8 (ParticleField._boost s))
            (ParticleField.set_boost
               (ParticleField._boost s - Z.min 8 (ParticleField._boost s)) s)
     else mret s) = Ok s0 /\
    ParticleField.palette s0 = ParticleField.palette s /\
    ParticleField._boost s0
      = ParticleField._boost s
        - (if 0 <? ParticleField._boost s then Z.min 8 (ParticleField._boost s) else 0) /\
    length (ParticleField.particles s0)
      = (length (ParticleField.particles s)
         + Z.to_nat (if (0 <? ParticleField._boost s)%Z
                     then Z.min 8 (ParticleField._boost s) else 0%Z))%nat)
    as (s0 & -> & Hp0 & Hb0 & Hl0).
  { destruct (0 <? ParticleField._boost s) eqn:E.
    - unfold ParticleField._spawn.
      destruct (spawn_loop_ok (Z.max 1 (Canvas.winfo_width c))
                  (Z.max 1 (Canvas.winfo_height c))
                  (Z.to_nat (Z.min 8 (ParticleField._boost s)))
                  (ParticleField.set_boost
                     (ParticleField._boost s - Z.min 8 (ParticleField._boost s)) s) Hpal)
        as (s0 & -> & Hp & Hb & _ & Hl).
      exists s0. repeat split; done.
    - exists s. simpl. repeat split; [lia | lia]. }
  simpl.
  pose proof (move_all_spec w h (ParticleField.particles s0) (ParticleField._rng s0))
    as [Hlm Hbm].
  destruct (ParticleField.move_all w h (ParticleField.particles s0) (ParticleField._rng s0))
    as [ps g]. simpl in Hlm, Hbm.
  unfold ParticleField._render. simpl.
  destruct (render_all_ok (ParticleField.palette s0) ps c g) as
    (ps' & c1 & g1 & -> & Hlr & Hir & Hbr); [by rewrite Hp0 |].
  simpl. do 2 eexists. split; [reflexivity |]. simpl.
  repeat split; try done.
  - by rewrite Hlr, Hlm.
  - by apply Hbr.
Qed.

(** The eviction loop pops from the front and deletes what it pops. *)
Lemma evict_loop_spec (n : nat) c (ps : list Particle.t) :
  (n <= length ps)%nat ->
  exists c', ParticleField.evict_loop n c ps = Ok (c', drop n ps) /\
    (forall k, Canvas.items c !! k = None -> Canvas.items c' !! k = None) /\
    (forall old, old ∈ take n ps -> Particle.item old <> -1 ->
                 Canvas.items c' !! Particle.item old = None).
Proof.
  revert c ps. induction n as [| n IH]; intros c ps Hn; simpl.
  - exists c. rewrite drop_0, take_0. repeat split; [done |].
    intros old Hin. by apply elem_of_nil in Hin.
  - destruct ps as [| old ps]; [simpl in Hn; lia |]. simpl.
    set (c1 := if Particle.item old =? -1 then c
               else Canvas.delete (Particle.item old) c).
    destruct (IH c1 ps) as (c' & -> & Hkeep & Hgone); [simpl in Hn; lia |].
    exists c'. repeat split.
    + intros k Hk. apply Hkeep. subst c1.
      destruct (Particle.item old =? -1); [done | by apply canvas_delete_keeps_gone].
    + intros p Hin Hp. apply elem_of_cons in Hin as [-> | Hin]; [| by apply Hgone].
      apply Hkeep. subst c1.
      destruct (Particle.item old =? -1) eqn:E; [lia | apply canvas_delete_gone].
Qed.

(** Lines 86-93. *)
Lemma evict_spec c s :
  exists c2 s2, ParticleField.evict c s = Ok (c2, s2) /\
    ParticleField.particles s2
      = drop (length (ParticleField.particles s) - 160) (ParticleField.particles s) /\
    ParticleField.palette s2 = ParticleField.palette s /\
    ParticleField._boost s2 = ParticleField._boost s /\
    ParticleField.count s2 = ParticleField.count s /\
    (forall old, old ∈ take (length (ParticleField.particles s) - 160)
                            (ParticleField.particles s) ->
                 Particle.item old <> -1 ->
                 Canvas.items c2 !! Particle.item old = None).
Proof.
  unfold ParticleField.evict.
  destruct (160 <? Z.of_nat (length (ParticleField.particles s))) eqn:E.
  - replace (Z.to_nat (Z.of_nat (length (ParticleField.particles s)) - 160))
      with (length (ParticleField.particles s) - 160)%nat by lia.
    destruct (evict_loop_spec (length (ParticleField.particles s) - 160) c
                (ParticleField.particles s)) as (c' & -> & _ & Hgone); [lia |].
    simpl. do 2 eexists. split; [reflexivity |]. simpl. repeat split; done.
  - simpl. exists c, s. split; [done |].
    replace (length (ParticleField.particles s) - 160)%nat with 0%nat by lia.
    rewrite drop_0, take_0. repeat split; try done.
    intros old Hin. by apply elem_of_nil in Hin.
Qed.

Lemma step_spec c s :
  ParticleField.palette s <> [] ->
  exists c' s', ParticleField.step c s = Ok (c', s') /\
    ParticleField.palette s' = ParticleField.palette s /\
    ParticleField._boost s' = ParticleField._boost s - ParticleField.drain s /\
    ParticleField.count s'
      = Z.of_nat (length (ParticleField.particles s)) + ParticleField.drain s /\
    length (ParticleField.particles s')
      = Nat.min (length (ParticleField.particles s) + Z.to_nat (ParticleField.drain s)) 160 /\
    Forall ParticleField.in_bounds (ParticleField.particles s').
Proof.
  intros Hpal. unfold ParticleField.step.
  destruct (advance_spec c s Hpal) as (c1 & s1 & -> & Hp & Hb & Hl & Hc & Hin & _).
  simpl.
  destruct (evict_spec c1 s1) as (c2 & s2 & -> & Hps & Hp2 & Hb2 & Hc2 & _).
  pose proof (drain_range s).
  exists c2, s2. split; [done |]. repeat split.
  - by rewrite Hp2.
  - by rewrite Hb2.
  - rewrite Hc2, Hc, Hl. lia.
  - rewrite Hps, length_drop, Hl. lia.
  - rewrite Hps. by apply Forall_drop.
Qed.

Lemma init_spec (c0 : Canvas.t) (pal : list string) :
  pal <> [] ->
  exists s0, ParticleField.__init__ c0 pal = Ok s0 /\
    ParticleField.palette s0 = pal /\
    ParticleField._boost s0 = 0 /\
    length (ParticleField.particles s0) = 42%nat.
Proof.
  intros Hpal. unfold ParticleField.__init__, ParticleField._spawn.
  destruct (spawn_loop_ok (Z.max 1 (Canvas.winfo_width c0))
              (Z.max 1 (Canvas.winfo_height c0)) (Z.to_nat 42)
              (ParticleField.mk pal (Random 1337) [] 0 0) Hpal)
    as (s0 & -> & Hp & Hb & _ & Hl).
  exists s0. repeat split; done.
Qed.

(** What every run keeps: the palette, the cap, the clamps. *)
Lemma run_invariant (ops : list ParticleField.Op) c s :
  ParticleField.palette s <> [] ->
  exists c' s', ParticleField.run ops c s = Ok (c', s') /\
    ParticleField.palette s' = ParticleField.palette s /\
    ((length (ParticleField.particles s) <= 160)%nat ->
     (length (ParticleField.particles s') <= 160)%nat) /\
    (Forall ParticleField.in_bounds (ParticleField.particles s) ->
     Forall ParticleField.in_bounds (ParticleField.particles s')).
Proof.
  revert c s. induction ops as [| op ops IH]; intros c s Hpal.
  - exists c, s. repeat split; done.
  - destruct op as [amt | | w h]; simpl.
    + destruct (IH c (ParticleField.boost amt s) Hpal) as (c' & s' & -> & Hp & Hl & Hb).
      exists c', s'. repeat split; done.
    + destruct (step_spec c s Hpal) as (c1 & s1 & -> & Hp1 & _ & _ & Hl1 & Hb1). simpl.
      destruct (IH c1 s1) as (c' & s' & -> & Hp & Hl & Hb); [by rewrite Hp1 |].
      exists c', s'. repeat split.
      * by rewrite Hp, Hp1.
      * intros _. apply Hl. rewrite Hl1. lia.
      * intros _. by apply Hb.
    + destruct (IH (Canvas.resize w h c) s Hpal) as (c' & s' & -> & Hp & Hl & Hb).
      exists c', s'. repeat split; done.
Qed.

(** C3. After any number of [step] calls, with [boost] calls (and changes
    of the canvas size) interleaved in any way, the particle list of a
    field holds at most 160 particles.  When a [step] evicts, what remains
    is the list as it stood before the cap less its first entries (the
    oldest), and the canvas no longer has the visual of any entry removed. *)
Theorem particle_pool_capped (pal : list string) :
  pal <> [] ->
  (forall (c0 c : Canvas.t) (ops : list ParticleField.Op),
     exists s0 c' s',
       ParticleField.__init__ (G := G) c0 pal = Ok s0 /\
       ParticleField.run ops c s0 = Ok (c', s') /\
       (length (ParticleField.particles s') <= 160)%nat) /\
  (forall c s, ParticleField.palette s = pal ->
     exists c1 s1 c2 s2,
       ParticleField.advance c s = Ok (c1, s1) /\
       ParticleField.evict c1 s1 = Ok (c2, s2) /\
       ParticleField.step c s = Ok (c2, s2) /\
       let k := (length (ParticleField.particles s1) - 160)%nat in
       ParticleField.particles s2 = drop k (ParticleField.particles s1) /\
       (length (ParticleField.particles s2) <= 160)%nat /\
       Forall (fun old => Particle.item old <> -1 /\
                          Canvas.items c2 !! Particle.item old = None)
              (take k (ParticleField.particles s1))).
Proof.
  intros Hpal. split.
  - intros c0 c ops.
    destruct (init_spec c0 pal Hpal) as (s0 & Hinit & Hp0 & _ & Hl0).
    destruct (run_invariant ops c s0) as (c' & s' & Hrun & _ & Hl & _);
      [by rewrite Hp0 |].
    exists s0, c', s'. repeat split; try done. apply Hl. lia.
  - intros c s Hp.
    destruct (advance_spec c s) as (c1 & s1 & Hadv & _ & _ & _ & _ & _ & Hitems);
      [by rewrite Hp |].
    destruct (evict_spec c1 s1) as (c2 & s2 & Hev & Hps & _ & _ & _ & Hgone).
    exists c1, s1, c2, s2. repeat split; try done.
    + unfold ParticleField.step. rewrite Hadv. simpl. exact Hev.
    + rewrite Hps, length_drop. lia.
    + apply Forall_forall. intros old Hin.
      assert (Particle.item old <> -1) as Hitem.
      { eapply (proj1 (Forall_forall _ _) Hitems).
        eapply subseteq_take. exact Hin. }
      split; [done | by apply Hgone].
Qed.

(** C6. At the end of every [step], from whatever state it starts and
    whatever follows it in a run, every particle of the list has its alpha
    in [[0.18, 1.0]], its [vx] in [[-1.2, 1.2]] and its [vy] in
    [[-0.9, 0.9]]. *)
Theorem particle_motion_clamped c s (ops : list ParticleField.Op) :
  ParticleField.palette s <> [] ->
  exists c' s',
    ParticleField.run (ParticleField.Step :: ops) c s = Ok (c', s') /\
    Forall ParticleField.in_bounds (ParticleField.particles s').
Proof.
  intros Hpal. simpl.
  destruct (step_spec c s Hpal) as (c1 & s1 & -> & Hp1 & _ & _ & _ & Hb1). simpl.
  destruct (run_invariant ops c1 s1) as (c' & s' & -> & _ & _ & Hb); [by rewrite Hp1 |].
  exists c', s'. split; [done | by apply Hb].
Qed.

(** The drain of a pending boost [b], step after step. *)
Lemma spawned_per_step_spec (n : nat) c s :
  ParticleField.palette s <> [] ->
  0 <= ParticleField._boost s ->
  exists l, ParticleField.spawned_per_step n c s = Ok l /\
    length l = n /\
    (forall j : nat, (j < n)%nat ->
       l !! j = Some (Z.min 8 (Z.max 0 (ParticleField._boost s - 8 * Z.of_nat j)))) /\
    Forall (fun d => 0 <= d <= 8) l /\
    foldr Z.add 0 l = Z.min (ParticleField._boost s) (8 * Z.of_nat n).
Proof.
  revert c s. induction n as [| n IH]; intros c s Hpal Hb.
  - exists []. simpl. repeat split; [intros j Hj; lia | constructor | lia].
  - simpl.
    destruct (step_spec c s Hpal) as (c1 & s1 & -> & Hp1 & Hb1 & Hc1 & _ & _). simpl.
    pose proof (drain_range s) as Hd. pose proof (drain_le_boost s Hb) as Hd'.
    destruct (IH c1 s1) as (l & -> & Hlen & Hnth & Hall & Hsum);
      [by rewrite Hp1 | lia |].
    simpl. eexists. split; [reflexivity |].
    assert (ParticleField.count s1 - Z.of_nat (length (ParticleField.particles s))
            = ParticleField.drain s) as -> by lia.
    assert (ParticleField.drain s = Z.min 8 (Z.max 0 (ParticleField._boost s))) as Hdrain.
    { unfold ParticleField.drain.
      destruct (0 <? ParticleField._boost s) eqn:E; lia. }
    repeat split.
    + simpl. by rewrite Hlen.
    + intros [| j] Hj; simpl.
      * f_equal. rewrite Hdrain. f_equal. f_equal. lia.
      * rewrite Hnth by lia. f_equal. rewrite Hb1, Hdrain. lia.
    + constructor; [lia | done].
    + simpl. rewrite Hsum, Hb1, Hdrain. lia.
Qed.

(** C5. After [boost(a)] with [a >= 0] on a field with nothing pending,
    the [j]-th of the following steps adds [min(8, remaining)] particles,
    where [remaining] is [a] less the 8 of each earlier step; no step adds
    more than 8, and the steps add [min(a, 8 n)] in all, hence [a] once
    [8 n >= a]. *)
Theorem boost_drains_in_eights (a : Z) (n : nat) c s :
  ParticleField.palette s <> [] ->
  ParticleField._boost s = 0 ->
  0 <= a ->
  exists l,
    ParticleField.spawned_per_step n c (ParticleField.boost a s) = Ok l /\
    length l = n /\
    (forall j : nat, (j < n)%nat ->
       l !! j = Some (Z.min 8 (Z.max 0 (a - 8 * Z.of_nat j)))) /\
    Forall (fun d => 0 <= d <= 8) l /\
    foldr Z.add 0 l = Z.min a (8 * Z.of_nat n) /\
    (a <= 8 * Z.of_nat n -> foldr Z.add 0 l = a).
Proof.
  intros Hpal Hb Ha.
  destruct (spawned_per_step_spec n c (ParticleField.boost a s))
    as (l & Hrun & Hlen & Hnth & Hall & Hsum).
  { done. }
  { simpl. lia. }
  assert (ParticleField._boost (ParticleField.boost a s) = a) as Hboost
    by (simpl; lia).
  rewrite Hboost in Hnth, Hsum.
  exists l. repeat split; try done. intros Hn. rewrite Hsum. lia.
Qed.

(** Steps in a row while the pending boost lasts: the list grows by 8 up to
    the cap, [count] reads 8 more than the list held. *)
Lemma full_steps_spec (k : nat) c s :
  ParticleField.palette s <> [] ->
  8 * Z.of_nat k <= ParticleField._boost s ->
  (length (ParticleField.particles s) <= 160)%nat ->
  exists c' s', ParticleField.run (repeat ParticleField.Step k) c s = Ok (c', s') /\
    ParticleField.palette s' = ParticleField.palette s /\
    ParticleField._boost s' = ParticleField._boost s - 8 * Z.of_nat k /\
    length (ParticleField.particles s')
      = Nat.min (length (ParticleField.particles s) + 8 * k) 160 /\
    ((0 < k)%nat ->
     ParticleField.count s'
       = Z.of_nat (Nat.min (length (ParticleField.particles s) + 8 * (k - 1)) 160) + 8).
Proof.
  revert c s. induction k as [| k IH]; intros c s Hpal Hb Hl.
  - exists c, s. simpl. repeat split; lia.
  - simpl.
    destruct (step_spec c s Hpal) as (c1 & s1 & -> & Hp1 & Hb1 & Hc1 & Hl1 & _). simpl.
    assert (ParticleField.drain s = 8) as Hd.
    { unfold ParticleField.drain.
      destruct (0 <? ParticleField._boost s) eqn:E; lia. }
    rewrite Hd in Hb1, Hc1, Hl1.
    destruct (IH c1 s1) as (c' & s' & Hrun & Hp & Hb' & Hl' & Hc');
      [by rewrite Hp1 | lia | lia |].
    rewrite Hrun. exists c', s'. repeat split.
    + by rewrite Hp, Hp1.
    + lia.
    + lia.
    + intros _. destruct k as [| k].
      * simpl in Hrun. injection Hrun as <- <-. lia.
      * rewrite Hc' by lia. lia.
Qed.

(** C10. After every [step], [count] is the length the particle list had
    before the cap was applied: the length before the step plus what the
    step drained from the boost.  The list itself ends the step with at
    most 160 particles, while [count] can exceed 160: it is at most 168 from
    states within the cap, and 168 is reached from a new field by
    [boost(200)] and 16 steps.  [_sync_stats] displays this [count]. *)
Theorem count_read_before_eviction (pal : list string) :
  pal <> [] ->
  (forall c s, ParticleField.palette s = pal ->
     exists c1 s1 c' s',
       ParticleField.advance c s = Ok (c1, s1) /\
       ParticleField.step c s = Ok (c', s') /\
       ParticleField.count s' = Z.of_nat (length (ParticleField.particles s1)) /\
       ParticleField.count s'
         = Z.of_nat (length (ParticleField.particles s)) + ParticleField.drain s /\
       (length (ParticleField.particles s') <= 160)%nat /\
       ((length (ParticleField.particles s) <= 160)%nat ->
        ParticleField.count s' <= 168)) /\
  (forall c0 : Canvas.t,
     exists s0 c' s',
       ParticleField.__init__ (G := G) c0 pal = Ok s0 /\
       ParticleField.run (ParticleField.Boost 200 :: repeat ParticleField.Step 16) c0 s0
         = Ok (c', s') /\
       ParticleField.count s' = 168 /\
       length (ParticleField.particles s') = 160%nat) /\
  (forall (now : Q) (a : NeuraForgeApp.t G),
     NeuraForgeApp.card_particles (NeuraForgeApp._sync_stats now a)
     = py_str (ParticleField.count (NeuraForgeApp.particles a))).
Proof.
  intros Hpal. repeat split.
  - intros c s Hp.
    destruct (advance_spec c s) as (c1 & s1 & Hadv & _ & _ & Hl1 & Hc1 & _ & _);
      [by rewrite Hp |].
    destruct (evict_spec c1 s1) as (c2 & s2 & Hev & Hps & _ & _ & Hc2 & _).
    pose proof (drain_range s).
    exists c1, s1, c2, s2. repeat split; try done.
    + unfold ParticleField.step. rewrite Hadv. simpl. exact Hev.
    + by rewrite Hc2.
    + rewrite Hc2, Hc1, Hl1. lia.
    + rewrite Hps, length_drop. lia.
    + intros Hl. rewrite Hc2, Hc1, Hl1. lia.
  - intros c0.
    destruct (init_spec c0 pal Hpal) as (s0 & Hinit & Hp0 & Hb0 & Hl0).
    destruct (full_steps_spec 16 c0 (ParticleField.boost 200 s0))
      as (c' & s' & Hrun & _ & _ & Hl & Hc).
    { simpl. by rewrite Hp0. }
    { simpl. lia. }
    { simpl. lia. }
    exists s0, c', s'. repeat split; try done.
    + rewrite Hc by lia. simpl. rewrite Hl0. reflexivity.
    + rewrite Hl. simpl. rewrite Hl0. reflexivity.
Qed.

End particle_field.

(** ** The glow pulse *)

Section glow_pulse.
Context {G : Type} `{PyRandom G}.

Implicit Types (s : GlowPulse.t G) (c : Canvas.t) (p : Pulse.t).

Lemma spawn_appends (w h : Z) (strength : Q) s :
  exists p, GlowPulse.pulses (GlowPulse._spawn w h strength s) = GlowPulse.pulses s ++ [p] /\
    GlowPulse.palette (GlowPulse._spawn w h strength s) = GlowPulse.palette s.
Proof.
  unfold GlowPulse._spawn.
  destruct (random (GlowPulse._rng s)) as [u1 g1].
  destruct (random g1) as [u2 g2].
  destruct (random g2) as [u3 g3].
  simpl. eauto.
Qed.

Lemma maybe_spawn_spec (w h : Z) s :
  GlowPulse.palette (GlowPulse.maybe_spawn w h s) = GlowPulse.palette s /\
  (length (GlowPulse.pulses (GlowPulse.maybe_spawn w h s))
   <= length (GlowPulse.pulses s) + 1)%nat.
Proof.
  assert (forall strength s0,
    GlowPulse.palette (GlowPulse._spawn w h strength s0) = GlowPulse.palette s0 /\
    (length (GlowPulse.pulses (GlowPulse._spawn w h strength s0))
     <= length (GlowPulse.pulses s0) + 1)%nat) as Hspawn.
  { intros strength s0. destruct (spawn_appends w h strength s0) as (p & -> & ->).
    rewrite length_app. simpl. split; [done | lia]. }
  unfold GlowPulse.maybe_spawn.
  destruct (Qltb 0 (GlowPulse._kick s)).
  - destruct (random (GlowPulse._rng s)) as [u g]. destruct (Qltb u 0.20).
    + destruct (Hspawn (GlowPulse._kick (GlowPulse.set_rng g s)) (GlowPulse.set_rng g s)).
      split; done.
    + simpl. destruct (random g) as [u' g']. destruct (Qltb u' 0.01).
      * destruct (Hspawn 0.22%Q (GlowPulse.set_rng g' (GlowPulse.set_rng g s))).
        split; done.
      * simpl. split; [done | lia].
  - destruct (random (GlowPulse._rng s)) as [u g]. destruct (Qltb u 0.01).
    + destruct (Hspawn 0.22%Q (GlowPulse.set_rng g s)). split; done.
    + simpl. split; [done | lia].
Qed.

Lemma age_length (ps : list Pulse.t) : (length (GlowPulse.age ps) <= length ps)%nat.
Proof.
  induction ps as [| p ps IH]; simpl; [lia |].
  destruct (Qltb 0 (Pulse.life p - 0.02)); simpl; lia.
Qed.

Lemma glow_render_ok (pal : list string) (i : Z) (ps : list Pulse.t) c :
  pal <> [] ->
  exists ps' c', GlowPulse.render_from pal i ps c = Ok (ps', c') /\
    length ps' = length ps /\
    Forall (fun p => Pulse.item p <> -1) ps'.
Proof.
  intros Hpal. revert i c. induction ps as [| p ps IH]; intros i c; simpl.
  - exists [], c. repeat split; done.
  - unfold GlowPulse.render_one.
    destruct (palette_colour pal i Hpal) as [Hm [col Hc]].
    rewrite Hm. simpl. rewrite Hc. simpl.
    destruct (Pulse.item p =? -1) eqn:E.
    + unfold Canvas.create_oval, Canvas.create. simpl.
      destruct (IH (i + 1) (Canvas.mk (Canvas.width c) (Canvas.height c)
                              (Pos.succ (Canvas.next_id c))
                              (<[Z.pos (Canvas.next_id c) := Canvas.mkItem Canvas.KOval EmptyString []]>
                                 (Canvas.items c))
                              (Canvas.calls c
                               ++ [Canvas.Create (Z.pos (Canvas.next_id c)) Canvas.KOval])))
        as (ps' & c' & -> & Hl & Hf).
      simpl. do 2 eexists. split; [reflexivity |]. split; [simpl; by rewrite Hl |].
      constructor; [simpl; lia | done].
    + simpl.
      destruct (IH (i + 1) (Canvas.itemconfigure_outline (Pulse.item p) col
                              (Canvas.coords (Pulse.item p) c)))
        as (ps' & c' & -> & Hl & Hf).
      simpl. do 2 eexists. split; [reflexivity |]. split; [simpl; by rewrite Hl |].
      constructor; [lia | done].
Qed.

Lemma glow_advance_spec c s :
  GlowPulse.palette s <> [] ->
  exists c1 s1, GlowPulse.advance c s = Ok (c1, s1) /\
    GlowPulse.palette s1 = GlowPulse.palette s /\
    (length (GlowPulse.pulses s1) <= length (GlowPulse.pulses s) + 1)%nat /\
    Forall (fun p => Pulse.item p <> -1) (GlowPulse.pulses s1).
Proof.
  intros Hpal. unfold GlowPulse.advance, GlowPulse._render.
  set (w := Z.max 1 (Canvas.winfo_width c)).
  set (h := Z.max 1 (Canvas.winfo_height c)).
  destruct (maybe_spawn_spec w h s) as [Hp Hl].
  simpl.
  destruct (glow_render_ok (GlowPulse.palette (GlowPulse.maybe_spawn w h s)) 0
              (GlowPulse.age (GlowPulse.pulses (GlowPulse.maybe_spawn w h s))) c)
    as (ps' & c' & -> & Hl' & Hf); [by rewrite Hp |].
  simpl. do 2 eexists. split; [reflexivity |]. simpl. repeat split; try done.
  rewrite Hl'.
  pose proof (age_length (GlowPulse.pulses (GlowPulse.maybe_spawn w h s))). lia.
Qed.

(** The loop over [self.pulses[:-8]] deletes the visual of every extra. *)
Lemma release_spec (extras : list Pulse.t) c :
  (forall k, Canvas.items c !! k = None ->
             Canvas.items (GlowPulse.release extras c) !! k = None) /\
  (forall extra, extra ∈ extras -> Pulse.item extra <> -1 ->
                 Canvas.items (GlowPulse.release extras c) !! Pulse.item extra = None).
Proof.
  revert c. induction extras as [| e extras IH]; intros c; simpl.
  - split; [done |]. intros extra Hin. by apply elem_of_nil in Hin.
  - set (c1 := if Pulse.item e =? -1 then c else Canvas.delete (Pulse.item e) c).
    destruct (IH c1) as [Hkeep Hgone]. split.
    + intros k Hk. apply Hkeep. subst c1.
      destruct (Pulse.item e =? -1); [done | by apply canvas_delete_keeps_gone].
    + intros extra Hin Hitem. apply elem_of_cons in Hin as [-> | Hin]; [| by apply Hgone].
      apply Hkeep. subst c1.
      destruct (Pulse.item e =? -1) eqn:E; [lia | apply canvas_delete_gone].
Qed.

Lemma cap_spec c s :
  let k := (length (GlowPulse.pulses s) - 8)%nat in
  GlowPulse.pulses (GlowPulse.cap c s).2 = drop k (GlowPulse.pulses s) /\
  GlowPulse.palette (GlowPulse.cap c s).2 = GlowPulse.palette s /\
  (length (GlowPulse.pulses (GlowPulse.cap c s).2) <= 8)%nat /\
  (forall extra, extra ∈ take k (GlowPulse.pulses s) -> Pulse.item extra <> -1 ->
                 Canvas.items (GlowPulse.cap c s).1 !! Pulse.item extra = None).
Proof.
  intros k. unfold GlowPulse.cap.
  destruct (8 <? length (GlowPulse.pulses s))%nat eqn:E; simpl.
  - apply Nat.ltb_lt in E. unfold GlowPulse.slice_last, GlowPulse.slice_but_last.
    fold k. repeat split; try done.
    + rewrite length_drop. lia.
    + apply release_spec.
  - apply Nat.ltb_ge in E. replace k with 0%nat by lia.
    rewrite drop_0, take_0. repeat split; try done.
    intros extra Hin. by apply elem_of_nil in Hin.
Qed.

Lemma glow_step_spec c s :
  GlowPulse.palette s <> [] ->
  exists c' s', GlowPulse.step c s = Ok (c', s') /\
    GlowPulse.palette s' = GlowPulse.palette s /\
    (length (GlowPulse.pulses s') <= 8)%nat.
Proof.
  intros Hpal. unfold GlowPulse.step.
  destruct (glow_advance_spec c s Hpal) as (c1 & s1 & -> & Hp & _ & _). simpl.
  destruct (cap_spec c1 s1) as (_ & Hp' & Hl & _).
  destruct (GlowPulse.cap c1 s1) as [c' s']. simpl in *.
  exists c', s'. repeat split; [by rewrite Hp' | done].
Qed.

Lemma glow_run_invariant (ops : list GlowPulse.Op) c s :
  GlowPulse.palette s <> [] ->
  (length (GlowPulse.pulses s) <= 8)%nat ->
  exists c' s', GlowPulse.run ops c s = Ok (c', s') /\
    (length (GlowPulse.pulses s') <= 8)%nat.
Proof.
  revert c s. induction ops as [| op ops IH]; intros c s Hpal Hl.
  - exists c, s. split; done.
  - destruct op as [strength | | w h]; simpl.
    + by apply IH.
    + destruct (glow_step_spec c s Hpal) as (c1 & s1 & -> & Hp1 & Hl1). simpl.
      apply IH; [by rewrite Hp1 | done].
    + by apply IH.
Qed.

(** C4. After any number of [step] calls, with [kick] calls (and changes of
    the canvas size) interleaved in any way, the list of a glow pulse holds
    at most 8 rings.  When a [step] caps, what remains is the last 8 rings
    of the list as it stood, and the canvas no longer has the visual of any
    ring before them. *)
Theorem pulse_pool_capped (pal : list string) :
  pal <> [] ->
  (forall (c : Canvas.t) (ops : list GlowPulse.Op),
     exists c' s',
       GlowPulse.run ops c (GlowPulse.__init__ (G := G) pal) = Ok (c', s') /\
       (length (GlowPulse.pulses s') <= 8)%nat) /\
  (forall c s, GlowPulse.palette s = pal ->
     exists c1 s1 c2 s2,
       GlowPulse.advance c s = Ok (c1, s1) /\
       GlowPulse.cap c1 s1 = (c2, s2) /\
       GlowPulse.step c s = Ok (c2, s2) /\
       let k := (length (GlowPulse.pulses s1) - 8)%nat in
       GlowPulse.pulses s2 = drop k (GlowPulse.pulses s1) /\
       (length (GlowPulse.pulses s2) <= 8)%nat /\
       Forall (fun extra => Pulse.item extra <> -1 /\
                            Canvas.items c2 !! Pulse.item extra = None)
              (take k (GlowPulse.pulses s1))).
Proof.
  intros Hpal. split.
  - intros c ops. apply glow_run_invariant; [done | simpl; lia].
  - intros c s Hp.
    destruct (glow_advance_spec c s) as (c1 & s1 & Hadv & _ & _ & Hitems);
      [by rewrite Hp |].
    destruct (cap_spec c1 s1) as (Hps & _ & Hl & Hgone).
    destruct (GlowPulse.cap c1 s1) as [c2 s2] eqn:Hcap. simpl in *.
    exists c1, s1, c2, s2. repeat split; try done.
    + unfold GlowPulse.step. rewrite Hadv. simpl. by rewrite Hcap.
    + apply Forall_forall. intros extra Hin.
      assert (Pulse.item extra <> -1) as Hitem.
      { eapply (proj1 (Forall_forall _ _) Hitems).
        eapply subseteq_take. exact Hin. }
      split; [done | by apply Hgone].
Qed.

(** C7, as the code has it.  A ring spawned on a surface of [w] by [h]
    pixels starts in the central region [[0.22 w, 0.78 w)] by
    [[0.28 h, 0.72 h)], at a position and with a radius of [[6, 28)] that
    are drawn from the generator and do not depend on [strength]; its
    growth rate is [1.6 + 3.2 strength] and its life [0.65 + 0.8 strength]:
    both grow with [strength], by a fixed amount per unit, from a base
    that is not zero. *)
Theorem glow_spawn_shape `{!PyRandomSpec G} (w h : Z) (strength : Q) s :
  0 < w ->
  0 < h ->
  exists p,
    GlowPulse.pulses (GlowPulse._spawn w h strength s) = GlowPulse.pulses s ++ [p] /\
    GlowPulse.newest (GlowPulse._spawn w h strength s) = Some p /\
    (0.22 * inject_Z w <= Pulse.cx p /\ Pulse.cx p < 0.78 * inject_Z w)%Q /\
    (0.28 * inject_Z h <= Pulse.cy p /\ Pulse.cy p < 0.72 * inject_Z h)%Q /\
    (6 <= Pulse.r p /\ Pulse.r p < 28)%Q /\
    Pulse.vr p = (1.6 + strength * 3.2)%Q /\
    Pulse.life p = (0.65 + strength * 0.8)%Q /\
    Pulse.item p = -1 /\
    (forall strength' : Q,
       exists p',
         GlowPulse.newest (GlowPulse._spawn w h strength' s) = Some p' /\
         Pulse.cx p' = Pulse.cx p /\ Pulse.cy p' = Pulse.cy p /\
         Pulse.r p' = Pulse.r p).
Proof.
  intros Hw Hh. unfold GlowPulse._spawn, GlowPulse.newest.
  pose proof (random_range (GlowPulse._rng s)) as [Hu1 Hu1'].
  destruct (random (GlowPulse._rng s)) as [u1 g1]. simpl in Hu1, Hu1'.
  pose proof (random_range g1) as [Hu2 Hu2'].
  destruct (random g1) as [u2 g2]. simpl in Hu2, Hu2'.
  pose proof (random_range g2) as [Hu3 Hu3'].
  destruct (random g2) as [u3 g3]. simpl in Hu3, Hu3'.
  assert (0 < inject_Z w)%Q as HW by (unfold Qlt; simpl; lia).
  assert (0 < inject_Z h)%Q as HH by (unfold Qlt; simpl; lia).
  eexists. split; [reflexivity |]. simpl. rewrite last_snoc.
  repeat split; try reflexivity; try nra.
  intros strength'. eexists. split; [apply last_snoc |]. repeat split.
Qed.

End glow_pulse.

(** ** The credits overlay: what a frame leaves of the credit lines *)

Section credits.

Implicit Types (s : CreditsOverlay.t) (c : Canvas.t).

Lemma keeps_refl c : Canvas.keeps c c.
Proof. repeat split; [done | lia]. Qed.

Lemma keeps_trans c1 c2 c3 :
  Canvas.keeps c1 c2 -> Canvas.keeps c2 c3 -> Canvas.keeps c1 c3.
Proof.
  intros (Hi1 & Hn1 & Hu1) (Hi2 & Hn2 & Hu2). repeat split.
  - intros id it Hid Hit Htags. apply Hi2; [lia | by apply Hi1 | done].
  - lia.
  - by rewrite Hu2.
Qed.

Lemma text_updates_update (call : Canvas.Call) f c :
  Canvas.text_updates (Canvas.update call f c)
  = (Canvas.text_updates c + (if Canvas.is_text_update call then 1 else 0))%nat.
Proof.
  unfold Canvas.text_updates, Canvas.update. simpl.
  rewrite List.filter_app, length_app. simpl.
  destruct (Canvas.is_text_update call); simpl; lia.
Qed.

Lemma keeps_create (it : Canvas.Item) c : Canvas.keeps c (Canvas.create it c).2.
Proof.
  unfold Canvas.create. simpl. repeat split; simpl.
  - intros id it' Hid Hit _. rewrite lookup_insert_ne; [done | lia].
  - lia.
  - unfold Canvas.text_updates. simpl.
    rewrite List.filter_app, length_app. simpl. lia.
Qed.

Lemma keeps_update (call : Canvas.Call) c :
  Canvas.is_text_update call = false -> Canvas.keeps c (Canvas.update call (fun m => m) c).
Proof.
  intros Hcall. repeat split; simpl; [done | lia |].
  rewrite text_updates_update, Hcall. lia.
Qed.

Lemma keeps_delete_tag (tag : string) c : Canvas.keeps c (Canvas.delete_tag tag c).
Proof.
  repeat split; simpl.
  - intros id it _ Hit Htags. apply map_lookup_filter_Some. split; [done |].
    simpl. rewrite Htags. apply not_elem_of_nil.
  - lia.
  - unfold Canvas.delete_tag. rewrite text_updates_update. simpl. lia.
Qed.

Lemma keeps_create_bands (n : nat) c : Canvas.keeps c (CreditsOverlay.create_bands n c).
Proof.
  revert c. induction n as [| n IH]; intros c; simpl; [apply keeps_refl |].
  eapply keeps_trans; [| apply IH]. apply keeps_create.
Qed.

Lemma keeps_place_lines (ids : list Z) c : Canvas.keeps c (CreditsOverlay.place_lines ids c).
Proof.
  revert c. induction ids as [| id ids IH]; intros c; simpl; [apply keeps_refl |].
  eapply keeps_trans; [| apply IH]. by apply keeps_update.
Qed.

(** What [shows] needs of a canvas is kept by [keeps]. *)
Lemma shows_keeps c c' (ids : list Z) (texts : list string) :
  CreditsOverlay.shows c ids texts -> Canvas.keeps c c' ->
  CreditsOverlay.shows c' ids texts.
Proof.
  intros (Hitems & Hold & Hnd) (Hkeep & Hnext & _). repeat split; [| | done].
  - clear Hnd. induction Hitems as [| id text ids texts Hid _ IH]; [constructor |].
    inversion Hold; subst. constructor; [| by apply IH].
    by apply Hkeep.
  - eapply Forall_impl; [exact Hold |]. simpl. intros id Hid. lia.
Qed.

Lemma fade_lines_ok (ids : list Z) c :
  Forall (fun id => is_Some (Canvas.items c !! id)) ids ->
  exists c', CreditsOverlay.fade_lines ids c = Ok c' /\ Canvas.keeps c c' /\
             Canvas.items c' = Canvas.items c.
Proof.
  revert c. induction ids as [| id ids IH]; intros c Hall; simpl.
  - exists c. split; [done |]. split; [apply keeps_refl | done].
  - inversion Hall as [| ? ? [it Hit] Hrest]; subst.
    unfold Canvas.get_coords. rewrite Hit. simpl.
    destruct (IH (Canvas.itemconfigure_fill id Colors.muted c)) as (c' & -> & Hk & Hi).
    { exact Hrest. }
    exists c'. split; [done |]. split; [| by rewrite Hi].
    eapply keeps_trans; [| exact Hk]. by apply keeps_update.
Qed.

Lemma shows_present c (ids : list Z) (texts : list string) :
  CreditsOverlay.shows c ids texts ->
  Forall (fun id => is_Some (Canvas.items c !! id)) ids.
Proof.
  intros (Hitems & _ & _).
  induction Hitems as [| id text ids texts Hid _ IH]; constructor; [by eexists | done].
Qed.

(** The loop of the reveal replaces the first line that reads redacted. *)
Lemma swap_first_spec (ids : list Z) (texts : list string) (line : string) c :
  Forall2 (fun id text => Canvas.items c !! id = Some (Canvas.mkItem Canvas.KText text []))
          ids texts ->
  CreditsOverlay.swap_first ids line c
  = Ok (match CreditsOverlay.find_index CreditsOverlay.reads_redacted texts with
        | Some j => match ids !! j with
                    | Some id => Canvas.itemconfigure_text id line c
                    | None => c
                    end
        | None => c
        end).
Proof.
  induction 1 as [| id text ids texts Hid _ IH]; simpl; [done |].
  unfold Canvas.itemcget_text. rewrite Hid. simpl.
  destruct (CreditsOverlay.reads_redacted text); [done |].
  rewrite IH.
  destruct (CreditsOverlay.find_index CreditsOverlay.reads_redacted texts); done.
Qed.

Lemma shows_swap c (ids : list Z) (texts : list string) (j : nat) (id : Z) (line : string) :
  CreditsOverlay.shows c ids texts ->
  ids !! j = Some id ->
  CreditsOverlay.shows (Canvas.itemconfigure_text id line c) ids (<[j := line]> texts).
Proof.
  intros (Hitems & Hold & Hnd) Hj. repeat split; [| done | done].
  apply Forall2_same_length_lookup in Hitems as [Hlen Hitems].
  apply Forall2_same_length_lookup. split; [by rewrite length_insert |].
  intros i id' text Hi Ht. simpl.
  destruct (decide (i = j)) as [-> | Hne].
  - assert (id' = id) as -> by congruence.
    assert (j < length texts)%nat as Hlt.
    { rewrite <- Hlen. by eapply lookup_lt_Some. }
    rewrite list_lookup_insert_eq in Ht by done. injection Ht as <-.
    destruct (lookup_lt_is_Some_2 texts j Hlt) as [text0 Ht0].
    rewrite lookup_alter_eq, (Hitems j id text0 Hj Ht0). done.
  - rewrite list_lookup_insert_ne in Ht by done.
    assert (id <> id') as Hid.
    { intros <-. apply Hne. eapply NoDup_lookup; eauto. }
    rewrite lookup_alter_ne by done. by eapply Hitems.
Qed.

(** The scene: the loop of [_setup_scene] makes one new item per line. *)
Lemma create_lines_spec (lines : list string) c :
  let r := CreditsOverlay.create_lines lines c in
  Forall2 (fun id text => Canvas.items r.2 !! id = Some (Canvas.mkItem Canvas.KText text []))
          r.1 lines /\
  Forall (fun id => Z.pos (Canvas.next_id c) <= id < Z.pos (Canvas.next_id r.2)) r.1 /\
  NoDup r.1 /\
  (Canvas.next_id c <= Canvas.next_id r.2)%positive /\
  (forall k, k < Z.pos (Canvas.next_id c) -> Canvas.items r.2 !! k = Canvas.items c !! k) /\
  Canvas.text_updates r.2 = Canvas.text_updates c.
Proof.
  revert c. induction lines as [| line lines IH]; intros c; simpl.
  - repeat split; try constructor. lia.
  - unfold Canvas.create_text. 
    pose proof (keeps_create (Canvas.mkItem Canvas.KText line []) c) as (_ & _ & Hu1).
    destruct (Canvas.create (Canvas.mkItem Canvas.KText line []) c) as [id c1] eqn:Hc.
    unfold Canvas.create in Hc. injection Hc as <- <-.
    set (c1 := Canvas.mk _ _ _ _ _) in *.
    specialize (IH c1). simpl in Hu1.
    destruct (CreditsOverlay.create_lines lines c1) as [ids c2]. simpl in IH |- *.
    destruct IH as (Hitems & Hrange & Hnd & Hnext & Hbelow & Hu).
    assert (Canvas.next_id c1 = Pos.succ (Canvas.next_id c)) as Hn1 by done.
    repeat split.
    + constructor; [| done].
      rewrite Hbelow by lia. subst c1. simpl. apply lookup_insert_eq.
    + constructor; [lia |].
      eapply Forall_impl; [exact Hrange |]. simpl. intros id Hid. lia.
    + constructor; [| done]. intros Hin.
      apply (proj1 (Forall_forall _ _) Hrange) in Hin. lia.
    + lia.
    + intros k Hk. rewrite Hbelow by lia. subst c1. simpl.
      rewrite lookup_insert_ne; [done | lia].
    + by rewrite Hu.
Qed.

Lemma setup_scene_spec s :
  let s' := CreditsOverlay._setup_scene s in
  CreditsOverlay.shows (CreditsOverlay.canvas s') (CreditsOverlay._scroll_ids s')
    CreditsOverlay._credits_lines /\
  Canvas.text_updates (CreditsOverlay.canvas s') = Canvas.text_updates (CreditsOverlay.canvas s) /\
  CreditsOverlay._running s' = CreditsOverlay._running s /\
  CreditsOverlay._t0 s' = CreditsOverlay._t0 s /\
  CreditsOverlay.reveal_delay_ms s' = CreditsOverlay.reveal_delay_ms s /\
  CreditsOverlay.author_line s' = CreditsOverlay.author_line s.
Proof.
  unfold CreditsOverlay._setup_scene.
  set (c0 := Canvas.delete_all (CreditsOverlay.canvas s)).
  assert (Canvas.text_updates c0 = Canvas.text_updates (CreditsOverlay.canvas s)) as Hu0.
  { subst c0. unfold Canvas.delete_all. rewrite text_updates_update. simpl. lia. }
  unfold Canvas.create_text.
  pose proof (keeps_create (Canvas.mkItem Canvas.KText (CreditsOverlay.company_name s) []) c0)
    as (_ & _ & Hu1).
  destruct (Canvas.create _ c0) as [title c1]. simpl in Hu1.
  pose proof (keeps_create
    (Canvas.mkItem Canvas.KText "credits sequence • click or press ESC to close" []) c1)
    as (_ & _ & Hu2).
  destruct (Canvas.create _ c1) as [sub c2]. simpl in Hu2.
  pose proof (create_lines_spec CreditsOverlay._credits_lines c2)
    as (Hitems & Hrange & Hnd & _ & _ & Hu3).
  destruct (CreditsOverlay.create_lines CreditsOverlay._credits_lines c2) as [ids c3].
  simpl in *. repeat split; try done.
  - eapply Forall_impl; [exact Hrange |]. simpl. intros id Hid. lia.
  - by rewrite Hu3, Hu2, Hu1.
Qed.

(** The three cosmetic steps of a frame change the canvas by calls that
    keep the credit lines. *)
Lemma paint_spec s (texts : list string) :
  CreditsOverlay.shows (CreditsOverlay.canvas s) (CreditsOverlay._scroll_ids s) texts ->
  exists c1,
    CreditsOverlay._scroll_credits
      (CreditsOverlay._animate_title (CreditsOverlay._paint_background s))
    = Ok (CreditsOverlay.set_canvas c1 s) /\
    Canvas.keeps (CreditsOverlay.canvas s) c1.
Proof.
  intros Hshows.
  set (cA := Canvas.tag_lower "bg"
               (CreditsOverlay.create_bands 14
                  (Canvas.delete_tag "bg" (CreditsOverlay.canvas s)))).
  assert (Canvas.keeps (CreditsOverlay.canvas s) cA) as HkA.
  { subst cA. eapply keeps_trans; [apply keeps_delete_tag |].
    eapply keeps_trans; [apply keeps_create_bands |]. by apply keeps_update. }
  assert (exists cB,
    CreditsOverlay._animate_title (CreditsOverlay._paint_background s)
    = CreditsOverlay.set_canvas cB s /\ Canvas.keeps (CreditsOverlay.canvas s) cB)
    as (cB & HB & HkB).
  { unfold CreditsOverlay._animate_title, CreditsOverlay._paint_background. fold cA. simpl.
    destruct (CreditsOverlay._title_id s) as [title |]; [| by exists cA].
    destruct (CreditsOverlay._sub_id s) as [sub |]; eexists; (split; [reflexivity |]).
    - eapply keeps_trans; [exact HkA |].
      eapply keeps_trans; by apply keeps_update.
    - eapply keeps_trans; [exact HkA |]. by apply keeps_update. }
  rewrite HB. unfold CreditsOverlay._scroll_credits. simpl.
  set (cC := CreditsOverlay.place_lines (CreditsOverlay._scroll_ids s) cB).
  assert (Canvas.keeps (CreditsOverlay.canvas s) cC) as HkC.
  { eapply keeps_trans; [exact HkB | apply keeps_place_lines]. }
  destruct (fade_lines_ok (CreditsOverlay._scroll_ids s) cC) as (cD & -> & HkD & _).
  { eapply shows_present. eapply shows_keeps; [exact Hshows | exact HkC]. }
  simpl. exists cD. split; [reflexivity |]. by eapply keeps_trans.
Qed.

(** Among the credit lines only the 13th can read as the redacted one. *)
Lemma find_index_13th (f : string -> bool) (l : list string) (x : string) :
  length l = 15%nat ->
  forallb (fun y => negb (f y)) (take 12 l) = true ->
  forallb (fun y => negb (f y)) (drop 13 l) = true ->
  CreditsOverlay.find_index f (<[12%nat := x]> l) = if f x then Some 12%nat else None.
Proof.
  intros Hlen Hpre Hpost.
  do 15 (destruct l as [| ? l]; [discriminate Hlen |]).
  destruct l; [| discriminate Hlen].
  simpl in Hpre, Hpost |- *.
  repeat match type of Hpre with
         | context [f ?a] => destruct (f a); simpl in Hpre; [discriminate Hpre |]
         end.
  repeat match type of Hpost with
         | context [f ?a] => destruct (f a); simpl in Hpost; [discriminate Hpost |]
         end.
  destruct (f x); reflexivity.
Qed.

Lemma find_redacted_revealed (line : string) :
  CreditsOverlay.find_index CreditsOverlay.reads_redacted (CreditsOverlay.revealed_lines line)
  = if CreditsOverlay.reads_redacted line then Some 12%nat else None.
Proof.
  unfold CreditsOverlay.revealed_lines.
  apply find_index_13th; by vm_compute.
Qed.

Lemma find_redacted_lines :
  CreditsOverlay.find_index CreditsOverlay.reads_redacted CreditsOverlay._credits_lines
  = Some 12%nat.
Proof. by vm_compute. Qed.

Lemma shows_13th c (ids : list Z) (texts : list string) :
  CreditsOverlay.shows c ids texts ->
  length texts = 15%nat ->
  exists id text, ids !! 12%nat = Some id /\ texts !! 12%nat = Some text /\
    py_getitem ids 12 = Ok id /\ Canvas.itemcget_text id c = Ok text.
Proof.
  intros (Hitems & _ & _) Hlen.
  apply Forall2_same_length_lookup in Hitems as [Hl Hitems].
  destruct (lookup_lt_is_Some_2 ids 12) as [id Hid]; [lia |].
  destruct (lookup_lt_is_Some_2 texts 12) as [text Ht]; [lia |].
  exists id, text. repeat split; try done.
  - apply py_getitem_lookup; [lia | exact Hid].
  - unfold Canvas.itemcget_text. by rewrite (Hitems _ _ _ Hid Ht).
Qed.

Lemma author_line_set_canvas c s :
  CreditsOverlay.author_line (CreditsOverlay.set_canvas c s) = CreditsOverlay.author_line s.
Proof. reflexivity. Qed.

#[local] Arguments CreditsOverlay.author_line : simpl never.

(** One frame: the credit lines are revealed when the reveal is due, and
    stay as they are otherwise. *)
Lemma loop_spec (now0 : Q) (line : string) (n0 : nat) (d : Z) (b : bool) (now : Q) s :
  CreditsOverlay.in_session now0 line n0 d b s ->
  exists s', CreditsOverlay._loop now s = Ok s' /\
    CreditsOverlay.in_session now0 line n0 d (b || CreditsOverlay.due now0 d now) s'.
Proof.
  intros (Hrun & Ht0 & Hd & Hline & Hshows & Hn0 & Hn1).
  unfold CreditsOverlay._loop. rewrite Hrun. simpl.
  destruct (paint_spec s _ Hshows) as (c1 & -> & Hk). simpl.
  pose proof (shows_keeps _ _ _ _ Hshows Hk) as Hshows1.
  destruct Hk as (_ & _ & Hu).
  unfold CreditsOverlay._reveal_author_if_needed, CreditsOverlay.due. simpl.
  rewrite Ht0, Hd.
  destruct (Qltb ((now - now0) * 1000) (inject_Z d)) eqn:E; simpl.
  - rewrite orb_false_r. eexists. split; [reflexivity |].
    split_and!; simpl; try done.
    + intros Hb. rewrite Hu. by apply Hn0.
    + intros Hr. rewrite Hu. by apply Hn1.
  - rewrite orb_true_r.
    rewrite (swap_first_spec _ _ _ _ (proj1 Hshows1)).
    rewrite author_line_set_canvas, Hline.
    destruct b.
    + rewrite find_redacted_revealed.
      destruct (CreditsOverlay.reads_redacted line) eqn:Hr.
      * destruct (shows_13th _ _ _ Hshows1) as (id & text & Hid & _); [by vm_compute |].
        rewrite Hid. simpl. eexists. split; [reflexivity |].
        split_and!; simpl; try done.
        { pose proof (shows_swap _ _ _ 12%nat id line Hshows1 Hid) as Hs.
          unfold CreditsOverlay.revealed_lines in Hs |- *.
          by rewrite list_insert_insert_eq in Hs. }
        { intros Hr'. congruence. }
      * simpl. eexists. split; [reflexivity |].
        split_and!; simpl; try done.
        intros _. rewrite Hu. by apply Hn1.
    + rewrite find_redacted_lines.
      destruct (shows_13th _ _ _ Hshows1) as (id & text & Hid & _); [by vm_compute |].
      rewrite Hid. simpl. eexists. split; [reflexivity |].
      split_and!; simpl; try done.
      * by apply shows_swap.
      * intros _. unfold Canvas.itemconfigure_text. rewrite text_updates_update. simpl.
        rewrite Hu, Hn0 by done. lia.
Qed.

Lemma frames_spec (now0 : Q) (line : string) (n0 : nat) (d : Z) (nows : list Q) (b : bool) s :
  CreditsOverlay.in_session now0 line n0 d b s ->
  exists s', CreditsOverlay.frames nows s = Ok s' /\
    CreditsOverlay.in_session now0 line n0 d
      (b || existsb (CreditsOverlay.due now0 d) nows) s'.
Proof.
  revert b s. induction nows as [| now nows IH]; intros b s Hs; simpl.
  - exists s. rewrite orb_false_r. split; done.
  - destruct (loop_spec now0 line n0 d b now s Hs) as (s1 & -> & Hs1). simpl.
    destruct (IH _ s1 Hs1) as (s' & -> & Hs').
    exists s'. split; [done |]. by rewrite orb_assoc.
Qed.

Lemma session_spec (now0 now1 : Q) (rest : list Q) s :
  exists s', CreditsOverlay.session now0 now1 rest s = Ok s' /\
    CreditsOverlay.in_session now0 (CreditsOverlay.author_line s)
      (Canvas.text_updates (CreditsOverlay.canvas s)) (CreditsOverlay.reveal_delay_ms s)
      (existsb (CreditsOverlay.due now0 (CreditsOverlay.reveal_delay_ms s)) (now1 :: rest)) s'.
Proof.
  unfold CreditsOverlay.session, CreditsOverlay.show.
  set (s1 := CreditsOverlay.set_t0 now0 _).
  pose proof (setup_scene_spec s1) as (Hshows & Hu & Hrun & Ht0 & Hd & Hline).
  assert (CreditsOverlay.in_session now0 (CreditsOverlay.author_line s)
            (Canvas.text_updates (CreditsOverlay.canvas s)) (CreditsOverlay.reveal_delay_ms s)
            false (CreditsOverlay._setup_scene s1)) as Hs.
  { unfold CreditsOverlay.in_session. split_and!.
    - rewrite Hrun. reflexivity.
    - rewrite Ht0. reflexivity.
    - rewrite Hd. reflexivity.
    - rewrite Hline. reflexivity.
    - exact Hshows.
    - intros _. rewrite Hu. reflexivity.
    - intros _. rewrite Hu. change (CreditsOverlay.canvas s1) with (CreditsOverlay.canvas s). lia. }
  destruct (loop_spec _ _ _ _ _ now1 _ Hs) as (s2 & Hl & Hs2).
  rewrite Hl.
  cbn [mbind Res_bind].
  destruct (frames_spec _ _ _ _ rest _ _ Hs2) as (s' & Hf & Hs').
  rewrite Hf.
  exists s'. split; [reflexivity |]. exact Hs'.
Qed.





(** C2. [close] on a running overlay runs the close callback once, whatever
    the cancel, the grab release and the destroy do: the caller's state is
    what one call of the callback makes of it, the result of [close] is the
    result of that call, and the overlay is no longer running.  A [close]
    right after it, and any [close] on an overlay that is not running,
    returns without a call and without a change. *)
Theorem close_calls_back_once {A : Type} (on_close_cb : A -> Res unit * A)
    (f f' : CreditsOverlay.Faults) s (a : A) :
  CreditsOverlay._running s = true ->
  exists res s' a',
    CreditsOverlay.close on_close_cb f s a = (res, s', a') /\
    on_close_cb a = (res, a') /\
    Window.callbacks (CreditsOverlay.window s')
    = S (Window.callbacks (CreditsOverlay.window s)) /\
    CreditsOverlay._running s' = false /\
    CreditsOverlay.close on_close_cb f' s' a' = (Ok tt, s', a') /\
    (forall s0 (a0 : A), CreditsOverlay._running s0 = false ->
       CreditsOverlay.close on_close_cb f s0 a0 = (Ok tt, s0, a0)).
Proof.
  intros Hrun.
  assert (forall s0 (a0 : A) f0, CreditsOverlay._running s0 = false ->
            CreditsOverlay.close on_close_cb f0 s0 a0 = (Ok tt, s0, a0)) as Hidle.
  { intros s0 a0 f0 H0. unfold CreditsOverlay.close. by rewrite H0. }
  unfold CreditsOverlay.close at 1. rewrite Hrun. simpl.
  destruct (on_close_cb a) as [res a'] eqn:Hcb.
  unfold CreditsOverlay.try_destroy, Window.destroy.
  destruct (CreditsOverlay.destroy_raises f), (CreditsOverlay._job s) as [job |];
    (do 3 eexists; split; [reflexivity |]; split; [reflexivity |]; split_and!;
     [ unfold Window.callbacks, CreditsOverlay.try_pass; simpl;
       destruct (CreditsOverlay.after_cancel_raises f),
                (CreditsOverlay.grab_release_raises f); simpl;
       rewrite ?List.filter_app, ?length_app; simpl; lia
     | reflexivity
     | by apply Hidle
     | intros s0 a0 H0; by apply Hidle ]).
Qed.

End credits.

(** ** The application shell *)

Section app.
Context {G : Type} `{PyRandom G}.

Implicit Types (a : NeuraForgeApp.t G).

Lemma to_bytes_4 (x : Z) :
  0 <= x < 2 ^ 32 -> exists bytes, to_bytes 4 x = Ok bytes /\ length bytes = 4%nat.
Proof.
  intros Hx. unfold to_bytes.
  change (2 ^ (8 * Z.of_nat 4)) with (2 ^ 32).
  destruct ((x <? 0) || (2 ^ 32 <=? x)) eqn:E; [lia |].
  eexists. split; reflexivity.
Qed.

(** The workload draws [n] words and appends 4 bytes for each. *)
Lemma workload_spec `{!PyRandomSpec G} (n : nat) (rng : G) (total : Z) (payload : list Z) :
  exists total' payload',
    NeuraForgeApp.workload n rng total payload = Ok (total', payload') /\
    length payload' = (length payload + 4 * n)%nat.
Proof.
  revert rng total payload. induction n as [| n IH]; intros rng total payload; simpl.
  - exists total, payload. split; [done | lia].
  - pose proof (getrandbits_range 32 rng) as Hx.
    destruct (getrandbits 32 rng) as [x rng']. simpl in Hx.
    destruct (to_bytes_4 x) as (bytes & -> & Hlen); [lia |]. simpl.
    destruct (IH rng' (Z.lxor total (Utils.rolling_hash x)) (payload ++ bytes))
      as (total' & payload' & -> & Hl).
    exists total', payload'. split; [done |].
    rewrite Hl, length_app, Hlen. lia.
Qed.

(** C8. Every Run Demo adds 1 to the run counter and 480 to the bytes
    processed, whatever the clock reads and so whatever the seed is; the
    application state, the pending boost and the pending kick it leaves do
    not depend on the clock either. *)
Theorem run_demo_counts `{!PyRandomSpec G} (now : Q) a :
  exists a',
    NeuraForgeApp._on_run_demo now a = Ok a' /\
    AppState.runs (NeuraForgeApp.state a') = AppState.runs (NeuraForgeApp.state a) + 1 /\
    AppState.bytes_processed (NeuraForgeApp.state a')
    = AppState.bytes_processed (NeuraForgeApp.state a) + 480 /\
    (forall now2 : Q,
       exists a2,
         NeuraForgeApp._on_run_demo now2 a = Ok a2 /\
         NeuraForgeApp.state a2 = NeuraForgeApp.state a' /\
         NeuraForgeApp.particles a2 = NeuraForgeApp.particles a' /\
         NeuraForgeApp.pulse a2 = NeuraForgeApp.pulse a').
Proof.
  assert (forall t : Q, exists total,
    NeuraForgeApp._on_run_demo t a
    = Ok (NeuraForgeApp._sync_stats t
            (NeuraForgeApp.log
               ("Workload done → checksum=0x" +:+ format_0x 8 total +:+ ", processed="
                  +:+ py_str 480 +:+ " bytes")
               (NeuraForgeApp.set_effects (NeuraForgeApp.canvas a)
                  (ParticleField.boost
                     (24 + ((AppState.runs (NeuraForgeApp.state a) + 1) mod 8) * 4)
                     (NeuraForgeApp.particles a))
                  (GlowPulse.kick
                     (0.6 + inject_Z ((AppState.runs (NeuraForgeApp.state a) + 1) mod 3)
                            * 0.12)%Q
                     (NeuraForgeApp.pulse a))
                  (NeuraForgeApp.set_state
                     (AppState.set_bytes_processed
                        (AppState.bytes_processed (NeuraForgeApp.state a) + 480)
                        (AppState.set_last_action "run_demo"
                           (AppState.set_runs (AppState.runs (NeuraForgeApp.state a) + 1)
                              (NeuraForgeApp.state a))))
                     (NeuraForgeApp.log "Run Demo → starting synthetic workload…" a))))))
    as Hrun.
  { intros t. unfold NeuraForgeApp._on_run_demo. cbv zeta.
    match goal with
    | |- context [NeuraForgeApp.workload 120 ?rng 0 []] =>
        destruct (workload_spec 120 rng 0 []) as (total & payload & Hw & Hlen)
    end.
    rewrite Hw. cbn [mbind Res_bind mret Res_ret].
    change (length (@nil Z) + 4 * 120)%nat with 480%nat in Hlen. rewrite Hlen.
    exists total. reflexivity. }
  destruct (Hrun now) as (total & Hnow).
  eexists. split; [exact Hnow |]. split; [reflexivity |]. split; [reflexivity |].
  intros now2. destruct (Hrun now2) as (total2 & Hnow2).
  eexists. split; [exact Hnow2 |]. repeat split.
Qed.

(** C9, as the code has it.  [_schedule_ticks] registers the stats timer
    with a delay of 250 ms, and the callback [tick] of that timer refreshes
    the four cards and registers the timer again with 250 ms: the stats are
    refreshed every 250 ms, four times a second. *)
Theorem stats_timer_cadence (now : Q) a :
  (exists job,
     NeuraForgeApp._tick_job (NeuraForgeApp._schedule_ticks a) = Some job /\
     last (Window.calls (NeuraForgeApp.window (NeuraForgeApp._schedule_ticks a)))
     = Some (Window.After 250 "tick" job) /\
     last (Window.timers (NeuraForgeApp.window (NeuraForgeApp._schedule_ticks a)))
     = Some (job, (250, "tick"))) /\
  (exists job,
     NeuraForgeApp._tick_job (NeuraForgeApp.tick now a) = Some job /\
     last (Window.calls (NeuraForgeApp.window (NeuraForgeApp.tick now a)))
     = Some (Window.After 250 "tick" job) /\
     last (Window.timers (NeuraForgeApp.window (NeuraForgeApp.tick now a)))
     = Some (job, (250, "tick"))) /\
  NeuraForgeApp.card_runs (NeuraForgeApp.tick now a)
  = py_str (AppState.runs (NeuraForgeApp.state a)) /\
  NeuraForgeApp.card_particles (NeuraForgeApp.tick now a)
  = py_str (ParticleField.count (NeuraForgeApp.particles a)) /\
  NeuraForgeApp.card_bytes (NeuraForgeApp.tick now a)
  = Utils.fmt_bytes (AppState.bytes_processed (NeuraForgeApp.state a)) /\
  NeuraForgeApp.card_uptime (NeuraForgeApp.tick now a)
  = Utils.fmt_uptime (now - AppState.start_time (NeuraForgeApp.state a))%Q.
Proof.
  split_and!; try reflexivity.
  - unfold NeuraForgeApp._schedule_ticks, Window.after. simpl.
    eexists. split; [reflexivity |]. split; apply last_snoc.
  - unfold NeuraForgeApp.tick, Window.after. simpl.
    eexists. split; [reflexivity |]. split; apply last_snoc.
Qed.

End app.

(** ** The model at concrete inputs *)

#[global] Instance lcg_PyRandomSpec : PyRandomSpec Z.
Proof.
  split.
  - intros g. simpl. unfold Qle, Qlt, lcg_next. simpl.
    pose proof (Z.mod_pos_bound (g * 1103515245 + 12345) 2147483648). lia.
  - intros n g Hn. simpl. by apply Z.mod_pos_bound.
  - intros k g Hk. simpl. apply Z.mod_pos_bound. by apply Z.pow_pos_nonneg.
Qed.


Lemma close_calls_back_once_witness :
  CreditsOverlay._running (CreditsOverlay.set_running true Demo.overlay) = true /\
  exists res s' a',
    CreditsOverlay.close Demo.counting (CreditsOverlay.mkFaults true true true)
      (CreditsOverlay.set_running true Demo.overlay) 0%nat = (res, s', a') /\
    Demo.counting 0%nat = (res, a') /\
    Window.callbacks (CreditsOverlay.window s')
    = S (Window.callbacks (CreditsOverlay.window (CreditsOverlay.set_running true Demo.overlay))) /\
    CreditsOverlay._running s' = false /\
    CreditsOverlay.close Demo.counting (CreditsOverlay.mkFaults false false false) s' a'
    = (Ok tt, s', a') /\
    (forall s0 (a0 : nat), CreditsOverlay._running s0 = false ->
       CreditsOverlay.close Demo.counting (CreditsOverlay.mkFaults true true true) s0 a0
       = (Ok tt, s0, a0)).
Proof.
  split; [reflexivity |].
  apply (close_calls_back_once Demo.counting (CreditsOverlay.mkFaults true true true)
           (CreditsOverlay.mkFaults false false false)
           (CreditsOverlay.set_running true Demo.overlay) 0%nat).
  reflexivity.
Defined.

Lemma particle_pool_capped_witness :
  Colors.particle_palette <> [] /\
  exists s0 c' s',
    ParticleField.__init__ (G := Z) Demo.canvas Colors.particle_palette = Ok s0 /\
    ParticleField.run [ParticleField.Boost 200; ParticleField.Step; ParticleField.Step]
      Demo.canvas s0 = Ok (c', s') /\
    (length (ParticleField.particles s') <= 160)%nat.
Proof.
  assert (Colors.particle_palette <> []) as Hpal by discriminate.
  split; [exact Hpal |].
  apply (proj1 (particle_pool_capped (G := Z) Colors.particle_palette Hpal)).
Defined.

Lemma pulse_pool_capped_witness :
  Colors.pulse_palette <> [] /\
  exists c' s',
    GlowPulse.run [GlowPulse.Kick 0.72; GlowPulse.Step; GlowPulse.Step] Demo.canvas
      (GlowPulse.__init__ (G := Z) Colors.pulse_palette) = Ok (c', s') /\
    (length (GlowPulse.pulses s') <= 8)%nat.
Proof.
  assert (Colors.pulse_palette <> []) as Hpal by discriminate.
  split; [exact Hpal |].
  apply (proj1 (pulse_pool_capped (G := Z) Colors.pulse_palette Hpal)).
Defined.

(** [boost(24)] drains as 8, 8, 8, and then nothing. *)
Lemma boost_drains_in_eights_witness :
  ParticleField.palette Demo.field <> [] /\
  ParticleField._boost Demo.field = 0 /\
  0 <= 24 /\
  exists l,
    ParticleField.spawned_per_step 4 Demo.canvas (ParticleField.boost 24 Demo.field) = Ok l /\
    length l = 4%nat /\
    (forall j : nat, (j < 4)%nat ->
       l !! j = Some (Z.min 8 (Z.max 0 (24 - 8 * Z.of_nat j)))) /\
    Forall (fun d => 0 <= d <= 8) l /\
    foldr Z.add 0 l = Z.min 24 (8 * Z.of_nat 4) /\
    (24 <= 8 * Z.of_nat 4 -> foldr Z.add 0 l = 24).
Proof.
  assert (ParticleField.palette Demo.field <> []) as Hpal by discriminate.
  split; [exact Hpal |]. split; [reflexivity |]. split; [lia |].
  apply (boost_drains_in_eights 24 4 Demo.canvas Demo.field Hpal); [reflexivity | lia].
Defined.

Lemma particle_motion_clamped_witness :
  ParticleField.palette (ParticleField.boost 24 Demo.field) <> [] /\
  exists c' s',
    ParticleField.run [ParticleField.Step; ParticleField.Step] Demo.canvas
      (ParticleField.boost 24 Demo.field) = Ok (c', s') /\
    Forall ParticleField.in_bounds (ParticleField.particles s').
Proof.
  assert (ParticleField.palette (ParticleField.boost 24 Demo.field) <> []) as Hpal
    by discriminate.
  split; [exact Hpal |].
  apply (particle_motion_clamped Demo.canvas (ParticleField.boost 24 Demo.field)
           [ParticleField.Step] Hpal).
Defined.

(** C7 fails as stated: neither the radius nor the growth rate of a new
    ring is a multiple of [strength]; at [strength = 0] the ring still has
    a radius of 6 or more and grows by 1.6 a frame. *)
Lemma glow_spawn_not_proportional :
  ~ (exists k : Q, forall strength : Q,
       exists p, GlowPulse.newest (GlowPulse._spawn 600 190 strength Demo.glow) = Some p /\
                 (Pulse.r p == k * strength)%Q) /\
  ~ (exists k : Q, forall strength : Q,
       exists p, GlowPulse.newest (GlowPulse._spawn 600 190 strength Demo.glow) = Some p /\
                 (Pulse.vr p == k * strength)%Q).
Proof.
  split; intros (k & Hk); destruct (Hk 0%Q) as (p & Hp & Heq);
    vm_compute in Hp; injection Hp as <-; simpl in Heq;
    rewrite Qmult_0_r in Heq; vm_compute in Heq; discriminate Heq.
Qed.

Lemma glow_spawn_shape_witness :
  0 < 600 /\ 0 < 190 /\
  exists p,
    GlowPulse.pulses (GlowPulse._spawn 600 190 0.72 Demo.glow)
    = GlowPulse.pulses Demo.glow ++ [p] /\
    GlowPulse.newest (GlowPulse._spawn 600 190 0.72 Demo.glow) = Some p /\
    (0.22 * inject_Z 600 <= Pulse.cx p /\ Pulse.cx p < 0.78 * inject_Z 600)%Q /\
    (0.28 * inject_Z 190 <= Pulse.cy p /\ Pulse.cy p < 0.72 * inject_Z 190)%Q /\
    (6 <= Pulse.r p /\ Pulse.r p < 28)%Q /\
    Pulse.vr p = (1.6 + 0.72 * 3.2)%Q /\
    Pulse.life p = (0.65 + 0.72 * 0.8)%Q /\
    Pulse.item p = -1 /\
    (forall strength' : Q,
       exists p',
         GlowPulse.newest (GlowPulse._spawn 600 190 strength' Demo.glow) = Some p' /\
         Pulse.cx p' = Pulse.cx p /\ Pulse.cy p' = Pulse.cy p /\
         Pulse.r p' = Pulse.r p).
Proof.
  split; [lia |]. split; [lia |].
  apply (glow_spawn_shape (PyRandomSpec0 := lcg_PyRandomSpec) 600 190 0.72%Q Demo.glow); lia.
Defined.

Lemma run_demo_counts_witness :
  exists a',
    NeuraForgeApp._on_run_demo 1700000000.5 Demo.idle_app = Ok a' /\
    AppState.runs (NeuraForgeApp.state a')
    = AppState.runs (NeuraForgeApp.state Demo.idle_app) + 1 /\
    AppState.bytes_processed (NeuraForgeApp.state a')
    = AppState.bytes_processed (NeuraForgeApp.state Demo.idle_app) + 480 /\
    (forall now2 : Q,
       exists a2,
         NeuraForgeApp._on_run_demo now2 Demo.idle_app = Ok a2 /\
         NeuraForgeApp.state a2 = NeuraForgeApp.state a' /\
         NeuraForgeApp.particles a2 = NeuraForgeApp.particles a' /\
         NeuraForgeApp.pulse a2 = NeuraForgeApp.pulse a').
Proof.
  apply (run_demo_counts (PyRandomSpec0 := lcg_PyRandomSpec) 1700000000.5%Q Demo.idle_app).
Defined.

(** C9 fails as stated: the stats timer of the application is registered
    with 250 ms, which is not 62.5 ms. *)
Lemma stats_timer_not_62_5_ms :
  exists a,
    Demo.app = Ok a /\
    NeuraForgeApp.tick_delay a = Some 250 /\
    ~ (exists d, NeuraForgeApp.tick_delay a = Some d /\ (inject_Z d == 62.5)%Q).
Proof.
  eexists. split; [vm_compute; reflexivity |].
  split; [vm_compute; reflexivity |].
  intros (d & Hd & Heq). vm_compute in Hd. injection Hd as <-.
  vm_compute in Heq. discriminate Heq.
Qed.

Lemma count_read_before_eviction_witness :
  Colors.particle_palette <> [] /\
  exists s0 c' s',
    ParticleField.__init__ (G := Z) Demo.canvas Colors.particle_palette = Ok s0 /\
    ParticleField.run (ParticleField.Boost 200 :: repeat ParticleField.Step 16) Demo.canvas s0
    = Ok (c', s') /\
    ParticleField.count s' = 168 /\
    length (ParticleField.particles s') = 160%nat.
Proof.
  assert (Colors.particle_palette <> []) as Hpal by discriminate.
  split; [exact Hpal |].
  apply (proj1 (proj2 (count_read_before_eviction (G := Z) Colors.particle_palette Hpal))).
Defined.

(** The runs behind the statements above, evaluated. *)

Example boost_24_drains_8_8_8 :
  ParticleField.spawned_per_step 4 Demo.canvas (ParticleField.boost 24 Demo.field)
  = Ok [8; 8; 8; 0].
Proof. vm_compute. reflexivity. Qed.

Example credits_session_reveals :
  (s' ← CreditsOverlay.session 0 0.001 [0.017; 0.033; 0.049]%Q Demo.overlay;
   CreditsOverlay.sentinel_text s') = Ok "Author: [REDACTED]" /\
  (s' ← CreditsOverlay.session 0 0.001 [0.017; 0.033; 0.05; 0.066]%Q Demo.overlay;
   CreditsOverlay.sentinel_text s') = Ok "Author: Alex Dubois".
Proof. split; vm_compute; reflexivity. Qed.

Example run_demo_logs_480_bytes :
  (a ← NeuraForgeApp._on_run_demo 1700000000.5 Demo.idle_app;
   mret (AppState.runs (NeuraForgeApp.state a),
         AppState.bytes_processed (NeuraForgeApp.state a),
         NeuraForgeApp.card_bytes a,
         ParticleField._boost (NeuraForgeApp.particles a)))
  = Ok (1, 480, "480 B", 28).
Proof. vm_compute. reflexivity. Qed.

Example fmt_uptime_examples :
  List.map Utils.fmt_uptime [0; 59; 60; 3661]%Q = ["0s"; "59s"; "1m 0s"; "1h 1m"].
Proof. vm_compute. reflexivity. Qed.

(** * Further properties *)

(** ** [src/core/utils.py] *)

Section utils.

(** X1. With [lo <= hi], [clamp] returns a value of [[lo, hi]]: [x] itself
    when [x] is in the interval, [lo] when [x] is below and [hi] when it is
    above; clamping twice is clamping once. *)
Theorem clamp_spec (x lo hi : Q) :
  (lo <= hi)%Q ->
  (lo <= Utils.clamp x lo hi /\ Utils.clamp x lo hi <= hi)%Q /\
  ((lo <= x /\ x <= hi)%Q -> Utils.clamp x lo hi = x) /\
  ((x < lo)%Q -> Utils.clamp x lo hi = lo) /\
  ((hi < x)%Q -> Utils.clamp x lo hi = hi) /\
  Utils.clamp (Utils.clamp x lo hi) lo hi = Utils.clamp x lo hi.
Proof.
  intros Hle. split; [by apply clamp_bounds |].
  unfold Utils.clamp.
  destruct (Qltb x lo) eqn:E1; [| destruct (Qltb hi x) eqn:E2].
  - apply Qltb_true in E1.
    assert (Qltb lo lo = false) as -> by (apply Qltb_false; lra).
    assert (Qltb hi lo = false) as -> by (apply Qltb_false; lra).
    split_and!; try done; intros; lra.
  - apply Qltb_false in E1. apply Qltb_true in E2.
    assert (Qltb hi lo = false) as -> by (apply Qltb_false; lra).
    assert (Qltb hi hi = false) as -> by (apply Qltb_false; lra).
    split_and!; try done; intros; lra.
  - rewrite E1, E2. apply Qltb_false in E1, E2.
    split_and!; try done; intros; lra.
Qed.

Lemma mask_bit (x i : Z) :
  0 <= i -> Z.testbit (Z.land x 4294967295) i = Z.testbit x i && (i <? 32).
Proof.
  intros Hi. rewrite Z.land_spec. change 4294967295 with (Z.ones 32). f_equal.
  destruct (i <? 32) eqn:E.
  - apply Z.ones_spec_low. lia.
  - apply Z.ones_spec_high. lia.
Qed.

Lemma word_land (x : Z) : Spec.word (Z.land x 4294967295).
Proof. unfold Spec.word. by rewrite <- Z.land_assoc, Z.land_diag. Qed.

Lemma word_bit (x i : Z) : Spec.word x -> 32 <= i -> Z.testbit x i = false.
Proof.
  intros Hx Hi. rewrite <- Hx, mask_bit by lia.
  destruct (i <? 32) eqn:E; [lia | apply andb_false_r].
Qed.

Lemma word_lxor (a b : Z) : Spec.word a -> Spec.word b -> Spec.word (Z.lxor a b).
Proof.
  intros Ha Hb. unfold Spec.word. apply Z.bits_inj'. intros n Hn.
  rewrite mask_bit by done. destruct (n <? 32) eqn:E; [apply andb_true_r |].
  rewrite andb_false_r, Z.lxor_spec, (word_bit a), (word_bit b) by (done || lia). done.
Qed.

Lemma word_range (x : Z) : Spec.word x <-> 0 <= x < 2 ^ 32.
Proof.
  unfold Spec.word. change 4294967295 with (Z.ones 32). rewrite Z.land_ones by lia. split.
  - intros <-. apply Z.mod_pos_bound. lia.
  - intros Hx. by apply Z.mod_small.
Qed.

(** A left shift xor-ed in can be undone from the low bits up. *)
Lemma shl_mix_inj (k x y : Z) :
  0 < k ->
  Z.lxor x (Z.land (Z.shiftl x k) 4294967295) = Z.lxor y (Z.land (Z.shiftl y k) 4294967295) ->
  x = y.
Proof.
  intros Hk Heq. apply Z.bits_inj'. intros n Hn. revert n Hn.
  apply (Zlt_0_ind (fun n => Z.testbit x n = Z.testbit y n)).
  intros n IH Hn.
  assert (Z.testbit (Z.lxor x (Z.land (Z.shiftl x k) 4294967295)) n
          = Z.testbit (Z.lxor y (Z.land (Z.shiftl y k) 4294967295)) n) as Hbit
    by (by rewrite Heq).
  rewrite !Z.lxor_spec, !mask_bit, !Z.shiftl_spec in Hbit by done.
  destruct (Z.lt_ge_cases n k) as [Hlt | Hge].
  - rewrite !(Z.testbit_neg_r _ (n - k)) in Hbit by lia. simpl in Hbit.
    by rewrite !xorb_false_r in Hbit.
  - rewrite (IH (n - k)) in Hbit by lia.
    destruct (Z.testbit x n), (Z.testbit y n), (Z.testbit y (n - k) && (n <? 32));
      simpl in Hbit; congruence.
Qed.

(** A right shift xor-ed in can be undone from the high bits down. *)
Lemma shr_mix_inj (k x y : Z) :
  0 < k -> Spec.word x -> Spec.word y ->
  Z.lxor x (Z.land (Z.shiftr x k) 4294967295) = Z.lxor y (Z.land (Z.shiftr y k) 4294967295) ->
  x = y.
Proof.
  intros Hk Hx Hy Heq. apply Z.bits_inj'. intros n Hn.
  assert (forall d, 0 <= d -> forall n, 0 <= n -> 32 - n <= d ->
            Z.testbit x n = Z.testbit y n) as Hind.
  { apply (Zlt_0_ind (fun d => forall n, 0 <= n -> 32 - n <= d ->
                                   Z.testbit x n = Z.testbit y n)).
    intros d IH Hd m Hm Hmd.
    destruct (Z.le_gt_cases 32 m) as [Hhigh | Hlow].
    { by rewrite (word_bit x), (word_bit y). }
    assert (Z.testbit (Z.lxor x (Z.land (Z.shiftr x k) 4294967295)) m
            = Z.testbit (Z.lxor y (Z.land (Z.shiftr y k) 4294967295)) m) as Hbit
      by (by rewrite Heq).
    rewrite !Z.lxor_spec, !mask_bit, !Z.shiftr_spec in Hbit by done.
    assert (Z.testbit x (m + k) = Z.testbit y (m + k)) as Hup.
    { destruct (Z.le_gt_cases 32 (m + k)) as [Hhigh | Hlow'].
      - by rewrite (word_bit x), (word_bit y).
      - apply (IH (32 - (m + k))); lia. }
    rewrite Hup in Hbit.
    destruct (Z.testbit x m), (Z.testbit y m), (Z.testbit y (m + k) && (m <? 32));
      simpl in Hbit; congruence. }
  apply (Hind (Z.max 0 (32 - n))); lia.
Qed.

(** X2. [rolling_hash] returns a 32-bit value for every integer, and looks
    at the low 32 bits of its argument only. *)
Theorem rolling_hash_range (x : Z) :
  0 <= Utils.rolling_hash x < 2 ^ 32 /\
  Utils.rolling_hash x = Utils.rolling_hash (x mod 2 ^ 32).
Proof.
  split.
  - apply word_range. unfold Utils.rolling_hash. apply word_land.
  - unfold Utils.rolling_hash.
    assert (Z.land (x mod 2 ^ 32) 4294967295 = Z.land x 4294967295) as ->; [| done].
    change 4294967295 with (Z.ones 32). rewrite !Z.land_ones by lia.
    apply Z.mod_mod. lia.
Qed.

(** X3. On 32-bit values [rolling_hash] loses nothing: two values with the
    same hash are the same value. *)
Theorem rolling_hash_injective (x y : Z) :
  0 <= x < 2 ^ 32 ->
  0 <= y < 2 ^ 32 ->
  Utils.rolling_hash x = Utils.rolling_hash y ->
  x = y.
Proof.
  intros Hx Hy. apply word_range in Hx, Hy.
  unfold Utils.rolling_hash. rewrite Hx, Hy.
  set (x1 := Z.lxor x (Z.land (Z.shiftl x 13) 4294967295)).
  set (y1 := Z.lxor y (Z.land (Z.shiftl y 13) 4294967295)).
  set (x2 := Z.lxor x1 (Z.land (Z.shiftr x1 17) 4294967295)).
  set (y2 := Z.lxor y1 (Z.land (Z.shiftr y1 17) 4294967295)).
  assert (Spec.word x1) as Hx1 by (apply word_lxor; [done | apply word_land]).
  assert (Spec.word y1) as Hy1 by (apply word_lxor; [done | apply word_land]).
  assert (Spec.word x2) as Hx2 by (apply word_lxor; [done | apply word_land]).
  assert (Spec.word y2) as Hy2 by (apply word_lxor; [done | apply word_land]).
  assert (Spec.word (Z.lxor x2 (Z.land (Z.shiftl x2 5) 4294967295))) as Hx3
    by (apply word_lxor; [done | apply word_land]).
  assert (Spec.word (Z.lxor y2 (Z.land (Z.shiftl y2 5) 4294967295))) as Hy3
    by (apply word_lxor; [done | apply word_land]).
  rewrite Hx3, Hy3. intros H3.
  apply shl_mix_inj in H3; [| lia].
  apply shr_mix_inj in H3; [| lia | done | done].
  by apply shl_mix_inj in H3; [| lia].
Qed.

(** X4. From 1024 bytes on, [fmt_bytes] never uses the unit KB: the index
    into the units is raised before the unit is read, so that the value is
    divided by 1024 once and labelled MB up to 1048575, and labelled MB, GB
    or TB beyond. *)
Theorem fmt_bytes_units (n : Z) :
  1024 <= n ->
  exists (v : Q) (unit : string),
    Utils.fmt_bytes n = format_2f v +:+ " " +:+ unit /\
    In unit ["MB"; "GB"; "TB"] /\
    (n < 1048576 -> v = (inject_Z n / 1024)%Q /\ unit = "MB").
Proof.
  intros Hn. unfold Utils.fmt_bytes.
  destruct (n <? 1024) eqn:E; [lia |].
  assert (inject_Z 1024 <= inject_Z n)%Q as Hq by (rewrite <- Zle_Qle; lia).
  change (inject_Z 1024) with 1024%Q in Hq.
  unfold Utils.scale at 1.
  assert (Qle_bool 1024 (inject_Z n) = true) as -> by (by apply Qle_bool_iff).
  simpl andb. cbv iota.
  destruct (Qle_bool 1024 (inject_Z n / 1024)) eqn:E1; simpl andb; cbv iota.
  - assert (~ n < 1048576) as Hbig.
    { intros Hlt. apply Qle_bool_iff in E1.
      assert (inject_Z n < inject_Z 1048576)%Q by (rewrite <- Zlt_Qlt; lia).
      change (inject_Z 1048576) with 1048576%Q in *.
      unfold Qdiv in E1. change (/ 1024)%Q with (1 # 1024)%Q in E1. lra. }
    destruct (Qle_bool 1024 (inject_Z n / 1024 / 1024)) eqn:E2; simpl andb; cbv iota;
      do 2 eexists; (split; [reflexivity |]); simpl; (split; [tauto | lia]).
  - do 2 eexists. split; [reflexivity |]. simpl. split; [tauto | done].
Qed.

(** X5. From one minute on, [fmt_uptime] splits the whole seconds [s] of an
    uptime into minutes and seconds, [s = 60 m + r] with [r < 60], and
    prints both below one hour; from one hour on it prints hours and
    minutes and drops the seconds. *)
Theorem fmt_uptime_fields (seconds : Q) :
  60 <= py_int seconds ->
  exists m r : Z,
    py_int seconds = 60 * m + r /\ 0 <= r < 60 /\ 1 <= m /\
    (m < 60 -> Utils.fmt_uptime seconds = py_str m +:+ "m " +:+ py_str r +:+ "s") /\
    (60 <= m ->
     exists h m' : Z,
       m = 60 * h + m' /\ 0 <= m' < 60 /\ 1 <= h /\
       Utils.fmt_uptime seconds = py_str h +:+ "h " +:+ py_str m' +:+ "m").
Proof.
  intros Hs. unfold Utils.fmt_uptime.
  destruct (py_int seconds <? 60) eqn:E; [lia |].
  exists (py_int seconds / 60), (py_int seconds mod 60).
  pose proof (Z.div_mod (py_int seconds) 60 ltac:(lia)).
  pose proof (Z.mod_pos_bound (py_int seconds) 60 ltac:(lia)).
  assert (1 <= py_int seconds / 60) by (apply Z.div_le_lower_bound; lia).
  split_and!; try lia.
  - intros Hm. destruct (py_int seconds / 60 <? 60) eqn:E'; [done | lia].
  - intros Hm. destruct (py_int seconds / 60 <? 60) eqn:E'; [lia |].
    exists (py_int seconds / 60 / 60), ((py_int seconds / 60) mod 60).
    pose proof (Z.div_mod (py_int seconds / 60) 60 ltac:(lia)).
    pose proof (Z.mod_pos_bound (py_int seconds / 60) 60 ltac:(lia)).
    assert (1 <= py_int seconds / 60 / 60) by (apply Z.div_le_lower_bound; lia).
    split_and!; try lia. done.
Qed.

End utils.

(** ** [src/core/effects.py] : more on the particle field *)

Section particle_field_more.
Context {G : Type} `{PyRandom G}.

Implicit Types (s : ParticleField.t G) (c : Canvas.t) (p : Particle.t).

Lemma inject_Z_pos (w : Z) : 0 < w -> (0 < inject_Z w)%Q.
Proof. intros Hw. unfold Qlt. simpl. lia. Qed.

(** One turn of [_spawn] appends a particle within the ranges of [fresh]. *)
Lemma spawn_one_fresh `{!PyRandomSpec G} (w h : Z) s :
  0 < w -> 0 < h ->
  ParticleField.palette s <> [] ->
  exists p g,
    ParticleField.spawn_one w h s
    = Ok (ParticleField.set_particles (ParticleField.particles s ++ [p])
            (ParticleField.set_rng g s)) /\
    Spec.fresh w h (Z.of_nat (length (ParticleField.palette s))) p.
Proof.
  intros Hw Hh Hpal. unfold ParticleField.spawn_one.
  pose proof (inject_Z_pos w Hw) as HW. pose proof (inject_Z_pos h Hh) as HH.
  pose proof (random_range (ParticleField._rng s)) as [? ?].
  destruct (random (ParticleField._rng s)) as [u1 g1].
  pose proof (random_range g1) as [? ?]. destruct (random g1) as [u2 g2].
  pose proof (random_range g2) as [? ?]. destruct (random g2) as [u3 g3].
  pose proof (random_range g3) as [? ?]. destruct (random g3) as [u4 g4].
  pose proof (random_range g4) as [? ?]. destruct (random g4) as [u5 g5].
  pose proof (random_range g5) as [? ?]. destruct (random g5) as [u6 g6].
  simpl in *. unfold randrange.
  assert (0 < Z.of_nat (length (ParticleField.palette s))) as Hlen.
  { destruct (ParticleField.palette s); [done | rewrite length_cons; lia]. }
  destruct (Z.of_nat (length (ParticleField.palette s)) - 0 <=? 0) eqn:E; [lia |].
  pose proof (randbelow_range (Z.of_nat (length (ParticleField.palette s)) - 0) g6
                ltac:(lia)) as Hk.
  destruct (randbelow _ g6) as [k g7]. simpl in Hk |- *.
  do 2 eexists. split; [reflexivity |].
  unfold Spec.fresh. simpl. split_and!; try lia; try lra; nra.
Qed.

Lemma spawn_loop_fresh `{!PyRandomSpec G} (w h : Z) (n : nat) s :
  0 < w -> 0 < h ->
  ParticleField.palette s <> [] ->
  exists s' new,
    ParticleField.spawn_loop w h n s = Ok s' /\
    ParticleField.particles s' = ParticleField.particles s ++ new /\
    length new = n /\
    Forall (Spec.fresh w h (Z.of_nat (length (ParticleField.palette s)))) new.
Proof.
  intros Hw Hh. revert s. induction n as [| n IH]; intros s Hpal; simpl.
  - exists s, []. rewrite app_nil_r. split_and!; done.
  - destruct (spawn_one_fresh w h s Hw Hh Hpal) as (p & g & -> & Hp). simpl.
    destruct (IH (ParticleField.set_particles (ParticleField.particles s ++ [p])
                    (ParticleField.set_rng g s)) Hpal)
      as (s' & new & -> & Hps & Hlen & Hnew).
    exists s', (p :: new). simpl in Hps, Hnew. split_and!; try done.
    + by rewrite Hps, <- app_assoc.
    + simpl. by rewrite Hlen.
    + by constructor.
Qed.

Lemma init_fresh `{!PyRandomSpec G} (c : Canvas.t) (pal : list string) :
  pal <> [] ->
  exists s0,
    ParticleField.__init__ (G := G) c pal = Ok s0 /\
    length (ParticleField.particles s0) = 42%nat /\
    Forall (Spec.fresh (Z.max 1 (Canvas.winfo_width c)) (Z.max 1 (Canvas.winfo_height c))
              (Z.of_nat (length pal)))
           (ParticleField.particles s0).
Proof.
  intros Hpal. unfold ParticleField.__init__, ParticleField._spawn.
  destruct (spawn_loop_fresh (Z.max 1 (Canvas.winfo_width c))
              (Z.max 1 (Canvas.winfo_height c)) (Z.to_nat 42)
              (ParticleField.mk pal (Random 1337) [] 0 0))
    as (s0 & new & Hrun & Hps & Hlen & Hnew); [lia | lia | done |].
  exists s0. simpl in Hps. rewrite Hps. split_and!; done.
Qed.

(** X6. A new particle field holds 42 particles, all within the ranges of
    [_spawn]: on the surface, alpha in [[0.25, 1)], radius in [[1.2, 3.8)],
    [vx] in [[-0.45, 0.45)], [vy] in [[-0.3, 0.3)], a palette index that
    names a colour, no visual yet.  Its [count] is 0 all the same: it is
    set by [step] only. *)
Theorem init_particles_fresh `{!PyRandomSpec G} (c : Canvas.t) (pal : list string) :
  pal <> [] ->
  exists s0,
    ParticleField.__init__ (G := G) c pal = Ok s0 /\
    length (ParticleField.particles s0) = 42%nat /\
    Forall (Spec.fresh (Z.max 1 (Canvas.winfo_width c)) (Z.max 1 (Canvas.winfo_height c))
              (Z.of_nat (length pal)))
           (ParticleField.particles s0) /\
    ParticleField.count s0 = 0 /\
    ParticleField._boost s0 = 0.
Proof.
  intros Hpal.
  destruct (init_fresh c pal Hpal) as (s0 & Hinit & Hlen & Hfresh).
  exists s0. split_and!; [done | done | done | |].
  all: unfold ParticleField.__init__, ParticleField._spawn in Hinit.
  all: destruct (spawn_loop_ok (Z.max 1 (Canvas.winfo_width c))
                   (Z.max 1 (Canvas.winfo_height c)) (Z.to_nat 42)
                   (ParticleField.mk pal (Random 1337) [] 0 0) Hpal)
         as (s0' & Hrun' & _ & Hb & Hc & _).
  all: rewrite Hinit in Hrun'; injection Hrun' as <-; done.
Qed.

(** X7. A particle field cannot be made with an empty palette: the first
    [randrange(0, 0)] of [_spawn] raises [ValueError].  [_spawn(n)] with
    [n <= 0] returns without a draw, whatever the palette. *)
Theorem init_empty_palette (c : Canvas.t) :
  ParticleField.__init__ (G := G) c [] = Raise ValueError /\
  (forall (n : Z) s, n <= 0 -> ParticleField._spawn c n s = Ok s).
Proof.
  split.
  - unfold ParticleField.__init__, ParticleField._spawn.
    change (Z.to_nat 42) with (S 41). cbn [ParticleField.spawn_loop].
    unfold ParticleField.spawn_one.
    repeat match goal with
           | |- context [random ?g] => destruct (random g) as [? ?]
           end.
    reflexivity.
  - intros n s Hn. unfold ParticleField._spawn.
    replace (Z.to_nat n) with 0%nat by lia. reflexivity.
Qed.

(** What [move] and [_render] keep of a particle. *)
Lemma move_all_Forall (P Q : Particle.t -> Prop) (w h : Z) (ps : list Particle.t) (g : G) :
  (forall p g', Q p -> P (ParticleField.move w h p g').1) ->
  Forall Q ps ->
  Forall P (ParticleField.move_all w h ps g).1.
Proof.
  intros Hmove Hall. revert g. induction Hall as [| p ps Hp _ IH]; intros g; simpl.
  - constructor.
  - pose proof (Hmove p g Hp) as Hp'.
    destruct (ParticleField.move w h p g) as [p' g1].
    specialize (IH g1).
    destruct (ParticleField.move_all w h ps g1) as [ps' g2]. simpl in *.
    by constructor.
Qed.

Lemma render_all_Forall (P : Particle.t -> Prop) (pal : list string)
    (ps ps' : list Particle.t) c c' (g g' : G) :
  (forall p i, P p -> P (Particle.set_item i p)) ->
  (forall p, P p ->
     P (Particle.set_hue_idx ((Particle.hue_idx p + 1) mod Z.of_nat (length pal)) p)) ->
  ParticleField.render_all pal ps c g = Ok (ps', c', g') ->
  Forall P ps ->
  Forall P ps'.
Proof.
  intros Hitem Hhue. revert ps' c c' g g'.
  induction ps as [| p ps IH]; intros ps' c c' g g' Hrun Hall; simpl in Hrun.
  - injection Hrun as <- <- <-. constructor.
  - inversion Hall as [| ? ? Hp Hps]; subst.
    destruct (ParticleField.render_one pal p c g) as [[[p1 c1] g1] | e] eqn:Hone;
      [| discriminate Hrun].
    simpl in Hrun.
    destruct (ParticleField.render_all pal ps c1 g1) as [[[ps1 c2] g2] | e] eqn:Hrest;
      [| discriminate Hrun].
    simpl in Hrun. injection Hrun as <- <- <-.
    constructor; [| by eapply IH].
    unfold ParticleField.render_one in Hone.
    destruct (py_mod (Particle.hue_idx p) (Z.of_nat (length pal))) as [i | e] eqn:Hm;
      [| discriminate Hone].
    simpl in Hone.
    destruct (py_getitem pal i) as [col | e]; [| discriminate Hone]. simpl in Hone.
    destruct (Particle.item p =? -1).
    + unfold Canvas.create_oval, Canvas.create in Hone. injection Hone as <- _ _.
      by apply Hitem.
    + destruct (Qltb 0.9 (Particle.alpha p)).
      * destruct (random g) as [u g0]. destruct (Qltb u 0.05).
        -- unfold py_mod in Hone.
           destruct (Z.of_nat (length pal) =? 0); [discriminate Hone |]. simpl in Hone.
           destruct (py_getitem pal _) as [col' | e]; [| discriminate Hone].
           simpl in Hone. injection Hone as <- _ _. by apply Hhue.
        -- injection Hone as <- _ _. done.
      * injection Hone as <- _ _. done.
Qed.

(** A step makes [P] hold of every particle when [move] does, and the
    visual and the palette index do not matter to [P]. *)
Lemma step_establishes (P : Particle.t -> Prop) c s c' s' :
  (forall p g, P (ParticleField.move (Z.max 1 (Canvas.winfo_width c))
                    (Z.max 1 (Canvas.winfo_height c)) p g).1) ->
  (forall p i, P p -> P (Particle.set_item i p)) ->
  (forall p i, P p -> P (Particle.set_hue_idx i p)) ->
  ParticleField.step c s = Ok (c', s') ->
  Forall P (ParticleField.particles s').
Proof.
  intros Hmove Hitem Hhue Hstep.
  unfold ParticleField.step in Hstep.
  destruct (ParticleField.advance c s) as [[c1 s1] | e] eqn:Hadv; [| discriminate Hstep].
  simpl in Hstep.
  destruct (evict_spec c1 s1) as (c2 & s2 & Hev & Hps & _).
  rewrite Hev in Hstep. injection Hstep as <- <-.
  rewrite Hps. apply Forall_drop.
  unfold ParticleField.advance in Hadv.
  match type of Hadv with
  | context [mbind _ ?m] => destruct m as [s0 | e] eqn:Hsp; [| discriminate Hadv]
  end.
  simpl in Hadv.
  pose proof (move_all_Forall P (fun _ => True) (Z.max 1 (Canvas.winfo_width c))
                (Z.max 1 (Canvas.winfo_height c)) (ParticleField.particles s0)
                (ParticleField._rng s0) (fun p g _ => Hmove p g)) as Hmoved.
  destruct (ParticleField.move_all _ _ (ParticleField.particles s0) (ParticleField._rng s0))
    as [ps g].
  unfold ParticleField._render in Hadv. simpl in Hadv.
  destruct (ParticleField.render_all (ParticleField.palette s0) ps c g)
    as [[[ps' c3] g3] | e] eqn:Hr; [| discriminate Hadv].
  simpl in Hadv. injection Hadv as <- <-. simpl.
  eapply render_all_Forall; [exact Hitem | | exact Hr |].
  - intros p Hp. by apply Hhue.
  - apply Hmoved. by apply Forall_true.
Qed.

Lemma move_inside (w h : Z) p (g : G) :
  0 < w -> 0 < h -> Spec.inside w h (ParticleField.move w h p g).1.
Proof.
  intros Hw Hh. unfold ParticleField.move.
  pose proof (inject_Z_pos w Hw) as HW. pose proof (inject_Z_pos h Hh) as HH.
  destruct (random g) as [u1 g1]. destruct (random g1) as [u2 g2].
  destruct (random g2) as [u3 g3].
  set (x := (Particle.x p + Particle.vx p)%Q).
  set (y := (Particle.y p + Particle.vy p)%Q).
  pose proof (clamp_bounds x 0 (inject_Z w) ltac:(lra)) as [? ?].
  pose proof (clamp_bounds y 0 (inject_Z h) ltac:(lra)) as [? ?].
  destruct (Qltb x 0) eqn:Ex0; destruct (Qltb (inject_Z w) x) eqn:Exw;
    destruct (Qltb y 0) eqn:Ey0; destruct (Qltb (inject_Z h) y) eqn:Eyh;
    simpl; unfold Spec.inside; simpl;
    try apply Qltb_false in Ex0; try apply Qltb_false in Exw;
    try apply Qltb_false in Ey0; try apply Qltb_false in Eyh;
    split_and!; done.
Qed.

(** X8. At the end of every [step] every particle lies on the surface as
    the step found it: [0 <= x <= w] and [0 <= y <= h], with [w] and [h]
    the size of the canvas and 1 at least. *)
Theorem particles_stay_inside c s :
  ParticleField.palette s <> [] ->
  exists c' s',
    ParticleField.step c s = Ok (c', s') /\
    Forall (Spec.inside (Z.max 1 (Canvas.winfo_width c)) (Z.max 1 (Canvas.winfo_height c)))
           (ParticleField.particles s').
Proof.
  intros Hpal.
  destruct (step_spec c s Hpal) as (c' & s' & Hstep & _).
  exists c', s'. split; [exact Hstep |].
  eapply step_establishes; [| | | exact Hstep].
  - intros p g. apply move_inside; lia.
  - intros p i Hp. exact Hp.
  - intros p i Hp. exact Hp.
Qed.

Lemma move_hue_idx (w h : Z) p (g : G) :
  Particle.hue_idx (ParticleField.move w h p g).1 = Particle.hue_idx p.
Proof.
  unfold ParticleField.move.
  destruct (random g) as [u1 g1]. destruct (random g1) as [u2 g2].
  destruct (random g2) as [u3 g3].
  destruct (Qltb _ 0 || Qltb (inject_Z w) _);
    destruct (Qltb _ 0 || Qltb (inject_Z h) _); reflexivity.
Qed.

(** A step keeps what [_spawn] establishes and [move] and [_render] keep. *)
Lemma step_preserves `{!PyRandomSpec G} (P : Particle.t -> Prop) c s c' s' :
  ParticleField.palette s <> [] ->
  (forall p, Spec.fresh (Z.max 1 (Canvas.winfo_width c)) (Z.max 1 (Canvas.winfo_height c))
               (Z.of_nat (length (ParticleField.palette s))) p -> P p) ->
  (forall p g, P p -> P (ParticleField.move (Z.max 1 (Canvas.winfo_width c))
                           (Z.max 1 (Canvas.winfo_height c)) p g).1) ->
  (forall p i, P p -> P (Particle.set_item i p)) ->
  (forall p, P p ->
     P (Particle.set_hue_idx
          ((Particle.hue_idx p + 1) mod Z.of_nat (length (ParticleField.palette s))) p)) ->
  Forall P (ParticleField.particles s) ->
  ParticleField.step c s = Ok (c', s') ->
  Forall P (ParticleField.particles s').
Proof.
  intros Hpal Hfresh Hmove Hitem Hhue Hall Hstep.
  unfold ParticleField.step in Hstep.
  destruct (ParticleField.advance c s) as [[c1 s1] | e] eqn:Hadv; [| discriminate Hstep].
  simpl in Hstep.
  destruct (evict_spec c1 s1) as (c2 & s2 & Hev & Hps & _).
  rewrite Hev in Hstep. injection Hstep as <- <-.
  rewrite Hps. apply Forall_drop.
  unfold ParticleField.advance in Hadv.
  set (w := Z.max 1 (Canvas.winfo_width c)) in *.
  set (h := Z.max 1 (Canvas.winfo_height c)) in *.
  assert (exists s0,
    (if 0 <? ParticleField._boost s
     then ParticleField._spawn c (Z.min 8 (ParticleField._boost s))
            (ParticleField.set_boost
               (ParticleField._boost s - Z.min 8 (ParticleField._boost s)) s)
     else mret s) = Ok s0 /\
    ParticleField.palette s0 = ParticleField.palette s /\
    Forall P (ParticleField.particles s0)) as (s0 & Hsp & Hp0 & Hall0).
  { destruct (0 <? ParticleField._boost s).
    - unfold ParticleField._spawn. fold w h.
      destruct (spawn_loop_fresh w h (Z.to_nat (Z.min 8 (ParticleField._boost s)))
                  (ParticleField.set_boost
                     (ParticleField._boost s - Z.min 8 (ParticleField._boost s)) s))
        as (s0 & new & Hrun & Hps0 & _ & Hnew); [lia | lia | done |].
      destruct (spawn_loop_ok w h (Z.to_nat (Z.min 8 (ParticleField._boost s)))
                  (ParticleField.set_boost
                     (ParticleField._boost s - Z.min 8 (ParticleField._boost s)) s) Hpal)
        as (s0' & Hrun' & Hpal0 & _).
      rewrite Hrun in Hrun'. injection Hrun' as <-.
      exists s0. split; [done |]. split; [done |].
      rewrite Hps0. apply Forall_app. split; [done |].
      eapply Forall_impl; [exact Hnew |]. exact Hfresh.
    - exists s. split_and!; done. }
  rewrite Hsp in Hadv. simpl in Hadv.
  pose proof (move_all_Forall P P w h (ParticleField.particles s0)
                (ParticleField._rng s0) (fun p g Hp => Hmove p g Hp) Hall0) as Hmoved.
  destruct (ParticleField.move_all w h (ParticleField.particles s0) (ParticleField._rng s0))
    as [ps g].
  unfold ParticleField._render in Hadv. simpl in Hadv.
  destruct (ParticleField.render_all (ParticleField.palette s0) ps c g)
    as [[[ps' c3] g3] | e] eqn:Hr; [| discriminate Hadv].
  simpl in Hadv. injection Hadv as <- <-. simpl.
  eapply render_all_Forall; [exact Hitem | | exact Hr | exact Hmoved].
  rewrite Hp0. exact Hhue.
Qed.

Lemma run_hue_valid `{!PyRandomSpec G} (ops : list ParticleField.Op) c s :
  ParticleField.palette s <> [] ->
  Forall (Spec.hue_valid (Z.of_nat (length (ParticleField.palette s))))
         (ParticleField.particles s) ->
  exists c' s',
    ParticleField.run ops c s = Ok (c', s') /\
    ParticleField.palette s' = ParticleField.palette s /\
    Forall (Spec.hue_valid (Z.of_nat (length (ParticleField.palette s))))
           (ParticleField.particles s').
Proof.
  revert c s. induction ops as [| op ops IH]; intros c s Hpal Hall.
  - exists c, s. split_and!; done.
  - destruct op as [amt | | w h]; simpl.
    + destruct (IH c (ParticleField.boost amt s) Hpal Hall) as (c' & s' & -> & Hp & Hv).
      exists c', s'. split_and!; done.
    + destruct (step_spec c s Hpal) as (c1 & s1 & Hstep & Hp1 & _).
      assert (Forall (Spec.hue_valid (Z.of_nat (length (ParticleField.palette s))))
                (ParticleField.particles s1)) as Hall1.
      { eapply step_preserves; [exact Hpal | | | | | exact Hall | exact Hstep].
        - intros p (_ & Hhue & _). exact Hhue.
        - intros p g Hp. unfold Spec.hue_valid. by rewrite move_hue_idx.
        - intros p i Hp. exact Hp.
        - intros p _. unfold Spec.hue_valid. simpl. apply Z.mod_pos_bound.
          destruct (ParticleField.palette s); [done | rewrite length_cons; lia]. }
      rewrite Hstep. simpl.
      destruct (IH c1 s1) as (c' & s' & -> & Hp & Hv).
      { by rewrite Hp1. }
      { by rewrite Hp1. }
      exists c', s'. rewrite Hp1 in Hp, Hv. split_and!; done.
    + destruct (IH (Canvas.resize w h c) s Hpal Hall) as (c' & s' & -> & Hp & Hv).
      exists c', s'. split_and!; done.
Qed.

(** X9. In every state a particle field reaches from [__init__] by boosts,
    steps and changes of the canvas size, the palette is the one it was
    given and the palette index of every particle names one of its
    colours. *)
Theorem hue_index_valid `{!PyRandomSpec G} (pal : list string) (c0 c : Canvas.t)
    (ops : list ParticleField.Op) :
  pal <> [] ->
  exists s0 c' s',
    ParticleField.__init__ (G := G) c0 pal = Ok s0 /\
    ParticleField.run ops c s0 = Ok (c', s') /\
    ParticleField.palette s' = pal /\
    Forall (Spec.hue_valid (Z.of_nat (length pal))) (ParticleField.particles s').
Proof.
  intros Hpal.
  destruct (init_fresh c0 pal Hpal) as (s0 & Hinit & _ & Hfresh).
  destruct (init_spec c0 pal Hpal) as (s0' & Hinit' & Hp0 & _).
  rewrite Hinit in Hinit'. injection Hinit' as <-.
  destruct (run_hue_valid ops c s0) as (c' & s' & Hrun & Hp & Hv).
  { by rewrite Hp0. }
  { rewrite Hp0. eapply Forall_impl; [exact Hfresh |]. intros p (_ & Hhue & _). exact Hhue. }
  exists s0, c', s'. rewrite Hp0 in Hp, Hv. split_and!; done.
Qed.

Lemma drained_spec (ops : list ParticleField.Op) c s :
  ParticleField.palette s <> [] ->
  0 <= ParticleField._boost s ->
  exists d c' s',
    Spec.drained ops c s = Ok d /\
    ParticleField.run ops c s = Ok (c', s') /\
    ParticleField._boost s' + d = ParticleField._boost s + Spec.boosted ops /\
    0 <= ParticleField._boost s' /\
    0 <= d.
Proof.
  revert c s. induction ops as [| op ops IH]; intros c s Hpal Hb.
  - exists 0, c, s. simpl. split_and!; try done; lia.
  - destruct op as [amt | | w h]; simpl.
    + destruct (IH c (ParticleField.boost amt s) Hpal) as (d & c' & s' & -> & -> & Hsum & ? & ?).
      { simpl. lia. }
      exists d, c', s'. simpl in Hsum. split_and!; try done; lia.
    + destruct (step_spec c s Hpal) as (c1 & s1 & -> & Hp1 & Hb1 & Hc1 & _). simpl.
      pose proof (drain_range s). pose proof (drain_le_boost s Hb).
      destruct (IH c1 s1) as (d & c' & s' & -> & -> & Hsum & ? & ?);
        [by rewrite Hp1 | lia |].
      simpl. do 3 eexists. split; [reflexivity |]. split; [reflexivity |].
      split_and!; lia.
    + destruct (IH (Canvas.resize w h c) s Hpal Hb) as (d & c' & s' & -> & -> & Hsum & ? & ?).
      exists d, c', s'. split_and!; done.
Qed.

(** X10. Boosts are neither lost nor made up, however they are interleaved
    with steps: from a new field, what the steps of a run have added to
    the particle list and what is still pending add up to the non-negative
    amounts boosted; a negative amount counts for nothing and the pending
    boost is never negative. *)
Theorem boost_conserved (pal : list string) (c0 c : Canvas.t) (ops : list ParticleField.Op) :
  pal <> [] ->
  exists s0 d c' s',
    ParticleField.__init__ (G := G) c0 pal = Ok s0 /\
    Spec.drained ops c s0 = Ok d /\
    ParticleField.run ops c s0 = Ok (c', s') /\
    ParticleField._boost s' + d = Spec.boosted ops /\
    0 <= ParticleField._boost s' /\
    0 <= d.
Proof.
  intros Hpal.
  destruct (init_spec c0 pal Hpal) as (s0 & Hinit & Hp0 & Hb0 & _).
  destruct (drained_spec ops c s0) as (d & c' & s' & Hd & Hrun & Hsum & ? & ?);
    [by rewrite Hp0 | lia |].
  exists s0, d, c', s'. split_and!; try done. lia.
Qed.

End particle_field_more.

(** ** [src/core/effects.py] : more on the glow pulse *)

Section glow_pulse_more.
Context {G : Type} `{PyRandom G}.

Implicit Types (s : GlowPulse.t G) (c : Canvas.t) (p : Pulse.t).

Lemma py_max_spec (k a : Q) :
  (k <= GlowPulse.py_max k a)%Q /\ (a <= GlowPulse.py_max k a)%Q /\
  (GlowPulse.py_max k a = k \/ GlowPulse.py_max k a = a) /\
  ((a <= k)%Q -> GlowPulse.py_max k a = k).
Proof.
  unfold GlowPulse.py_max. destruct (Qltb k a) eqn:E.
  - apply Qltb_true in E. split_and!; try lra; try (by right); intros; lra.
  - apply Qltb_false in E. split_and!; try lra; try (by left); done.
Qed.

(** X11. [kick] raises the pending energy to the strength given when that
    is more, and changes nothing when it is not: the energy after it is
    the larger of the two, never less than before, and two kicks leave the
    same energy in either order.  The rings are not touched. *)
Theorem kick_is_max (a b : Q) s :
  (GlowPulse._kick s <= GlowPulse._kick (GlowPulse.kick a s))%Q /\
  (a <= GlowPulse._kick (GlowPulse.kick a s))%Q /\
  (GlowPulse._kick (GlowPulse.kick a s) = GlowPulse._kick s \/
   GlowPulse._kick (GlowPulse.kick a s) = a) /\
  ((a <= GlowPulse._kick s)%Q -> GlowPulse._kick (GlowPulse.kick a s) = GlowPulse._kick s) /\
  GlowPulse.pulses (GlowPulse.kick a s) = GlowPulse.pulses s /\
  (GlowPulse._kick (GlowPulse.kick a (GlowPulse.kick b s))
   == GlowPulse._kick (GlowPulse.kick b (GlowPulse.kick a s)))%Q.
Proof.
  change (GlowPulse._kick (GlowPulse.kick a (GlowPulse.kick b s)))
    with (GlowPulse.py_max (GlowPulse.py_max (GlowPulse._kick s) b) a).
  change (GlowPulse._kick (GlowPulse.kick b (GlowPulse.kick a s)))
    with (GlowPulse.py_max (GlowPulse.py_max (GlowPulse._kick s) a) b).
  change (GlowPulse._kick (GlowPulse.kick a s))
    with (GlowPulse.py_max (GlowPulse._kick s) a).
  generalize (GlowPulse._kick s). intros k.
  destruct (py_max_spec k a) as (? & ? & Ha & ?).
  destruct (py_max_spec k b) as (? & ? & Hb & ?).
  destruct (py_max_spec (GlowPulse.py_max k b) a) as (? & ? & Hba & ?).
  destruct (py_max_spec (GlowPulse.py_max k a) b) as (? & ? & Hab & ?).
  split_and!; try done.
  destruct Ha as [Ha | Ha], Hb as [Hb | Hb], Hba as [Hba | Hba], Hab as [Hab | Hab];
    rewrite ?Hba, ?Hab in *; rewrite ?Ha, ?Hb in *; lra.
Qed.

Lemma maybe_spawn_kick (w h : Z) s :
  (0 <= GlowPulse._kick s)%Q ->
  (0 <= GlowPulse._kick (GlowPulse.maybe_spawn w h s) /\
   GlowPulse._kick (GlowPulse.maybe_spawn w h s) <= GlowPulse._kick s)%Q /\
  (GlowPulse._kick (GlowPulse.maybe_spawn w h s) = GlowPulse._kick s \/
   GlowPulse._kick (GlowPulse.maybe_spawn w h s) = (GlowPulse._kick s * 0.85)%Q).
Proof.
  intros Hk.
  assert (forall strength s0,
            GlowPulse._kick (GlowPulse._spawn w h strength s0) = GlowPulse._kick s0) as Hsp.
  { intros strength s0. unfold GlowPulse._spawn.
    destruct (random (GlowPulse._rng s0)) as [u1 g1].
    destruct (random g1) as [u2 g2]. destruct (random g2) as [u3 g3]. reflexivity. }
  unfold GlowPulse.maybe_spawn.
  destruct (Qltb 0 (GlowPulse._kick s)).
  - destruct (random (GlowPulse._rng s)) as [u g]. destruct (Qltb u 0.20).
    + simpl. rewrite Hsp. simpl. split; [lra | by right].
    + simpl. destruct (random g) as [u' g']. destruct (Qltb u' 0.01).
      * rewrite Hsp. simpl. split; [lra | by left].
      * simpl. split; [lra | by left].
  - destruct (random (GlowPulse._rng s)) as [u g]. destruct (Qltb u 0.01).
    + rewrite Hsp. simpl. split; [lra | by left].
    + simpl. split; [lra | by left].
Qed.

Lemma age_alive (ps : list Pulse.t) :
  Forall (fun p => (0 < Pulse.life p)%Q) (GlowPulse.age ps).
Proof.
  induction ps as [| p ps IH]; simpl; [constructor |].
  destruct (Qltb 0 (Pulse.life p - 0.02)) eqn:E; [| done].
  constructor; [| done]. simpl. by apply Qltb_true.
Qed.

Lemma glow_render_life (pal : list string) (i : Z) (ps ps' : list Pulse.t) c c' :
  GlowPulse.render_from pal i ps c = Ok (ps', c') ->
  Forall (fun p => (0 < Pulse.life p)%Q) ps ->
  Forall (fun p => (0 < Pulse.life p)%Q) ps'.
Proof.
  revert i ps' c c'. induction ps as [| p ps IH]; intros i ps' c c' Hrun Hall; simpl in Hrun.
  - injection Hrun as <- <-. constructor.
  - inversion Hall as [| ? ? Hp Hps]; subst.
    destruct (GlowPulse.render_one pal i p c) as [[p1 c1] | e] eqn:Hone;
      [| discriminate Hrun].
    simpl in Hrun.
    destruct (GlowPulse.render_from pal (i + 1) ps c1) as [[ps1 c2] | e] eqn:Hrest;
      [| discriminate Hrun].
    simpl in Hrun. injection Hrun as <- <-.
    constructor; [| by eapply IH].
    unfold GlowPulse.render_one in Hone.
    destruct (py_mod i (Z.of_nat (length pal))) as [k | e]; [| discriminate Hone].
    simpl in Hone.
    destruct (py_getitem pal k) as [col | e]; [| discriminate Hone]. simpl in Hone.
    destruct (Pulse.item p =? -1).
    + unfold Canvas.create_oval, Canvas.create in Hone. injection Hone as <- _. done.
    + injection Hone as <- _. done.
Qed.

(** X12. At the end of every [step] of a glow pulse every ring of the list
    has life left and a visual, and the pending energy is what it was or
    0.85 of it: a step never raises it and never makes it negative. *)
Theorem glow_step_alive c s :
  GlowPulse.palette s <> [] ->
  (0 <= GlowPulse._kick s)%Q ->
  exists c' s',
    GlowPulse.step c s = Ok (c', s') /\
    Forall (fun p => (0 < Pulse.life p)%Q /\ Pulse.item p <> -1) (GlowPulse.pulses s') /\
    (0 <= GlowPulse._kick s' /\ GlowPulse._kick s' <= GlowPulse._kick s)%Q /\
    (GlowPulse._kick s' = GlowPulse._kick s \/
     GlowPulse._kick s' = (GlowPulse._kick s * 0.85)%Q).
Proof.
  intros Hpal Hk. unfold GlowPulse.step.
  destruct (glow_advance_spec c s Hpal) as (c1 & s1 & Hadv & _ & _ & Hitems).
  rewrite Hadv. simpl.
  assert (Forall (fun p => (0 < Pulse.life p)%Q) (GlowPulse.pulses s1) /\
          GlowPulse._kick s1
          = GlowPulse._kick (GlowPulse.maybe_spawn (Z.max 1 (Canvas.winfo_width c))
                               (Z.max 1 (Canvas.winfo_height c)) s)) as [Hlife Hkick].
  { unfold GlowPulse.advance, GlowPulse._render in Hadv. simpl in Hadv.
    destruct (GlowPulse.render_from _ 0 _ c) as [[ps' c'] | e] eqn:Hr; [| discriminate Hadv].
    simpl in Hadv. injection Hadv as <- <-. simpl. split; [| done].
    eapply glow_render_life; [exact Hr | apply age_alive]. }
  destruct (cap_spec c1 s1) as (Hps & _ & _ & _).
  assert (GlowPulse._kick (GlowPulse.cap c1 s1).2 = GlowPulse._kick s1) as Hcap.
  { unfold GlowPulse.cap. destruct (8 <? length (GlowPulse.pulses s1))%nat; reflexivity. }
  destruct (GlowPulse.cap c1 s1) as [c2 s2]. simpl in *.
  exists c2, s2. split; [done |].
  pose proof (maybe_spawn_kick (Z.max 1 (Canvas.winfo_width c))
                (Z.max 1 (Canvas.winfo_height c)) s Hk) as [Hrange His].
  rewrite Hcap, Hkick. split_and!; try done; try apply Hrange.
  rewrite Hps. apply Forall_drop.
  apply Forall_forall. intros p Hin. split.
  - by apply (proj1 (Forall_forall _ _) Hlife).
  - by apply (proj1 (Forall_forall _ _) Hitems).
Qed.

(** X13. With an empty palette a [step] of a glow pulse fails as soon as
    it has a ring to draw: [_render] divides by the length of the palette.
    The step raises [ZeroDivisionError], or ends with no ring and the
    canvas as it was. *)
Theorem glow_empty_palette c s :
  GlowPulse.palette s = [] ->
  GlowPulse.step c s = Raise ZeroDivisionError \/
  exists s', GlowPulse.step c s = Ok (c, s') /\ GlowPulse.pulses s' = [].
Proof.
  intros Hpal. unfold GlowPulse.step, GlowPulse.advance, GlowPulse._render.
  set (s1 := GlowPulse.maybe_spawn _ _ s).
  assert (GlowPulse.palette s1 = []) as Hp1.
  { subst s1. by rewrite (proj1 (maybe_spawn_spec _ _ s)). }
  simpl. rewrite Hp1.
  destruct (GlowPulse.age (GlowPulse.pulses s1)) as [| p ps].
  - right. simpl. eexists. split; reflexivity.
  - left. reflexivity.
Qed.

End glow_pulse_more.

(** ** [src/ui/credits.py] : more on the overlay *)

Section credits_more.

Implicit Types (s : CreditsOverlay.t) (c : Canvas.t).

(** X14. A session changes no credit line but the 13th: after [show] and
    any number of frames the overlay has its 15 line items, and every one
    of them but the 13th reads as [_credits_lines] has it. *)
Theorem credits_other_lines_kept (now0 now1 : Q) (rest : list Q) s :
  exists s',
    CreditsOverlay.session now0 now1 rest s = Ok s' /\
    CreditsOverlay._running s' = true /\
    length (CreditsOverlay._scroll_ids s') = 15%nat /\
    (forall (i : nat) (id : Z) (text : string),
       i <> 12%nat ->
       CreditsOverlay._scroll_ids s' !! i = Some id ->
       CreditsOverlay._credits_lines !! i = Some text ->
       Canvas.itemcget_text id (CreditsOverlay.canvas s') = Ok text).
Proof.
  destruct (session_spec now0 now1 rest s) as (s' & Hrun & Hs).
  destruct Hs as (Hrunning & _ & _ & _ & Hshows & _).
  exists s'. split; [exact Hrun |]. split; [exact Hrunning |].
  destruct Hshows as (Hitems & _ & _).
  apply Forall2_same_length_lookup in Hitems as [Hlen Hitems].
  split.
  - rewrite Hlen. destruct (existsb _ _); [| reflexivity].
    unfold CreditsOverlay.revealed_lines. by rewrite length_insert.
  - intros i id text Hi Hid Htext.
    unfold Canvas.itemcget_text.
    rewrite (Hitems i id text Hid); [done |].
    destruct (existsb _ _); [| exact Htext].
    unfold CreditsOverlay.revealed_lines. by rewrite list_lookup_insert_ne.
Qed.

Lemma wf_fresh c : CanvasSpec.wf c -> Canvas.items c !! Z.pos (Canvas.next_id c) = None.
Proof.
  intros Hwf. destruct (Canvas.items c !! Z.pos (Canvas.next_id c)) as [it |] eqn:E; [| done].
  apply Hwf in E. lia.
Qed.

Lemma wf_create (it : Canvas.Item) c :
  CanvasSpec.wf c -> CanvasSpec.wf (Canvas.create it c).2.
Proof.
  intros Hwf id it' Hid. unfold Canvas.create in *. simpl in *.
  rewrite Pos2Z.inj_succ.
  destruct (decide (Z.pos (Canvas.next_id c) = id)) as [<- | Hne]; [lia |].
  rewrite lookup_insert_ne in Hid by done. apply Hwf in Hid. lia.
Qed.

Lemma census_create_plain (it : Canvas.Item) c (n k : nat) :
  CanvasSpec.census c n k -> Canvas.tags it = [] ->
  CanvasSpec.census (Canvas.create it c).2 (S n) (S k).
Proof.
  intros (Hwf & Hn & Hk) Htags. pose proof (wf_fresh c Hwf) as Hfresh.
  unfold Canvas.create, CanvasSpec.census, CanvasSpec.without_tag in *. simpl.
  split_and!.
  - by apply (wf_create it c).
  - by rewrite map_size_insert_None, Hn.
  - rewrite map_filter_insert_True.
    + rewrite map_size_insert_None, Hk; [done |].
      apply map_lookup_filter_None. by left.
    + simpl. rewrite Htags. apply not_elem_of_nil.
Qed.

Lemma census_create_bg (it : Canvas.Item) c (n k : nat) :
  CanvasSpec.census c n k -> "bg" ∈ Canvas.tags it ->
  CanvasSpec.census (Canvas.create it c).2 (S n) k.
Proof.
  intros (Hwf & Hn & Hk) Htags. pose proof (wf_fresh c Hwf) as Hfresh.
  unfold Canvas.create, CanvasSpec.census, CanvasSpec.without_tag in *. simpl.
  split_and!.
  - by apply (wf_create it c).
  - by rewrite map_size_insert_None, Hn.
  - rewrite map_filter_insert_not'; [done | by intros Hnot; apply Hnot |].
    intros y Hy. congruence.
Qed.

Lemma census_delete_bg c (n k : nat) :
  CanvasSpec.census c n k -> CanvasSpec.census (Canvas.delete_tag "bg" c) k k.
Proof.
  intros (Hwf & Hn & Hk).
  unfold Canvas.delete_tag, Canvas.update, CanvasSpec.census, CanvasSpec.without_tag in *.
  simpl. split_and!.
  - intros id it Hid. apply map_lookup_filter_Some in Hid as [Hid _]. by apply Hwf in Hid.
  - exact Hk.
  - rewrite map_filter_id; [exact Hk |].
    intros i x Hx. by apply map_lookup_filter_Some in Hx as [_ Hx].
Qed.

Lemma census_same c c' (n k : nat) :
  CanvasSpec.census c n k ->
  Canvas.items c' = Canvas.items c ->
  Canvas.next_id c' = Canvas.next_id c ->
  CanvasSpec.census c' n k.
Proof.
  intros (Hwf & Hn & Hk) Hi Hnext.
  unfold CanvasSpec.census, CanvasSpec.without_tag, CanvasSpec.wf in *.
  rewrite Hi, Hnext. split_and!; done.
Qed.

Lemma census_update (call : Canvas.Call) c (n k : nat) :
  CanvasSpec.census c n k -> CanvasSpec.census (Canvas.update call (fun m => m) c) n k.
Proof. intros Hc. by eapply census_same. Qed.

Lemma census_text (id : Z) (text : string) c (n k : nat) :
  CanvasSpec.census c n k -> CanvasSpec.census (Canvas.itemconfigure_text id text c) n k.
Proof.
  intros (Hwf & Hn & Hk).
  unfold Canvas.itemconfigure_text, Canvas.update, CanvasSpec.census,
    CanvasSpec.without_tag, CanvasSpec.wf in *. simpl.
  set (f := fun it => Canvas.mkItem (Canvas.kind it) text (Canvas.tags it)).
  split_and!.
  - intros i it Hi.
    destruct (decide (id = i)) as [<- | Hne].
    + rewrite lookup_alter_eq in Hi.
      destruct (Canvas.items c !! id) as [it0 |] eqn:E; [| discriminate Hi].
      by apply Hwf in E.
    + rewrite lookup_alter_ne in Hi by done. by apply Hwf in Hi.
  - by rewrite <- Hn, <- !(size_dom (D := gset Z)), dom_alter_L.
  - rewrite <- Hk, <- !(size_dom (D := gset Z)). f_equal.
    apply set_eq. intros i. rewrite !elem_of_dom. unfold is_Some.
    setoid_rewrite map_lookup_filter_Some. simpl.
    destruct (decide (id = i)) as [<- | Hne].
    + rewrite lookup_alter_eq.
      destruct (Canvas.items c !! id) as [it0 |] eqn:E; simpl.
      * split; intros (x & Hx & Ht).
        -- injection Hx as <-. by exists it0.
        -- injection Hx as <-. by exists (f it0).
      * split; intros (x & Hx & _); discriminate Hx.
    + rewrite lookup_alter_ne by done. done.
Qed.

Lemma census_create_bands (m : nat) c (n k : nat) :
  CanvasSpec.census c n k ->
  CanvasSpec.census (CreditsOverlay.create_bands m c) (m + n) k.
Proof.
  revert c n. induction m as [| m IH]; intros c n Hc; simpl; [done |].
  replace (S (m + n)) with (m + S n)%nat by lia. apply IH.
  unfold Canvas.create_rectangle. apply census_create_bg; [done |].
  simpl. apply list_elem_of_here.
Qed.

Lemma census_create_lines (lines : list string) c (n k : nat) :
  CanvasSpec.census c n k ->
  CanvasSpec.census (CreditsOverlay.create_lines lines c).2
    (length lines + n) (length lines + k).
Proof.
  revert c n k. induction lines as [| line lines IH]; intros c n k Hc; [done |].
  cbn [CreditsOverlay.create_lines length]. unfold Canvas.create_text.
  pose proof (census_create_plain (Canvas.mkItem Canvas.KText line []) c n k Hc eq_refl)
    as Hc1.
  destruct (Canvas.create (Canvas.mkItem Canvas.KText line []) c) as [id c1].
  specialize (IH c1 (S n) (S k) Hc1).
  destruct (CreditsOverlay.create_lines lines c1) as [ids c2]. cbn [fst snd] in *.
  replace (S (length lines) + n)%nat with (length lines + S n)%nat by lia.
  replace (S (length lines) + k)%nat with (length lines + S k)%nat by lia.
  exact IH.
Qed.

Lemma census_setup_scene s :
  CanvasSpec.census (CreditsOverlay.canvas (CreditsOverlay._setup_scene s)) 17 17.
Proof.
  unfold CreditsOverlay._setup_scene.
  assert (CanvasSpec.census (Canvas.delete_all (CreditsOverlay.canvas s)) 0 0) as Hc0.
  { unfold CanvasSpec.census, CanvasSpec.without_tag, CanvasSpec.wf. simpl.
    rewrite map_filter_empty, map_size_empty.
    split_and!; try done; intros id it Hid; by rewrite lookup_empty in Hid. }
  unfold Canvas.create_text.
  pose proof (census_create_plain
                (Canvas.mkItem Canvas.KText (CreditsOverlay.company_name s) []) _ 0 0 Hc0
                eq_refl) as Hc1.
  destruct (Canvas.create _ (Canvas.delete_all (CreditsOverlay.canvas s))) as [title c1].
  cbn [snd] in Hc1.
  pose proof (census_create_plain
                (Canvas.mkItem Canvas.KText "credits sequence • click or press ESC to close" [])
                c1 1 1 Hc1 eq_refl) as Hc2.
  destruct (Canvas.create _ c1) as [sub c2]. cbn [snd] in Hc2.
  pose proof (census_create_lines CreditsOverlay._credits_lines c2 2 2 Hc2) as Hc3.
  destruct (CreditsOverlay.create_lines CreditsOverlay._credits_lines c2) as [ids c3].
  cbn [snd] in Hc3. exact Hc3.
Qed.

Lemma census_place_lines (ids : list Z) c (n k : nat) :
  CanvasSpec.census c n k -> CanvasSpec.census (CreditsOverlay.place_lines ids c) n k.
Proof.
  revert c. induction ids as [| id ids IH]; intros c Hc; simpl; [done |].
  apply IH. unfold Canvas.coords. by apply census_update.
Qed.

Lemma census_fade_lines (ids : list Z) c c' (n k : nat) :
  CreditsOverlay.fade_lines ids c = Ok c' ->
  CanvasSpec.census c n k -> CanvasSpec.census c' n k.
Proof.
  revert c. induction ids as [| id ids IH]; intros c Hrun Hc; simpl in Hrun.
  - by injection Hrun as <-.
  - destruct (Canvas.get_coords id c); [| discriminate Hrun]. simpl in Hrun.
    eapply IH; [exact Hrun |]. unfold Canvas.itemconfigure_fill. by apply census_update.
Qed.

Lemma census_swap_first (ids : list Z) (line : string) c c' (n k : nat) :
  CreditsOverlay.swap_first ids line c = Ok c' ->
  CanvasSpec.census c n k -> CanvasSpec.census c' n k.
Proof.
  induction ids as [| id ids IH]; intros Hrun Hc; simpl in Hrun.
  - by injection Hrun as <-.
  - destruct (Canvas.itemcget_text id c) as [text | e]; [| discriminate Hrun].
    simpl in Hrun. destruct (CreditsOverlay.reads_redacted text).
    + injection Hrun as <-. by apply census_text.
    + by apply IH.
Qed.

Lemma census_paint s sC (n : nat) :
  CreditsOverlay._scroll_credits
    (CreditsOverlay._animate_title (CreditsOverlay._paint_background s)) = Ok sC ->
  CanvasSpec.census (CreditsOverlay.canvas s) n 17 ->
  CanvasSpec.census (CreditsOverlay.canvas sC) 31 17 /\
  CreditsOverlay._running sC = CreditsOverlay._running s.
Proof.
  intros Hrun Hc.
  assert (CanvasSpec.census
            (CreditsOverlay.canvas (CreditsOverlay._paint_background s)) 31 17) as HcA.
  { unfold CreditsOverlay._paint_background.
    cbn [CreditsOverlay.canvas CreditsOverlay.set_canvas].
    unfold Canvas.tag_lower. apply census_update.
    apply (census_create_bands 14 _ 17 17). by eapply census_delete_bg. }
  assert (CreditsOverlay._running (CreditsOverlay._paint_background s)
          = CreditsOverlay._running s) as HrA by reflexivity.
  revert Hrun HcA HrA. generalize (CreditsOverlay._paint_background s). intros sA Hrun HcA HrA.
  assert (CanvasSpec.census (CreditsOverlay.canvas (CreditsOverlay._animate_title sA)) 31 17 /\
          CreditsOverlay._running (CreditsOverlay._animate_title sA)
          = CreditsOverlay._running sA) as [HcB HrB].
  { unfold CreditsOverlay._animate_title.
    destruct (CreditsOverlay._title_id sA) as [title |]; [| done].
    destruct (CreditsOverlay._sub_id sA) as [sub |];
      cbn [CreditsOverlay.canvas CreditsOverlay.set_canvas CreditsOverlay._running];
      (split; [| done]).
    - unfold Canvas.coords. by do 2 apply census_update.
    - unfold Canvas.coords. by apply census_update. }
  revert Hrun HcB HrB. generalize (CreditsOverlay._animate_title sA). intros sB Hrun HcB HrB.
  unfold CreditsOverlay._scroll_credits in Hrun.
  destruct (CreditsOverlay.fade_lines _ _) as [cC | e] eqn:Hfade; [| discriminate Hrun].
  cbn [mbind Res_bind mret Res_ret] in Hrun. injection Hrun as <-.
  cbn [CreditsOverlay.canvas CreditsOverlay.set_canvas CreditsOverlay._running].
  split; [| congruence].
  eapply census_fade_lines; [exact Hfade |]. by apply census_place_lines.
Qed.

Lemma census_reveal (t : Q) s s' (n k : nat) :
  CreditsOverlay._reveal_author_if_needed t s = Ok s' ->
  CanvasSpec.census (CreditsOverlay.canvas s) n k ->
  CanvasSpec.census (CreditsOverlay.canvas s') n k /\
  CreditsOverlay._running s' = CreditsOverlay._running s.
Proof.
  intros Hrun Hc. unfold CreditsOverlay._reveal_author_if_needed in Hrun.
  destruct (Qltb _ _).
  - injection Hrun as <-. done.
  - destruct (CreditsOverlay.swap_first _ _ _) as [cD | e] eqn:Hswap; [| discriminate Hrun].
    cbn [mbind Res_bind mret Res_ret] in Hrun. injection Hrun as <-.
    cbn [CreditsOverlay.canvas CreditsOverlay.set_canvas CreditsOverlay._running].
    split; [| done]. by eapply census_swap_first.
Qed.

(** A frame of a running overlay leaves the 14 bands it has just drawn and
    the items without the tag ["bg"], no more. *)
Lemma census_loop (now : Q) s s' (n : nat) :
  CreditsOverlay._running s = true ->
  CreditsOverlay._loop now s = Ok s' ->
  CanvasSpec.census (CreditsOverlay.canvas s) n 17 ->
  CreditsOverlay._running s' = true /\
  CanvasSpec.census (CreditsOverlay.canvas s') 31 17.
Proof.
  intros Hrun Hloop Hc. unfold CreditsOverlay._loop in Hloop.
  rewrite Hrun in Hloop. cbn [negb] in Hloop. cbv zeta in Hloop.
  destruct (CreditsOverlay._scroll_credits _) as [sC | e] eqn:Hpaint; [| discriminate Hloop].
  cbn [mbind Res_bind] in Hloop.
  destruct (census_paint s sC n Hpaint Hc) as [HcC HrC].
  destruct (CreditsOverlay._reveal_author_if_needed _ sC) as [sD | e] eqn:Hrev;
    [| discriminate Hloop].
  cbn [mbind Res_bind] in Hloop.
  destruct (census_reveal _ sC sD 31 17 Hrev HcC) as [HcD HrD].
  destruct (Window.after 16 "_loop" (CreditsOverlay.window sD)) as [job w].
  cbn [mret Res_ret] in Hloop. injection Hloop as <-.
  cbn [CreditsOverlay.canvas CreditsOverlay.set_job CreditsOverlay.set_window
       CreditsOverlay._running].
  split; [congruence | exact HcD].
Qed.

Lemma census_frames (nows : list Q) s s' :
  CreditsOverlay._running s = true ->
  CreditsOverlay.frames nows s = Ok s' ->
  CanvasSpec.census (CreditsOverlay.canvas s) 31 17 ->
  CanvasSpec.census (CreditsOverlay.canvas s') 31 17.
Proof.
  revert s. induction nows as [| now nows IH]; intros s Hrun Hframes Hc; simpl in Hframes.
  - by injection Hframes as <-.
  - destruct (CreditsOverlay._loop now s) as [s1 | e] eqn:Hloop; [| discriminate Hframes].
    simpl in Hframes.
    destruct (census_loop now s s1 31 Hrun Hloop Hc) as [Hrun1 Hc1].
    by eapply IH.
Qed.

Lemma session_unfold (now0 now1 : Q) (rest : list Q) s :
  CreditsOverlay.session now0 now1 rest s
  = CreditsOverlay._loop now1
      (CreditsOverlay._setup_scene
         (CreditsOverlay.set_t0 now0
            (CreditsOverlay.set_running true
               (CreditsOverlay.set_window
                  (Window.grab_set (Window.deiconify (CreditsOverlay.window s))) s))))
    ≫= CreditsOverlay.frames rest.
Proof. reflexivity. Qed.

(** X15. The canvas of the overlay does not grow: after [show] and any
    number of frames it holds 31 items, the 17 texts of the scene and the
    14 background bands of the last frame, the bands of the frames before
    being deleted. *)
Theorem credits_canvas_bounded (now0 now1 : Q) (rest : list Q) s :
  exists s',
    CreditsOverlay.session now0 now1 rest s = Ok s' /\
    size (Canvas.items (CreditsOverlay.canvas s')) = 31%nat /\
    size (CanvasSpec.without_tag "bg" (CreditsOverlay.canvas s')) = 17%nat.
Proof.
  destruct (session_spec now0 now1 rest s) as (s' & Hrun & _).
  exists s'. split; [exact Hrun |].
  rewrite session_unfold in Hrun.
  pose proof (census_setup_scene
                (CreditsOverlay.set_t0 now0
                   (CreditsOverlay.set_running true
                      (CreditsOverlay.set_window
                         (Window.grab_set (Window.deiconify (CreditsOverlay.window s))) s))))
    as Hc1.
  pose proof (proj1 (proj2 (proj2 (setup_scene_spec
                (CreditsOverlay.set_t0 now0
                   (CreditsOverlay.set_running true
                      (CreditsOverlay.set_window
                         (Window.grab_set (Window.deiconify (CreditsOverlay.window s))) s)))))))
    as Hr1.
  cbn [CreditsOverlay._running CreditsOverlay.set_t0 CreditsOverlay.set_running] in Hr1.
  revert Hrun Hc1 Hr1. generalize (CreditsOverlay._setup_scene
                (CreditsOverlay.set_t0 now0
                   (CreditsOverlay.set_running true
                      (CreditsOverlay.set_window
                         (Window.grab_set (Window.deiconify (CreditsOverlay.window s))) s)))).
  intros s1 Hrun Hc1 Hr1.
  destruct (CreditsOverlay._loop now1 s1) as [s2 | e] eqn:Hloop; [| discriminate Hrun].
  cbn [mbind Res_bind] in Hrun.
  destruct (census_loop now1 s1 s2 17 Hr1 Hloop Hc1) as [Hr2 Hc2].
  destruct (census_frames rest s2 s' Hr2 Hrun Hc2) as (_ & Hn & Hk).
  split; done.
Qed.

(** X16. After [close], whether it returned or raised and whatever the
    teardown calls did, the overlay is not running and a frame callback
    that still fires changes nothing.  When the overlay was running and
    [destroy] went through, the window is gone and the canvas in it with
    it: no item is left. *)
Theorem close_stops_frames {A : Type} (on_close_cb : A -> Res unit * A)
    (f : CreditsOverlay.Faults) s (a : A) (nows : list Q) :
  let s' := (CreditsOverlay.close on_close_cb f s a).1.2 in
  CreditsOverlay._running s' = false /\
  CreditsOverlay.frames nows s' = Ok s' /\
  (CreditsOverlay._running s = true -> CreditsOverlay.destroy_raises f = false ->
   Window.alive (CreditsOverlay.window s') = false /\
   Canvas.items (CreditsOverlay.canvas s') = ∅).
Proof.
  assert (forall s0 : CreditsOverlay.t, CreditsOverlay._running s0 = false ->
            CreditsOverlay.frames nows s0 = Ok s0) as Hinert.
  { intros s0 H0. induction nows as [| now nows IH]; simpl; [done |].
    unfold CreditsOverlay._loop. rewrite H0. simpl. exact IH. }
  unfold CreditsOverlay.close.
  destruct (CreditsOverlay._running s) eqn:Hrun; simpl.
  - destruct (on_close_cb a) as [res a']. simpl.
    unfold CreditsOverlay.try_destroy, Window.destroy.
    destruct (CreditsOverlay.destroy_raises f), (CreditsOverlay._job s) as [job |]; simpl;
      (split; [reflexivity |]); (split; [by apply Hinert |]);
      intros _ Hd; done.
  - split; [exact Hrun |]. split; [by apply Hinert | intros Hr; discriminate Hr].
Qed.

End credits_more.

(** ** [src/app.py] : the event loop *)

Section app_more.
Context {G : Type} `{PyRandom G}.

Implicit Types (a : NeuraForgeApp.t G).

Lemma run_demo_spec `{!PyRandomSpec G} (now : Q) a :
  exists a',
    NeuraForgeApp._on_run_demo now a = Ok a' /\
    AppState.runs (NeuraForgeApp.state a') = AppState.runs (NeuraForgeApp.state a) + 1 /\
    AppState.bytes_processed (NeuraForgeApp.state a')
    = AppState.bytes_processed (NeuraForgeApp.state a) + 480 /\
    NeuraForgeApp.window a' = NeuraForgeApp.window a /\
    NeuraForgeApp._tick_job a' = NeuraForgeApp._tick_job a /\
    NeuraForgeApp._fx_job a' = NeuraForgeApp._fx_job a /\
    ParticleField.palette (NeuraForgeApp.particles a')
    = ParticleField.palette (NeuraForgeApp.particles a) /\
    ParticleField.particles (NeuraForgeApp.particles a')
    = ParticleField.particles (NeuraForgeApp.particles a) /\
    GlowPulse.palette (NeuraForgeApp.pulse a') = GlowPulse.palette (NeuraForgeApp.pulse a) /\
    GlowPulse.pulses (NeuraForgeApp.pulse a') = GlowPulse.pulses (NeuraForgeApp.pulse a).
Proof.
  unfold NeuraForgeApp._on_run_demo. cbv zeta.
  match goal with
  | |- context [NeuraForgeApp.workload 120 ?rng 0 []] =>
      destruct (workload_spec 120 rng 0 []) as (total & payload & Hw & Hlen)
  end.
  rewrite Hw. cbn [mbind Res_bind mret Res_ret].
  change (length (@nil Z) + 4 * 120)%nat with 480%nat in Hlen. rewrite Hlen.
  eexists. split; [reflexivity |]. split_and!; reflexivity.
Qed.

Lemma tick_spec (now : Q) a :
  NeuraForgeApp.window (NeuraForgeApp.tick now a)
  = (Window.after 250 "tick" (NeuraForgeApp.window a)).2 /\
  NeuraForgeApp._tick_job (NeuraForgeApp.tick now a)
  = Some (Z.pos (Window.next_job (NeuraForgeApp.window a))) /\
  NeuraForgeApp._fx_job (NeuraForgeApp.tick now a) = NeuraForgeApp._fx_job a /\
  NeuraForgeApp.state (NeuraForgeApp.tick now a) = NeuraForgeApp.state a /\
  NeuraForgeApp.particles (NeuraForgeApp.tick now a) = NeuraForgeApp.particles a /\
  NeuraForgeApp.pulse (NeuraForgeApp.tick now a) = NeuraForgeApp.pulse a.
Proof. split_and!; reflexivity. Qed.

Lemma frame_spec a :
  AppSpec.pools_ok a ->
  exists a',
    NeuraForgeApp.frame a = Ok a' /\
    AppSpec.pools_ok a' /\
    NeuraForgeApp.window a' = (Window.after 16 "frame" (NeuraForgeApp.window a)).2 /\
    NeuraForgeApp._fx_job a' = Some (Z.pos (Window.next_job (NeuraForgeApp.window a))) /\
    NeuraForgeApp._tick_job a' = NeuraForgeApp._tick_job a /\
    NeuraForgeApp.state a' = NeuraForgeApp.state a.
Proof.
  intros (Hp & Hg & _ & _). unfold NeuraForgeApp.frame.
  destruct (step_spec (NeuraForgeApp.canvas a) (NeuraForgeApp.particles a) Hp)
    as (c1 & pf & -> & Hp1 & _ & _ & Hl1 & _).
  cbn [mbind Res_bind].
  destruct (glow_step_spec c1 (NeuraForgeApp.pulse a) Hg) as (c2 & gp & -> & Hg2 & Hl2).
  cbn [mbind Res_bind mret Res_ret].
  eexists. split; [reflexivity |]. split_and!; try reflexivity.
  unfold AppSpec.pools_ok. cbn. split_and!.
  - by rewrite Hp1.
  - by rewrite Hg2.
  - rewrite Hl1. lia.
  - exact Hl2.
Qed.

Lemma fire_spec (job : Z) (now : Q) a :
  AppSpec.two_timers a ->
  AppSpec.pools_ok a ->
  exists a',
    NeuraForgeApp.fire job now a = Ok a' /\
    AppSpec.two_timers a' /\
    AppSpec.pools_ok a' /\
    NeuraForgeApp.state a' = NeuraForgeApp.state a.
Proof.
  intros (tj & fj & Ht & Hf & Hne & Hlt & Hlf & Hts) Hpools.
  unfold NeuraForgeApp.fire.
  assert (forall a1 : NeuraForgeApp.t G,
            NeuraForgeApp.window a1 = Window.expire tj (NeuraForgeApp.window a) ->
            NeuraForgeApp._fx_job a1 = Some fj ->
            AppSpec.two_timers (NeuraForgeApp.tick now a1)) as Htick.
  { intros a1 Hw Hf1.
    destruct (tick_spec now a1) as (Hw' & Ht' & Hf' & _).
    exists (Z.pos (Window.next_job (NeuraForgeApp.window a1))), fj.
    rewrite Hw', Ht', Hf', Hf1, Hw. unfold Window.after, Window.expire. cbn.
    rewrite Pos2Z.inj_succ.
    split_and!; try done; try lia. right.
    destruct Hts as [-> | ->]; cbn;
      rewrite Z.eqb_refl; (destruct (fj =? tj) eqn:E; [lia |]); reflexivity. }
  assert (forall a1 : NeuraForgeApp.t G,
            NeuraForgeApp.window a1 = Window.expire fj (NeuraForgeApp.window a) ->
            NeuraForgeApp._tick_job a1 = Some tj ->
            AppSpec.pools_ok a1 ->
            NeuraForgeApp.state a1 = NeuraForgeApp.state a ->
            exists a', NeuraForgeApp.frame a1 = Ok a' /\ AppSpec.two_timers a' /\
                       AppSpec.pools_ok a' /\
                       NeuraForgeApp.state a' = NeuraForgeApp.state a) as Hframe.
  { intros a1 Hw Ht1 Hp1 Hs1.
    destruct (frame_spec a1 Hp1) as (a' & Hrun & Hp' & Hw' & Hf' & Ht' & Hs').
    exists a'. split; [exact Hrun |]. split_and!; [| exact Hp' | congruence].
    exists tj, (Z.pos (Window.next_job (NeuraForgeApp.window a1))).
    rewrite Hw', Ht', Hf', Ht1, Hw. unfold Window.after, Window.expire. cbn.
    rewrite Pos2Z.inj_succ.
    split_and!; try done; try lia. left.
    destruct Hts as [-> | ->]; cbn;
      rewrite Z.eqb_refl; (destruct (tj =? fj) eqn:E; [lia |]); reflexivity. }
  destruct (decide (job = tj)) as [-> | Hjt]; [| destruct (decide (job = fj)) as [-> | Hjf]].
  - assert (List.find (fun jm => jm.1 =? tj) (Window.timers (NeuraForgeApp.window a))
            = Some (tj, (250, "tick"))) as ->.
    { destruct Hts as [-> | ->]; cbn; rewrite ?Z.eqb_refl; [done |].
      destruct (fj =? tj) eqn:E; [lia | done]. }
    cbn [String.eqb Ascii.eqb Bool.eqb]. cbn.
    eexists. split; [reflexivity |]. split_and!.
    + by apply Htick.
    + exact Hpools.
    + reflexivity.
  - assert (List.find (fun jm => jm.1 =? fj) (Window.timers (NeuraForgeApp.window a))
            = Some (fj, (16, "frame"))) as ->.
    { destruct Hts as [-> | ->]; cbn; rewrite ?Z.eqb_refl; [| done].
      destruct (tj =? fj) eqn:E; [lia | done]. }
    cbn [String.eqb Ascii.eqb Bool.eqb]. cbn.
    by apply Hframe.
  - assert (List.find (fun jm => jm.1 =? job) (Window.timers (NeuraForgeApp.window a))
            = None) as ->.
    { destruct Hts as [-> | ->]; cbn;
        destruct (tj =? job) eqn:E1; destruct (fj =? job) eqn:E2; try lia; done. }
    exists a. split; [reflexivity |]. split_and!; try done.
    by exists tj, fj.
Qed.

Lemma app_init_spec (now : Q) (width height : Z) (banner : list string) :
  exists a0,
    NeuraForgeApp.__init__ (G := G) now width height banner = Ok a0 /\
    AppSpec.two_timers a0 /\
    AppSpec.pools_ok a0 /\
    AppState.runs (NeuraForgeApp.state a0) = 0 /\
    AppState.bytes_processed (NeuraForgeApp.state a0) = 0.
Proof.
  unfold NeuraForgeApp.__init__.
  destruct (init_spec (G := G) (Canvas.mk width height 1%positive ∅ [])
              Colors.particle_palette ltac:(discriminate))
    as (pf & -> & Hp & _ & Hl).
  cbn [mbind Res_bind mret Res_ret].
  eexists. split; [reflexivity |]. split_and!; try reflexivity.
  - exists 1, 2. cbn. split_and!; try done. by left.
  - unfold AppSpec.pools_ok. cbn. rewrite Hp, Hl. split_and!; try done; lia.
Qed.

Lemma events_spec `{!PyRandomSpec G} (evs : list (AppSpec.Event)) a :
  AppSpec.two_timers a ->
  AppSpec.pools_ok a ->
  exists a',
    AppSpec.events evs a = Ok a' /\
    AppSpec.two_timers a' /\
    AppSpec.pools_ok a' /\
    AppState.runs (NeuraForgeApp.state a')
    = AppState.runs (NeuraForgeApp.state a) + AppSpec.clicks evs /\
    AppState.bytes_processed (NeuraForgeApp.state a')
    = AppState.bytes_processed (NeuraForgeApp.state a) + 480 * AppSpec.clicks evs.
Proof.
  revert a. induction evs as [| ev evs IH]; intros a Ht Hp.
  - exists a. cbn. split_and!; try done; lia.
  - destruct ev as [job now | now]; cbn [AppSpec.events AppSpec.handle AppSpec.clicks].
    + destruct (fire_spec job now a Ht Hp) as (a1 & -> & Ht1 & Hp1 & Hs1).
      cbn [mbind Res_bind].
      destruct (IH a1 Ht1 Hp1) as (a' & -> & Ht' & Hp' & Hr & Hb).
      exists a'. rewrite Hs1 in Hr, Hb. split_and!; done.
    + destruct (run_demo_spec now a)
        as (a1 & -> & Hr1 & Hb1 & Hw1 & Htj & Hfj & Hpp & Hps & Hgp & Hgs).
      cbn [mbind Res_bind].
      destruct (IH a1) as (a' & -> & Ht' & Hp' & Hr & Hb).
      { destruct Ht as (tj & fj & ?). exists tj, fj. by rewrite Hw1, Htj, Hfj. }
      { destruct Hp as (? & ? & ? & ?). unfold AppSpec.pools_ok.
        by rewrite Hpp, Hps, Hgp, Hgs. }
      exists a'. split_and!; try done; lia.
Qed.

(** X17. Whatever timers fire and however often Run Demo is clicked, in
    any order, the application goes on without an exception.  The stats
    timer (250 ms) and the effects timer (16 ms) stay pending, each once,
    under the ids the application remembers.  The particle list stays
    within 160 and the ring list within 8, and the counters read one run
    and 480 bytes per click. *)
Theorem app_event_loop `{!PyRandomSpec G} (now : Q) (width height : Z)
    (banner : list string) (evs : list AppSpec.Event) :
  exists a0 a,
    NeuraForgeApp.__init__ (G := G) now width height banner = Ok a0 /\
    AppSpec.events evs a0 = Ok a /\
    AppSpec.two_timers a /\
    (length (ParticleField.particles (NeuraForgeApp.particles a)) <= 160)%nat /\
    (length (GlowPulse.pulses (NeuraForgeApp.pulse a)) <= 8)%nat /\
    AppState.runs (NeuraForgeApp.state a) = AppSpec.clicks evs /\
    AppState.bytes_processed (NeuraForgeApp.state a) = 480 * AppSpec.clicks evs.
Proof.
  destruct (app_init_spec now width height banner) as (a0 & Hinit & Ht0 & Hp0 & Hr0 & Hb0).
  destruct (events_spec evs a0 Ht0 Hp0) as (a & Hrun & Ht & (_ & _ & Hl & Hg) & Hr & Hb).
  exists a0, a. split_and!; try done; lia.
Qed.

End app_more.

Section show_credits.
Context {G : Type} `{PyRandom G}.

Lemma show_spec (now0 now1 : Q) (s : CreditsOverlay.t) :
  exists s',
    CreditsOverlay.show now0 now1 s = Ok s' /\
    CreditsOverlay.in_session now0 (CreditsOverlay.author_line s)
      (Canvas.text_updates (CreditsOverlay.canvas s)) (CreditsOverlay.reveal_delay_ms s)
      (CreditsOverlay.due now0 (CreditsOverlay.reveal_delay_ms s) now1) s'.
Proof.
  unfold CreditsOverlay.show.
  set (s1 := CreditsOverlay.set_t0 now0 _).
  pose proof (setup_scene_spec s1) as (Hshows & Hu & Hrun & Ht0 & Hd & Hline).
  assert (CreditsOverlay.in_session now0 (CreditsOverlay.author_line s)
            (Canvas.text_updates (CreditsOverlay.canvas s)) (CreditsOverlay.reveal_delay_ms s)
            false (CreditsOverlay._setup_scene s1)) as Hs.
  { unfold CreditsOverlay.in_session. split_and!.
    - rewrite Hrun. reflexivity.
    - rewrite Ht0. reflexivity.
    - rewrite Hd. reflexivity.
    - rewrite Hline. reflexivity.
    - exact Hshows.
    - intros _. rewrite Hu. reflexivity.
    - intros _. rewrite Hu. change (CreditsOverlay.canvas s1) with (CreditsOverlay.canvas s).
      lia. }
  destruct (loop_spec _ _ _ _ _ now1 _ Hs) as (s2 & Hl & Hs2).
  exists s2. split; [exact Hl |]. exact Hs2.
Qed.

(** X18. Run Credits always ends with a new overlay in place, running, for
    the author Alex Dubois with a delay of 50 ms, whatever overlay there
    was before and whether destroying that one raised.  Its 13th line reads
    redacted when the first frame comes before the 50 ms, and the author
    line when it does not. *)
Theorem show_credits_fresh (master_w master_h : Z) (destroy_raises : bool)
    (now0 now1 : Q) (a : NeuraForgeApp.t G) :
  exists a' ov,
    NeuraForgeApp._on_show_credits master_w master_h destroy_raises now0 now1 a = Ok a' /\
    NeuraForgeApp.credits a' = Some ov /\
    CreditsOverlay._running ov = true /\
    CreditsOverlay.reveal_delay_ms ov = 50 /\
    CreditsOverlay.author_line ov = "Author: Alex Dubois" /\
    CreditsOverlay.sentinel_text ov
    = Ok (if CreditsOverlay.due now0 50 now1 then "Author: Alex Dubois"
          else "Author: [REDACTED]") /\
    AppState.last_action (NeuraForgeApp.state a') = "credits" /\
    AppState.runs (NeuraForgeApp.state a') = AppState.runs (NeuraForgeApp.state a).
Proof.
  unfold NeuraForgeApp._on_show_credits. cbv zeta.
  set (ov0 := CreditsOverlay.__init__ master_w master_h NeuraForgeApp.APP_NAME
                NeuraForgeApp.AUTHOR_FIRST NeuraForgeApp.AUTHOR_LAST
                NeuraForgeApp.CREDITS_REVEAL_DELAY_MS).
  destruct (show_spec now0 now1 ov0) as (ov & -> & Hs).
  cbn [mbind Res_bind mret Res_ret].
  change (CreditsOverlay.author_line ov0) with "Author: Alex Dubois" in Hs.
  change (CreditsOverlay.reveal_delay_ms ov0) with 50 in Hs.
  destruct Hs as (Hrun & _ & Hd & Hline & Hshows & _).
  destruct (shows_13th _ _ _ Hshows) as (id & text & _ & Htext & Hget & Hcget).
  { destruct (CreditsOverlay.due now0 50 now1); by vm_compute. }
  exists (NeuraForgeApp.set_credits (Some ov)
            (NeuraForgeApp.set_credits (Some ov0)
               match NeuraForgeApp.credits
                       (NeuraForgeApp.log "Run Credits → launching overlay…"
                          (NeuraForgeApp.set_state
                             (AppState.set_last_action "credits" (NeuraForgeApp.state a)) a))
               with
               | Some _ =>
                   NeuraForgeApp.set_credits None
                     (NeuraForgeApp.log "Run Credits → launching overlay…"
                        (NeuraForgeApp.set_state
                           (AppState.set_last_action "credits" (NeuraForgeApp.state a)) a))
               | None =>
                   NeuraForgeApp.log "Run Credits → launching overlay…"
                     (NeuraForgeApp.set_state
                        (AppState.set_last_action "credits" (NeuraForgeApp.state a)) a)
               end)), ov.
  split; [reflexivity |]. split; [reflexivity |].
  split_and!; try done.
  - unfold CreditsOverlay.sentinel_text. rewrite Hget. cbn [mbind Res_bind]. rewrite Hcget.
    f_equal. destruct (CreditsOverlay.due now0 50 now1);
      vm_compute in Htext; by injection Htext as <-.
  - cbn. by destruct (NeuraForgeApp.credits a).
  - cbn. by destruct (NeuraForgeApp.credits a).
Qed.

End show_credits.

(** ** [src/core/effects.py] : the visuals on the canvas *)

Section visuals.
Context {G : Type} `{PyRandom G}.

Implicit Types (c : Canvas.t) (l : list Z).

Lemma exactly_perm c l l' : l ≡ₚ l' -> CanvasSpec.exactly c l -> CanvasSpec.exactly c l'.
Proof.
  intros Hperm (Hwf & Hnd & Hdom). split_and!; [done | by rewrite <- Hperm |].
  rewrite Hdom. by apply list_to_set_perm_L.
Qed.

Lemma exactly_same c c' l :
  Canvas.items c' = Canvas.items c -> Canvas.next_id c' = Canvas.next_id c ->
  CanvasSpec.exactly c l -> CanvasSpec.exactly c' l.
Proof.
  intros Hi Hn (Hwf & Hnd & Hdom). unfold CanvasSpec.exactly, CanvasSpec.wf in *.
  rewrite Hi, Hn. split_and!; done.
Qed.

Lemma exactly_update (call : Canvas.Call) c l :
  CanvasSpec.exactly c l -> CanvasSpec.exactly (Canvas.update call (fun m => m) c) l.
Proof. intros Hc. by eapply exactly_same. Qed.

Lemma exactly_create (it : Canvas.Item) c l :
  CanvasSpec.exactly c l ->
  CanvasSpec.exactly (Canvas.create it c).2 (Z.pos (Canvas.next_id c) :: l).
Proof.
  intros (Hwf & Hnd & Hdom). split_and!.
  - by apply wf_create.
  - constructor; [| done]. intros Hin.
    assert (Z.pos (Canvas.next_id c) ∈ dom (Canvas.items c)) as Hd.
    { rewrite Hdom. by apply elem_of_list_to_set. }
    apply elem_of_dom in Hd as [it' Hit]. apply Hwf in Hit. lia.
  - unfold Canvas.create. cbn. by rewrite dom_insert_L, Hdom.
Qed.

Lemma exactly_delete (id : Z) c l :
  CanvasSpec.exactly c (id :: l) -> CanvasSpec.exactly (Canvas.delete id c) l.
Proof.
  intros (Hwf & Hnd & Hdom). apply NoDup_cons in Hnd as [Hnotin Hnd]. split_and!.
  - intros k it Hk. unfold Canvas.delete, Canvas.update in Hk. cbn in Hk.
    apply lookup_delete_Some in Hk as [_ Hk]. by apply Hwf in Hk.
  - done.
  - unfold Canvas.delete, Canvas.update. cbn. rewrite dom_delete_L, Hdom.
    rewrite list_to_set_cons, difference_union_distr_l_L, difference_diag_L.
    rewrite (left_id_L ∅ (∪)).
    apply difference_disjoint_L, disjoint_singleton_r.
    by rewrite elem_of_list_to_set.
Qed.

Lemma exactly_size c l : CanvasSpec.exactly c l -> size (Canvas.items c) = length l.
Proof.
  intros (_ & Hnd & Hdom).
  by rewrite <- (size_dom (D := gset Z)), Hdom, size_list_to_set.
Qed.

Lemma visuals_cons_none l : CanvasSpec.visuals (-1 :: l) = CanvasSpec.visuals l.
Proof. unfold CanvasSpec.visuals. by rewrite filter_cons_False by (intros Hne; by apply Hne). Qed.

Lemma visuals_cons_some (i : Z) l :
  i <> -1 -> CanvasSpec.visuals (i :: l) = i :: CanvasSpec.visuals l.
Proof. intros Hi. unfold CanvasSpec.visuals. by rewrite filter_cons_True. Qed.

Lemma visuals_all l : Forall (fun i => i <> -1) l -> CanvasSpec.visuals l = l.
Proof.
  induction 1 as [| i l Hi _ IH]; [done |].
  by rewrite visuals_cons_some, IH.
Qed.

Lemma visuals_none l : Forall (fun i => i = -1) l -> CanvasSpec.visuals l = [].
Proof.
  induction 1 as [| i l Hi _ IH]; [done |].
  subst i. by rewrite visuals_cons_none.
Qed.

Lemma visuals_app l l' :
  CanvasSpec.visuals (l ++ l') = CanvasSpec.visuals l ++ CanvasSpec.visuals l'.
Proof. apply filter_app. Qed.

Lemma same_on_refl l c : CanvasSpec.same_on l c c.
Proof. by intros k _. Qed.

Lemma same_on_trans l c1 c2 c3 :
  CanvasSpec.same_on l c1 c2 -> CanvasSpec.same_on l c2 c3 -> CanvasSpec.same_on l c1 c3.
Proof. intros H12 H23 k Hk. by rewrite H23, H12. Qed.

Lemma same_on_sub l l' c c' :
  (forall k, k ∈ l -> k ∈ l') -> CanvasSpec.same_on l' c c' -> CanvasSpec.same_on l c c'.
Proof. intros Hsub Hs k Hk. apply Hs, Hsub, Hk. Qed.

Lemma same_on_items l c c' :
  Canvas.items c' = Canvas.items c -> CanvasSpec.same_on l c c'.
Proof. intros Hi k _. by rewrite Hi. Qed.

Lemma same_on_create (it : Canvas.Item) c l :
  CanvasSpec.exactly c l -> CanvasSpec.same_on l c (Canvas.create it c).2.
Proof.
  intros (Hwf & _ & Hdom) k Hk. unfold Canvas.create. cbn.
  apply lookup_insert_ne. intros <-.
  assert (Z.pos (Canvas.next_id c) ∈ dom (Canvas.items c)) as Hd.
  { rewrite Hdom. by apply elem_of_list_to_set. }
  apply elem_of_dom in Hd as [it' Hit]. apply Hwf in Hit. lia.
Qed.

Lemma same_on_delete (id : Z) c l :
  CanvasSpec.exactly c (id :: l) -> CanvasSpec.same_on l c (Canvas.delete id c).
Proof.
  intros (_ & Hnd & _) k Hk. apply NoDup_cons in Hnd as [Hnotin _].
  unfold Canvas.delete, Canvas.update. cbn.
  apply lookup_delete_ne. by intros <-.
Qed.

(** [_render] gives each particle without a visual a new one and leaves
    the other items of the canvas as they are. *)
Lemma render_one_exactly (pal : list string) (p p1 : Particle.t) c c1 (g g1 : G)
    (Y : list Z) :
  ParticleField.render_one pal p c g = Ok (p1, c1, g1) ->
  CanvasSpec.exactly c (CanvasSpec.visuals [Particle.item p] ++ Y) ->
  CanvasSpec.exactly c1 (Particle.item p1 :: Y) /\ CanvasSpec.same_on Y c c1.
Proof.
  intros Hone Hc. unfold ParticleField.render_one in Hone.
  destruct (py_mod (Particle.hue_idx p) (Z.of_nat (length pal))) as [i | e];
    [| discriminate Hone].
  cbn [mbind Res_bind] in Hone.
  destruct (py_getitem pal i) as [col | e]; [| discriminate Hone].
  cbn [mbind Res_bind] in Hone.
  destruct (Particle.item p =? -1) eqn:E.
  - apply Z.eqb_eq in E. rewrite E, visuals_cons_none in Hc. cbn [app] in Hc.
    unfold Canvas.create_oval in Hone.
    pose proof (exactly_create (Canvas.mkItem Canvas.KOval EmptyString []) c _ Hc) as Hc'.
    pose proof (same_on_create (Canvas.mkItem Canvas.KOval EmptyString []) c _ Hc) as Hs.
    destruct (Canvas.create _ c) as [id cc] eqn:Hcr.
    unfold Canvas.create in Hcr. injection Hcr as <- <-.
    cbn [mret Res_ret] in Hone. injection Hone as <- <- _.
    cbn [Particle.item Particle.set_item]. by split.
  - apply Z.eqb_neq in E. rewrite visuals_cons_some in Hc by done.
    assert (Particle.item p1 = Particle.item p /\
            Canvas.items c1 = Canvas.items c /\
            Canvas.next_id c1 = Canvas.next_id c) as (-> & Hi & Hn).
    { destruct (Qltb 0.9 (Particle.alpha p)).
      - destruct (random g) as [u g0]. destruct (Qltb u 0.05).
        + destruct (py_mod _ _) as [j | e]; [| discriminate Hone].
          cbn [mbind Res_bind] in Hone.
          destruct (py_getitem pal j) as [col' | e]; [| discriminate Hone].
          cbn [mbind Res_bind mret Res_ret] in Hone. injection Hone as <- <- _.
          split_and!; reflexivity.
        + cbn [mret Res_ret] in Hone. injection Hone as <- <- _.
          split_and!; reflexivity.
      - cbn [mret Res_ret] in Hone. injection Hone as <- <- _.
        split_and!; reflexivity. }
    split; [by eapply exactly_same | by apply same_on_items].
Qed.

Lemma render_all_exactly (pal : list string) (ps ps' : list Particle.t) c c' (g g' : G)
    (X : list Z) :
  ParticleField.render_all pal ps c g = Ok (ps', c', g') ->
  CanvasSpec.exactly c (CanvasSpec.visuals (map Particle.item ps) ++ X) ->
  CanvasSpec.exactly c' (map Particle.item ps' ++ X) /\ CanvasSpec.same_on X c c'.
Proof.
  revert ps' c c' g g' X.
  induction ps as [| p ps IH]; intros ps' c c' g g' X Hrun Hc; simpl in Hrun.
  - injection Hrun as <- <- <-. split; [exact Hc | apply same_on_refl].
  - destruct (ParticleField.render_one pal p c g) as [[[p1 c1] g1] | e] eqn:Hone;
      [| discriminate Hrun].
    cbn [mbind Res_bind] in Hrun.
    destruct (ParticleField.render_all pal ps c1 g1) as [[[ps1 c2] g2] | e] eqn:Hrest;
      [| discriminate Hrun].
    cbn [mbind Res_bind mret Res_ret] in Hrun. injection Hrun as <- <- <-.
    destruct (render_one_exactly pal p p1 c c1 g g1
                (CanvasSpec.visuals (map Particle.item ps) ++ X) Hone) as [Hc1 Hs1].
    { cbn [map] in Hc. change (Particle.item p :: map Particle.item ps)
        with ([Particle.item p] ++ map Particle.item ps) in Hc.
      by rewrite visuals_app, <- app_assoc in Hc. }
    destruct (IH ps1 c1 c2 g1 g2 (Particle.item p1 :: X) Hrest) as [Hc2 Hs2].
    { eapply exactly_perm; [| exact Hc1]. apply Permutation_middle. }
    split.
    + cbn [map app]. eapply exactly_perm; [| exact Hc2].
      symmetry. apply Permutation_middle.
    + eapply same_on_trans.
      * eapply same_on_sub; [| exact Hs1]. intros k Hk. apply elem_of_app. by right.
      * eapply same_on_sub; [| exact Hs2]. intros k Hk. apply elem_of_cons. by right.
Qed.

(** The eviction loop deletes the visuals of the particles it pops, and
    those only. *)
Lemma evict_loop_exactly (n : nat) c (ps : list Particle.t) (X : list Z) :
  (n <= length ps)%nat ->
  Forall (fun p => Particle.item p <> -1) ps ->
  CanvasSpec.exactly c (map Particle.item ps ++ X) ->
  exists c', ParticleField.evict_loop n c ps = Ok (c', drop n ps) /\
    CanvasSpec.exactly c' (map Particle.item (drop n ps) ++ X) /\
    CanvasSpec.same_on X c c'.
Proof.
  revert c ps. induction n as [| n IH]; intros c ps Hn Hall Hc; simpl.
  - exists c. rewrite drop_0. split_and!; [done | done | apply same_on_refl].
  - destruct ps as [| old ps]; [simpl in Hn; lia |].
    inversion Hall as [| ? ? Hold Hps]; subst. simpl.
    destruct (Particle.item old =? -1) eqn:E; [lia |].
    destruct (IH (Canvas.delete (Particle.item old) c) ps) as (c' & Hrun & Hc' & Hs).
    { simpl in Hn; lia. }
    { done. }
    { apply exactly_delete. exact Hc. }
    exists c'. split_and!; [done | done |].
    eapply same_on_trans; [| exact Hs].
    eapply same_on_sub; [| apply same_on_delete; exact Hc].
    intros k Hk. apply elem_of_app. by right.
Qed.

Lemma spawn_one_item (w h : Z) (s : ParticleField.t G) :
  ParticleField.palette s <> [] ->
  exists p g, ParticleField.spawn_one w h s
              = Ok (ParticleField.set_particles (ParticleField.particles s ++ [p])
                      (ParticleField.set_rng g s)) /\
              Particle.item p = -1.
Proof.
  intros Hpal. unfold ParticleField.spawn_one.
  repeat match goal with
         | |- context [random ?g] => destruct (random g) as [? ?]
         end.
  unfold randrange.
  destruct (Z.of_nat (length (ParticleField.palette s)) - 0 <=? 0) eqn:E.
  { apply Z.leb_le in E. destruct (ParticleField.palette s); [done |].
    rewrite length_cons in E. lia. }
  destruct (randbelow _ _) as [k g']. cbn. eauto.
Qed.

Lemma spawn_loop_items (w h : Z) (n : nat) (s : ParticleField.t G) :
  ParticleField.palette s <> [] ->
  exists s', ParticleField.spawn_loop w h n s = Ok s' /\
    CanvasSpec.visuals (map Particle.item (ParticleField.particles s'))
    = CanvasSpec.visuals (map Particle.item (ParticleField.particles s)).
Proof.
  revert s. induction n as [| n IH]; intros s Hpal; simpl.
  - by exists s.
  - destruct (spawn_one_item w h s Hpal) as (p & g & -> & Hp).
    cbn [mbind Res_bind].
    destruct (IH (ParticleField.set_particles (ParticleField.particles s ++ [p])
                    (ParticleField.set_rng g s)) Hpal) as (s' & -> & Hv).
    exists s'. split; [done |]. rewrite Hv. cbn.
    rewrite map_app, visuals_app. cbn [map]. rewrite Hp, visuals_cons_none.
    apply app_nil_r.
Qed.

Lemma move_all_items (w h : Z) (ps : list Particle.t) (g : G) :
  map Particle.item (ParticleField.move_all w h ps g).1 = map Particle.item ps.
Proof.
  revert g. induction ps as [| p ps IH]; intros g; simpl; [done |].
  pose proof (move_in_bounds w h p g) as [_ Hitem].
  destruct (ParticleField.move w h p g) as [p' g1]. simpl in Hitem.
  specialize (IH g1).
  destruct (ParticleField.move_all w h ps g1) as [ps' g2]. simpl in *.
  by rewrite Hitem, IH.
Qed.

Lemma advance_exactly c s c1 s1 (X : list Z) :
  ParticleField.palette s <> [] ->
  ParticleField.advance c s = Ok (c1, s1) ->
  CanvasSpec.exactly c
    (CanvasSpec.visuals (map Particle.item (ParticleField.particles s)) ++ X) ->
  CanvasSpec.exactly c1 (map Particle.item (ParticleField.particles s1) ++ X) /\
  CanvasSpec.same_on X c c1.
Proof.
  intros Hpal Hadv Hc. unfold ParticleField.advance in Hadv.
  assert (exists s0,
    (if 0 <? ParticleField._boost s
     then ParticleField._spawn c (Z.min 8 (ParticleField._boost s))
            (ParticleField.set_boost
               (ParticleField._boost s - Z.min 8 (ParticleField._boost s)) s)
     else mret s) = Ok s0 /\
    CanvasSpec.visuals (map Particle.item (ParticleField.particles s0))
    = CanvasSpec.visuals (map Particle.item (ParticleField.particles s)))
    as (s0 & Hs0 & Hv).
  { destruct (0 <? ParticleField._boost s); [| by exists s].
    unfold ParticleField._spawn.
    destruct (spawn_loop_items (Z.max 1 (Canvas.winfo_width c))
                (Z.max 1 (Canvas.winfo_height c))
                (Z.to_nat (Z.min 8 (ParticleField._boost s)))
                (ParticleField.set_boost
                   (ParticleField._boost s - Z.min 8 (ParticleField._boost s)) s) Hpal)
      as (s0 & Hs0 & Hv).
    exists s0. split; [exact Hs0 | exact Hv]. }
  cbv zeta in Hadv. rewrite Hs0 in Hadv. cbn [mbind Res_bind] in Hadv.
  pose proof (move_all_items (Z.max 1 (Canvas.winfo_width c))
                (Z.max 1 (Canvas.winfo_height c))
                (ParticleField.particles s0) (ParticleField._rng s0)) as Hmv.
  destruct (ParticleField.move_all _ _ _ _) as [ps g]. cbn [fst] in Hmv.
  unfold ParticleField._render in Hadv.
  cbn [ParticleField.particles ParticleField.set_particles ParticleField.set_rng
       ParticleField.palette ParticleField._rng] in Hadv.
  destruct (ParticleField.render_all _ ps c g) as [[[ps' c'] g'] | e] eqn:Hr;
    [| discriminate Hadv].
  cbn in Hadv. injection Hadv as <- <-. cbn.
  destruct (render_all_exactly _ _ _ _ _ _ _ X Hr) as [Hc' Hs'].
  { by rewrite Hmv, Hv. }
  by split.
Qed.

Lemma step_exactly c s (X : list Z) :
  ParticleField.palette s <> [] ->
  CanvasSpec.exactly c
    (CanvasSpec.visuals (map Particle.item (ParticleField.particles s)) ++ X) ->
  exists c' s', ParticleField.step c s = Ok (c', s') /\
    ParticleField.palette s' = ParticleField.palette s /\
    Forall (fun p => Particle.item p <> -1) (ParticleField.particles s') /\
    CanvasSpec.exactly c' (map Particle.item (ParticleField.particles s') ++ X) /\
    CanvasSpec.same_on X c c'.
Proof.
  intros Hpal Hc. unfold ParticleField.step.
  destruct (advance_spec c s Hpal) as (c1 & s1 & Hadv & Hpal1 & _ & _ & _ & _ & Hvis).
  destruct (advance_exactly c s c1 s1 X Hpal Hadv Hc) as [Hc1 Hs1].
  rewrite Hadv. cbn [mbind Res_bind]. unfold ParticleField.evict.
  destruct (160 <? Z.of_nat (length (ParticleField.particles s1))) eqn:E.
  - destruct (evict_loop_exactly
                (Z.to_nat (Z.of_nat (length (ParticleField.particles s1)) - 160))
                c1 (ParticleField.particles s1) X) as (c2 & -> & Hc2 & Hs2);
      [lia | done | done |].
    cbn [mbind Res_bind mret Res_ret]. eexists _, _. split; [reflexivity |].
    cbn [ParticleField.particles ParticleField.set_particles ParticleField.palette].
    split_and!; [done | by apply Forall_drop | done | by eapply same_on_trans].
  - eexists _, _. split; [reflexivity |]. by split_and!.
Qed.

(** X19. A particle field on a canvas that it shares with other items [X]
    owns exactly the visuals of its particles: whatever is done with the
    field (boosts, steps, the canvas changing size), the canvas holds the
    visuals of the particles in the list and the items [X] and nothing
    else (no visual is left behind by a particle that was evicted), and
    the items [X] are what they were. *)
Theorem particle_visuals_owned (ops : list ParticleField.Op) c (s : ParticleField.t G)
    (X : list Z) :
  ParticleField.palette s <> [] ->
  CanvasSpec.exactly c
    (CanvasSpec.visuals (map Particle.item (ParticleField.particles s)) ++ X) ->
  exists c' s', ParticleField.run ops c s = Ok (c', s') /\
    CanvasSpec.exactly c'
      (CanvasSpec.visuals (map Particle.item (ParticleField.particles s')) ++ X) /\
    CanvasSpec.same_on X c c'.
Proof.
  revert c s. induction ops as [| op ops IH]; intros c s Hpal Hc.
  - exists c, s. split_and!; [done | done | apply same_on_refl].
  - destruct op as [amt | | w h]; cbn [ParticleField.run].
    + apply IH; done.
    + destruct (step_exactly c s X Hpal Hc) as (c1 & s1 & -> & Hpal1 & Hvis & Hc1 & Hs1).
      cbn [mbind Res_bind].
      destruct (IH c1 s1) as (c' & s' & Hrun & Hc' & Hs'); [by rewrite Hpal1 | |].
      { by rewrite visuals_all by (by apply Forall_map). }
      exists c', s'. split_and!; [done | done | by eapply same_on_trans].
    + destruct (IH (Canvas.resize w h c) s) as (c' & s' & Hrun & Hc' & Hs'); [done | |].
      { by eapply exactly_same. }
      exists c', s'. split_and!; [done | done |].
      eapply same_on_trans; [| exact Hs']. by apply same_on_items.
Qed.

(** *** The glow pulse *)

Lemma glow_spawn_item (w h : Z) (strength : Q) (s : GlowPulse.t G) :
  exists p, GlowPulse.pulses (GlowPulse._spawn w h strength s) = GlowPulse.pulses s ++ [p] /\
    Pulse.item p = -1.
Proof.
  unfold GlowPulse._spawn.
  destruct (random (GlowPulse._rng s)) as [u1 g1].
  destruct (random g1) as [u2 g2].
  destruct (random g2) as [u3 g3].
  cbn. eauto.
Qed.

Lemma maybe_spawn_items (w h : Z) (s : GlowPulse.t G) :
  exists tail, GlowPulse.pulses (GlowPulse.maybe_spawn w h s) = GlowPulse.pulses s ++ tail /\
    Forall (fun p => Pulse.item p = -1) tail.
Proof.
  assert (forall strength s0, exists tail,
            GlowPulse.pulses (GlowPulse._spawn w h strength s0) = GlowPulse.pulses s0 ++ tail /\
            Forall (fun p => Pulse.item p = -1) tail) as Hsp.
  { intros strength s0. destruct (glow_spawn_item w h strength s0) as (p & -> & Hp).
    exists [p]. split; [done |]. by constructor. }
  assert (forall s0 : GlowPulse.t G, exists tail,
            GlowPulse.pulses s0 = GlowPulse.pulses s0 ++ tail /\
            Forall (fun p => Pulse.item p = -1) tail) as Hid.
  { intros s0. exists []. by rewrite app_nil_r. }
  unfold GlowPulse.maybe_spawn.
  destruct (Qltb 0 (GlowPulse._kick s)).
  - destruct (random (GlowPulse._rng s)) as [u g]. destruct (Qltb u 0.20).
    + cbn [GlowPulse.pulses GlowPulse.set_kick]. apply (Hsp _ (GlowPulse.set_rng g s)).
    + cbn [GlowPulse._rng GlowPulse.set_rng]. destruct (random g) as [u' g'].
      destruct (Qltb u' 0.01).
      * apply (Hsp _ (GlowPulse.set_rng g' (GlowPulse.set_rng g s))).
      * apply (Hid (GlowPulse.set_rng g' (GlowPulse.set_rng g s))).
  - destruct (random (GlowPulse._rng s)) as [u g]. destruct (Qltb u 0.01).
    + apply (Hsp _ (GlowPulse.set_rng g s)).
    + apply (Hid (GlowPulse.set_rng g s)).
Qed.

Lemma visuals_map_none (ps : list Pulse.t) :
  Forall (fun p => Pulse.item p = -1) ps -> CanvasSpec.visuals (map Pulse.item ps) = [].
Proof. intros Hall. apply visuals_none. by apply Forall_map. Qed.

Lemma expired_app (ps ps' : list Pulse.t) :
  CanvasSpec.expired (ps ++ ps') = CanvasSpec.expired ps ++ CanvasSpec.expired ps'.
Proof. apply filter_app. Qed.

Lemma expired_none (ps : list Pulse.t) :
  Forall (fun p => Pulse.item p = -1) ps ->
  Forall (fun p => Pulse.item p = -1) (CanvasSpec.expired ps).
Proof.
  intros Hall. apply Forall_forall. intros p Hp.
  apply list_elem_of_filter in Hp as [_ Hp].
  rewrite Forall_forall in Hall. by apply Hall.
Qed.

(** The ageing loop splits the rings into those it keeps and those it
    drops; a ring it keeps keeps its visual. *)
Lemma age_split (ps : list Pulse.t) :
  CanvasSpec.visuals (map Pulse.item ps)
  ≡ₚ CanvasSpec.visuals (map Pulse.item (GlowPulse.age ps))
     ++ CanvasSpec.visuals (map Pulse.item (CanvasSpec.expired ps)).
Proof.
  induction ps as [| p ps IH]; [done |].
  cbn [GlowPulse.age map]. unfold CanvasSpec.expired.
  destruct (Qltb 0 (Pulse.life p - 0.02)) eqn:E.
  - rewrite filter_cons_False by (by rewrite E). fold (CanvasSpec.expired ps).
    cbn [map Pulse.item].
    destruct (decide (Pulse.item p = -1)) as [-> | Hne].
    + by rewrite !visuals_cons_none.
    + rewrite !visuals_cons_some by done. cbn [app]. by rewrite IH.
  - rewrite filter_cons_True by done. fold (CanvasSpec.expired ps).
    cbn [map].
    destruct (decide (Pulse.item p = -1)) as [-> | Hne].
    + by rewrite !visuals_cons_none.
    + rewrite !visuals_cons_some by done. rewrite IH. apply Permutation_middle.
Qed.

(** [_render] gives each ring without a visual a new one and leaves the
    other items of the canvas as they are. *)
Lemma glow_render_exactly (pal : list string) (i : Z) (ps ps' : list Pulse.t) c c'
    (X : list Z) :
  GlowPulse.render_from pal i ps c = Ok (ps', c') ->
  CanvasSpec.exactly c (CanvasSpec.visuals (map Pulse.item ps) ++ X) ->
  CanvasSpec.exactly c' (map Pulse.item ps' ++ X) /\ CanvasSpec.same_on X c c'.
Proof.
  revert i ps' c c' X.
  induction ps as [| p ps IH]; intros i ps' c c' X Hrun Hc; simpl in Hrun.
  - injection Hrun as <- <-. split; [exact Hc | apply same_on_refl].
  - destruct (GlowPulse.render_one pal i p c) as [[p1 c1] | e] eqn:Hone;
      [| discriminate Hrun].
    cbn [mbind Res_bind] in Hrun.
    destruct (GlowPulse.render_from pal (i + 1) ps c1) as [[ps1 c2] | e] eqn:Hrest;
      [| discriminate Hrun].
    cbn [mbind Res_bind mret Res_ret] in Hrun. injection Hrun as <- <-.
    assert (CanvasSpec.exactly c1
              (Pulse.item p1 :: CanvasSpec.visuals (map Pulse.item ps) ++ X) /\
            CanvasSpec.same_on (CanvasSpec.visuals (map Pulse.item ps) ++ X) c c1)
      as [Hc1 Hs1].
    { unfold GlowPulse.render_one in Hone.
      destruct (py_mod i (Z.of_nat (length pal))) as [k | e]; [| discriminate Hone].
      cbn [mbind Res_bind] in Hone.
      destruct (py_getitem pal k) as [col | e]; [| discriminate Hone].
      cbn [mbind Res_bind] in Hone. cbn [map] in Hc.
      destruct (Pulse.item p =? -1) eqn:E.
      - apply Z.eqb_eq in E. rewrite E, visuals_cons_none in Hc.
        unfold Canvas.create_oval in Hone.
        pose proof (exactly_create (Canvas.mkItem Canvas.KOval EmptyString []) c _ Hc) as Hc'.
        pose proof (same_on_create (Canvas.mkItem Canvas.KOval EmptyString []) c _ Hc) as Hs.
        destruct (Canvas.create _ c) as [id cc] eqn:Hcr.
        unfold Canvas.create in Hcr. injection Hcr as <- <-.
        cbn [mret Res_ret] in Hone. injection Hone as <- <-.
        cbn [Pulse.item Pulse.set_item]. by split.
      - apply Z.eqb_neq in E. rewrite visuals_cons_some in Hc by done.
        cbn [mret Res_ret] in Hone. injection Hone as <- <-.
        split; [by eapply exactly_same | by apply same_on_items]. }
    destruct (IH (i + 1) ps1 c1 c2 (Pulse.item p1 :: X) Hrest) as [Hc2 Hs2].
    { eapply exactly_perm; [| exact Hc1]. apply Permutation_middle. }
    split.
    + cbn [map app]. eapply exactly_perm; [| exact Hc2].
      symmetry. apply Permutation_middle.
    + eapply same_on_trans.
      * eapply same_on_sub; [| exact Hs1]. intros k Hk. apply elem_of_app. by right.
      * eapply same_on_sub; [| exact Hs2]. intros k Hk. apply elem_of_cons. by right.
Qed.

(** The loop over [self.pulses[:-8]] deletes the visuals of these rings,
    and those only. *)
Lemma release_exactly (extras : list Pulse.t) c (Y : list Z) :
  Forall (fun p => Pulse.item p <> -1) extras ->
  CanvasSpec.exactly c (map Pulse.item extras ++ Y) ->
  CanvasSpec.exactly (GlowPulse.release extras c) Y /\
  CanvasSpec.same_on Y c (GlowPulse.release extras c).
Proof.
  revert c. induction extras as [| extra rest IH]; intros c Hall Hc; simpl.
  - split; [exact Hc | apply same_on_refl].
  - inversion Hall as [| ? ? Hextra Hrest]; subst.
    destruct (Pulse.item extra =? -1) eqn:E; [lia |].
    destruct (IH (Canvas.delete (Pulse.item extra) c) Hrest) as [Hc' Hs'].
    { apply exactly_delete. exact Hc. }
    split; [done |].
    eapply same_on_trans; [| exact Hs'].
    eapply same_on_sub; [| apply same_on_delete; exact Hc].
    intros k Hk. apply elem_of_app. by right.
Qed.

(** X20. [GlowPulse.step] deletes the visual of a ring that the cap of 8
    cuts off, but not that of a ring it drops because its life has run
    out: after a step on a canvas shared with other items [X], the canvas
    holds the visuals of the rings in the list, the items [X], and the
    visuals of the rings that have just expired, which no ring refers to
    any more; the last two kinds are what they were. *)
Theorem glow_expired_visuals_stay c (s : GlowPulse.t G) (X : list Z) :
  GlowPulse.palette s <> [] ->
  CanvasSpec.exactly c
    (CanvasSpec.visuals (map Pulse.item (GlowPulse.pulses s)) ++ X) ->
  let left := CanvasSpec.visuals (map Pulse.item (CanvasSpec.expired (GlowPulse.pulses s))) in
  exists c' s', GlowPulse.step c s = Ok (c', s') /\
    CanvasSpec.exactly c' (map Pulse.item (GlowPulse.pulses s') ++ left ++ X) /\
    CanvasSpec.same_on (left ++ X) c c'.
Proof.
  intros Hpal Hc left. unfold GlowPulse.step.
  destruct (glow_advance_spec c s Hpal) as (c1 & s1 & Hadv & Hpal1 & _ & Hvis).
  rewrite Hadv. cbn [mbind Res_bind mret Res_ret].
  unfold GlowPulse.advance in Hadv. cbv zeta in Hadv.
  destruct (maybe_spawn_items (Z.max 1 (Canvas.winfo_width c))
              (Z.max 1 (Canvas.winfo_height c)) s) as (tail & Htail & Hnone).
  unfold GlowPulse._render in Hadv.
  cbn [GlowPulse.pulses GlowPulse.set_pulses GlowPulse.palette] in Hadv.
  rewrite Htail in Hadv.
  destruct (GlowPulse.render_from _ 0 _ c) as [[ps' c0] | e] eqn:Hr; [| discriminate Hadv].
  cbn [mbind Res_bind mret Res_ret] in Hadv. injection Hadv as <- <-.
  cbn [GlowPulse.pulses GlowPulse.set_pulses] in Hvis.
  destruct (glow_render_exactly _ _ _ _ _ _ (left ++ X) Hr) as [Hc1 Hs1].
  { eapply exactly_perm; [| exact Hc].
    rewrite app_assoc. apply Permutation_app_tail.
    transitivity (CanvasSpec.visuals (map Pulse.item (GlowPulse.pulses s ++ tail))).
    { rewrite map_app, visuals_app, (visuals_map_none tail) by done.
      by rewrite app_nil_r. }
    rewrite (age_split (GlowPulse.pulses s ++ tail)). apply Permutation_app_head.
    rewrite expired_app, map_app, visuals_app.
    rewrite (visuals_map_none (CanvasSpec.expired tail)) by (by apply expired_none).
    by rewrite app_nil_r. }
  unfold GlowPulse.cap. cbn [GlowPulse.pulses GlowPulse.set_pulses].
  destruct (8 <? length ps')%nat eqn:E.
  - cbn [fst snd GlowPulse.pulses GlowPulse.set_pulses].
    unfold GlowPulse.slice_but_last, GlowPulse.slice_last.
    eexists _, _. split; [reflexivity |].
    cbn [GlowPulse.pulses GlowPulse.set_pulses].
    destruct (release_exactly (take (length ps' - 8) ps') c0
                (map Pulse.item (drop (length ps' - 8) ps') ++ left ++ X)) as [Hc2 Hs2].
    { by apply Forall_take. }
    { by rewrite app_assoc, <- map_app, take_drop. }
    split; [done |].
    eapply same_on_trans; [exact Hs1 |].
    eapply same_on_sub; [| exact Hs2]. intros k Hk. apply elem_of_app. by right.
  - eexists _, _. split; [reflexivity |]. by split.
Qed.

End visuals.

(** ** Instances *)

Lemma clamp_spec_witness :
  (0.18 <= 1.0)%Q /\
  ((0.18 <= Utils.clamp 1.5 0.18 1.0 /\ Utils.clamp 1.5 0.18 1.0 <= 1.0)%Q /\
   ((0.18 <= 1.5 /\ 1.5 <= 1.0)%Q -> Utils.clamp 1.5 0.18 1.0 = 1.5%Q) /\
   ((1.5 < 0.18)%Q -> Utils.clamp 1.5 0.18 1.0 = 0.18%Q) /\
   ((1.0 < 1.5)%Q -> Utils.clamp 1.5 0.18 1.0 = 1.0%Q) /\
   Utils.clamp (Utils.clamp 1.5 0.18 1.0) 0.18 1.0 = Utils.clamp 1.5 0.18 1.0).
Proof.
  assert (0.18 <= 1.0)%Q as Hle by lra.
  split; [exact Hle |]. apply (clamp_spec 1.5 0.18 1.0 Hle).
Defined.

Lemma rolling_hash_injective_witness :
  0 <= 1337 < 2 ^ 32 /\
  Utils.rolling_hash 1337 = Utils.rolling_hash 1337 /\
  1337 = 1337.
Proof.
  assert (0 <= 1337 < 2 ^ 32) as Hx by lia.
  split; [exact Hx |]. split; [reflexivity |].
  apply (rolling_hash_injective 1337 1337 Hx Hx). reflexivity.
Defined.

Lemma fmt_bytes_units_witness :
  1024 <= 1024 /\
  exists (v : Q) (unit : string),
    Utils.fmt_bytes 1024 = format_2f v +:+ " " +:+ unit /\
    In unit ["MB"; "GB"; "TB"] /\
    (1024 < 1048576 -> v = (inject_Z 1024 / 1024)%Q /\ unit = "MB").
Proof.
  split; [lia |]. apply (fmt_bytes_units 1024). lia.
Defined.

Lemma fmt_uptime_fields_witness :
  60 <= py_int 3725.5 /\
  exists m r : Z,
    py_int 3725.5 = 60 * m + r /\ 0 <= r < 60 /\ 1 <= m /\
    (m < 60 -> Utils.fmt_uptime 3725.5 = py_str m +:+ "m " +:+ py_str r +:+ "s") /\
    (60 <= m ->
     exists h m' : Z,
       m = 60 * h + m' /\ 0 <= m' < 60 /\ 1 <= h /\
       Utils.fmt_uptime 3725.5 = py_str h +:+ "h " +:+ py_str m' +:+ "m").
Proof.
  assert (60 <= py_int 3725.5) as Hs by (vm_compute; discriminate).
  split; [exact Hs |]. apply (fmt_uptime_fields 3725.5%Q Hs).
Defined.

Lemma init_particles_fresh_witness :
  Colors.particle_palette <> [] /\
  exists s0,
    ParticleField.__init__ (G := Z) Demo.canvas Colors.particle_palette = Ok s0 /\
    length (ParticleField.particles s0) = 42%nat /\
    Forall (Spec.fresh 600 190 4) (ParticleField.particles s0) /\
    ParticleField.count s0 = 0 /\
    ParticleField._boost s0 = 0.
Proof.
  assert (Colors.particle_palette <> []) as Hpal by discriminate.
  split; [exact Hpal |].
  apply (init_particles_fresh (G := Z) (PyRandomSpec0 := lcg_PyRandomSpec)
           Demo.canvas Colors.particle_palette Hpal).
Defined.

Lemma particles_stay_inside_witness :
  ParticleField.palette (ParticleField.boost 24 Demo.field) <> [] /\
  exists c' s',
    ParticleField.step Demo.canvas (ParticleField.boost 24 Demo.field) = Ok (c', s') /\
    Forall (Spec.inside 600 190) (ParticleField.particles s').
Proof.
  assert (ParticleField.palette (ParticleField.boost 24 Demo.field) <> []) as Hpal
    by discriminate.
  split; [exact Hpal |].
  apply (particles_stay_inside Demo.canvas (ParticleField.boost 24 Demo.field) Hpal).
Defined.

Lemma hue_index_valid_witness :
  Colors.particle_palette <> [] /\
  exists s0 c' s',
    ParticleField.__init__ (G := Z) Demo.canvas Colors.particle_palette = Ok s0 /\
    ParticleField.run [ParticleField.Boost 24; ParticleField.Step] Demo.canvas s0
    = Ok (c', s') /\
    ParticleField.palette s' = Colors.particle_palette /\
    Forall (Spec.hue_valid 4) (ParticleField.particles s').
Proof.
  assert (Colors.particle_palette <> []) as Hpal by discriminate.
  split; [exact Hpal |].
  apply (hue_index_valid (G := Z) (PyRandomSpec0 := lcg_PyRandomSpec)
           Colors.particle_palette Demo.canvas Demo.canvas
           [ParticleField.Boost 24; ParticleField.Step] Hpal).
Defined.

Lemma boost_conserved_witness :
  Colors.particle_palette <> [] /\
  exists s0 d c' s',
    ParticleField.__init__ (G := Z) Demo.canvas Colors.particle_palette = Ok s0 /\
    Spec.drained [ParticleField.Boost 24; ParticleField.Step; ParticleField.Boost (-3)]
      Demo.canvas s0 = Ok d /\
    ParticleField.run [ParticleField.Boost 24; ParticleField.Step; ParticleField.Boost (-3)]
      Demo.canvas s0 = Ok (c', s') /\
    ParticleField._boost s' + d = 24 /\
    0 <= ParticleField._boost s' /\
    0 <= d.
Proof.
  assert (Colors.particle_palette <> []) as Hpal by discriminate.
  split; [exact Hpal |].
  apply (boost_conserved (G := Z) Colors.particle_palette Demo.canvas Demo.canvas
           [ParticleField.Boost 24; ParticleField.Step; ParticleField.Boost (-3)] Hpal).
Defined.

Lemma glow_step_alive_witness :
  GlowPulse.palette Demo.glow <> [] /\
  (0 <= GlowPulse._kick Demo.glow)%Q /\
  exists c' s',
    GlowPulse.step Demo.canvas Demo.glow = Ok (c', s') /\
    Forall (fun p => (0 < Pulse.life p)%Q /\ Pulse.item p <> -1) (GlowPulse.pulses s') /\
    (0 <= GlowPulse._kick s' /\ GlowPulse._kick s' <= GlowPulse._kick Demo.glow)%Q /\
    (GlowPulse._kick s' = GlowPulse._kick Demo.glow \/
     GlowPulse._kick s' = (GlowPulse._kick Demo.glow * 0.85)%Q).
Proof.
  assert (GlowPulse.palette Demo.glow <> []) as Hpal by discriminate.
  assert (0 <= GlowPulse._kick Demo.glow)%Q as Hkick by (vm_compute; discriminate).
  split; [exact Hpal |]. split; [exact Hkick |].
  apply (glow_step_alive Demo.canvas Demo.glow Hpal Hkick).
Defined.

Lemma glow_empty_palette_witness :
  GlowPulse.palette (GlowPulse.__init__ (G := Z) []) = [] /\
  (GlowPulse.step Demo.canvas (GlowPulse.__init__ (G := Z) []) = Raise ZeroDivisionError \/
   exists s', GlowPulse.step Demo.canvas (GlowPulse.__init__ (G := Z) []) = Ok (Demo.canvas, s') /\
              GlowPulse.pulses s' = []).
Proof.
  assert (GlowPulse.palette (GlowPulse.__init__ (G := Z) []) = []) as Hpal by reflexivity.
  split; [exact Hpal |].
  apply (glow_empty_palette Demo.canvas (GlowPulse.__init__ (G := Z) []) Hpal).
Defined.

Lemma app_event_loop_witness :
  exists a0 a,
    NeuraForgeApp.__init__ (G := Z) 0 600 190 [] = Ok a0 /\
    AppSpec.events [AppSpec.RunDemo 1; AppSpec.Fire 2 1.016; AppSpec.Fire 1 1.25] a0 = Ok a /\
    AppSpec.two_timers a /\
    (length (ParticleField.particles (NeuraForgeApp.particles a)) <= 160)%nat /\
    (length (GlowPulse.pulses (NeuraForgeApp.pulse a)) <= 8)%nat /\
    AppState.runs (NeuraForgeApp.state a) = 1 /\
    AppState.bytes_processed (NeuraForgeApp.state a) = 480.
Proof.
  apply (app_event_loop (G := Z) (PyRandomSpec0 := lcg_PyRandomSpec) 0 600 190 []
           [AppSpec.RunDemo 1; AppSpec.Fire 2 1.016; AppSpec.Fire 1 1.25]).
Defined.

Lemma exactly_empty : CanvasSpec.exactly Demo.canvas [].
Proof.
  split_and!; [| constructor | reflexivity].
  intros id it Hid. unfold Demo.canvas in Hid. cbn in Hid.
  by rewrite lookup_empty in Hid.
Qed.

Lemma exactly_shared : CanvasSpec.exactly Shared.canvas [1].
Proof. apply (exactly_create _ Demo.canvas [] exactly_empty). Qed.

Lemma exactly_ring : CanvasSpec.exactly Shared.ring_canvas [2; 1].
Proof. apply (exactly_create _ Shared.canvas [1] exactly_shared). Qed.

Lemma particle_visuals_owned_witness :
  ParticleField.palette Demo.field <> [] /\
  CanvasSpec.exactly Shared.canvas [1] /\
  exists c' s',
    ParticleField.run [ParticleField.Boost 24; ParticleField.Step; ParticleField.Step]
      Shared.canvas Demo.field = Ok (c', s') /\
    CanvasSpec.exactly c'
      (CanvasSpec.visuals (map Particle.item (ParticleField.particles s')) ++ [1]) /\
    CanvasSpec.same_on [1] Shared.canvas c'.
Proof.
  assert (ParticleField.palette Demo.field <> []) as Hpal by discriminate.
  split; [exact Hpal |]. split; [exact exactly_shared |].
  apply (particle_visuals_owned
           [ParticleField.Boost 24; ParticleField.Step; ParticleField.Step]
           Shared.canvas Demo.field [1] Hpal exactly_shared).
Defined.

Lemma glow_expired_visuals_stay_witness :
  GlowPulse.palette Shared.fading <> [] /\
  CanvasSpec.exactly Shared.ring_canvas [2; 1] /\
  exists c' s',
    GlowPulse.step Shared.ring_canvas Shared.fading = Ok (c', s') /\
    CanvasSpec.exactly c' (map Pulse.item (GlowPulse.pulses s') ++ [2] ++ [1]) /\
    CanvasSpec.same_on ([2] ++ [1]) Shared.ring_canvas c'.
Proof.
  assert (GlowPulse.palette Shared.fading <> []) as Hpal by discriminate.
  split; [exact Hpal |]. split; [exact exactly_ring |].
  apply (glow_expired_visuals_stay Shared.ring_canvas Shared.fading [1] Hpal exactly_ring).
Defined.
